(** * tike: probe-variation engine and scan-position correction

    A shallow embedding of [src/tike/ptycho/position.py] and
    [src/tike/ptycho/probe.py], and of the functions of
    [src/tike/ptycho/solvers/options.py],
    [src/tike/communicators/stream.py] and
    [src/tike/operators/cupy/bucket.py] that are written in Python.

    Conventions of the embedding.
    - A [float] is an exact rational ([Q]); rounding and overflow are
      outside the model.  The one float effect kept is the division by
      zero: it leaves [inf] or [nan] in an array, which the finiteness
      assertions of [probe.py] reject.  Equalities between computed numbers
      are stated with [==] ([Qeq]) and its pointwise liftings.
    - A complex number is a pair (real part, imaginary part).
    - An array whose last axis has length two (a scan position) is a pair;
      the other axes are lists, outermost axis first.  Leading batch axes
      written [...] in the source are taken to be absent.
    - A function that can execute [raise] or fail an [assert] returns a
      [Result]; exceptions that
      only a library call could throw on ill-shaped arguments (index out of
      range, broadcast mismatch) are excluded by the shapes documented in
      the source, and the total list functions used here ([nth] with a
      default, [map2]) are never run outside those shapes by a caller that
      respects them.
    - External collaborators (the forward operator, [numpy]'s elementary
      functions, [scipy.optimize], [tike.linalg], the random generator) are
      type classes, one per interface; the device pool runs its function on
      the shards one after the other.
    - A method that changes its object in place is a function that returns
      the object as it is after the call. *)

From Stdlib Require Import QArith Qround Qabs Qminmax ZArith List Bool Lia Lqa.
From Stdlib Require Import Permutation Sorted Setoid Morphisms.
Import ListNotations.

Set Implicit Arguments.
Local Open Scope Q_scope.

(** ** Exceptions *)

Inductive Exn : Set := ValueError | AssertionError.

Inductive Result (A : Type) : Type :=
| Ok (a : A)
| Raise (e : Exn).
Arguments Ok {A} a.
Arguments Raise {A} e.

Definition bind {A B} (r : Result A) (k : A -> Result B) : Result B :=
  match r with
  | Ok a => k a
  | Raise e => Raise e
  end.

Notation "x <- r ;; k" := (bind r (fun x => k))
  (at level 61, r at next level, right associativity).

Definition returns {A} (r : Result A) : bool :=
  match r with Ok _ => true | Raise _ => false end.

(** [pool.map]: run [f] on every shard, first exception wins. *)
Fixpoint pool_map {A B} (f : A -> Result B) (shards : list A)
  : Result (list B) :=
  match shards with
  | [] => Ok []
  | s :: rest =>
      b <- f s ;;
      bs <- pool_map f rest ;;
      Ok (b :: bs)
  end.

(** ** Numbers and arrays *)

Definition Qltb (a b : Q) : bool := negb (Qle_bool b a).

Definition Qsum (l : list Q) : Q := fold_right Qplus 0 l.

Definition Qlen {A} (l : list A) : Q := inject_Z (Z.of_nat (length l)).

(** [np.mean] of a one-dimensional array. *)
Definition Qmean (l : list Q) : Q := Qsum l / Qlen l.

(** [np.sign] *)
Definition Qsign (q : Q) : Q :=
  if Qltb 0 q then 1 else if Qltb q 0 then -1 else 0.

Fixpoint map2 {A B C} (f : A -> B -> C) (l : list A) (l' : list B) : list C :=
  match l, l' with
  | a :: t, b :: t' => f a b :: map2 f t t'
  | _, _ => []
  end.

(** Complex numbers. *)
Definition C := (Q * Q)%type.
Definition Cre (z : C) : Q := fst z.
Definition Cim (z : C) : Q := snd z.
Definition Cadd (a b : C) : C := (Cre a + Cre b, Cim a + Cim b).
Definition Csub (a b : C) : C := (Cre a - Cre b, Cim a - Cim b).
Definition Cmul (a b : C) : C :=
  (Cre a * Cre b - Cim a * Cim b, Cre a * Cim b + Cim a * Cre b).
Definition Cconj (a : C) : C := (Cre a, - Cim a).
Definition Cscale (k : Q) (a : C) : C := (k * Cre a, k * Cim a).
Definition Cdivr (a : C) (k : Q) : C := (Cre a / k, Cim a / k).
Definition Cabs2 (a : C) : Q := Cre a * Cre a + Cim a * Cim a.
Definition Ceq (a b : C) : Prop := Cre a == Cre b /\ Cim a == Cim b.

(** A scan position: the two entries of the last axis. *)
Definition Point := (Q * Q)%type.
Definition Padd (p q : Point) : Point := (fst p + fst q, snd p + snd q).
Definition Psub (p q : Point) : Point := (fst p - fst q, snd p - snd q).
Definition Pscale (k : Q) (p : Point) : Point := (k * fst p, k * snd p).
Definition Peq (p q : Point) : Prop := fst p == fst q /\ snd p == snd q.

(** [np.mean(scan, axis=-2, keepdims=True)] *)
Definition Pmean (scan : list Point) : Point :=
  (Qmean (map fst scan), Qmean (map snd scan)).

(** * position.py *)

Module Position.

(** ** [AffineTransform] *)

(** A 2x2 [np.ndarray], row major. *)
Record Matrix2 : Set := mk22 { m00 : Q; m01 : Q; m10 : Q; m11 : Q }.

(** The operator [@] on two 2x2 arrays. *)
Definition matmul (A B : Matrix2) : Matrix2 :=
  mk22 (m00 A * m00 B + m01 A * m10 B) (m00 A * m01 B + m01 A * m11 B)
       (m10 A * m00 B + m11 A * m10 B) (m10 A * m01 B + m11 A * m11 B).

(** The operator [@] on one row of an (N, 2) array and a 2x2 array. *)
Definition rowmul (p : Point) (M : Matrix2) : Point :=
  (fst p * m00 M + snd p * m10 M, fst p * m01 M + snd p * m11 M).

Definition Meq (A B : Matrix2) : Prop :=
  m00 A == m00 B /\ m01 A == m01 B /\ m10 A == m10 B /\ m11 A == m11 B.

Record AffineTransform : Set := mkAffine {
  t0 : Q;
  t1 : Q;
  scale0 : Q;
  scale1 : Q;
  angle : Q;
  shear : Q
}.

(** The dataclass defaults. *)
Definition AffineTransform_default : AffineTransform :=
  mkAffine 0 0 1 1 0 0.

Definition Params := (Q * Q * Q * Q * Q * Q)%type.

Definition astuple (t : AffineTransform) : Params :=
  (t0 t, t1 t, scale0 t, scale1 t, angle t, shear t).

(** The constructor applied to an unpacked 6-tuple. *)
Definition of_tuple (a : Params) : AffineTransform :=
  let '(a0, a1, a2, a3, a4, a5) := a in mkAffine a0 a1 a2 a3 a4 a5.

(** Least-squares cost: a float that may be [np.inf]. *)
Inductive Cost : Set := Fin (c : Q) | Inf.

(** [a < b] on costs. *)
Definition cost_ltb (a b : Cost) : bool :=
  match a, b with
  | Fin x, Fin y => Qltb x y
  | Fin _, Inf => true
  | Inf, _ => false
  end.

(** The [weights] argument: a Python scalar or an (N, 1) array. *)
Inductive Weights : Type :=
| WScalar (w : Q)
| WArray (w : list Q).

(** [np.cos], [np.sin], [np.sqrt] *)
Class Numpy : Type := {
  cos : Q -> Q;
  sin : Q -> Q;
  sqrt : Q -> Q
}.

(** [scipy.optimize.least_squares(fun, x0)]: the minimiser [result.x] and
    [result.cost]. *)
Class Scipy : Type := {
  least_squares : (Params -> list Q) -> Params -> Params * Cost
}.

(** [tike.opt.randomizer.choice(a, size=(rows, cols), replace=True)]: an
    array of [rows] index subsets, each of [cols] indices below [a]. *)
Class Randomizer : Type := {
  choice : nat -> nat * nat -> list (list nat)
}.

(** The object [psi] (a 2D complex array) and the probe (modes, wide, high). *)
Definition Psi := list (list C).
Definition Probe := list (list (list C)).

(** [x.shape[-2:]] of a 2D array. *)
Definition shape2 {A} (x : list (list A)) : Z * Z :=
  (Z.of_nat (length x), Z.of_nat (length (hd [] x))).

(** [probe.shape[-3:]] *)
Definition probe_shape (probe : Probe) : nat * (Z * Z) :=
  (length probe, shape2 (hd [] probe)).

(** The forward-model operator.  Detector frames are kept flattened: one
    list of pixels per scan position. *)
Class Operator : Type := {
  _compute_intensity :
    list (list Q) -> Psi -> list Point -> Probe -> list (list Q) * list (list C);
  fwd : Psi -> list Point -> Probe -> list (list C);
  cost : list (list Q) -> Psi -> list Point -> Probe -> Q
}.

(** [tike.linalg.lstsq] on one position: the rows of [a] (P, 2), the column
    [b] (P, 1), the solution (2, 1). *)
Class Linalg : Type := {
  lstsq : list (Q * Q) -> list Q -> Q * Q
}.

Section WithCollaborators.

Context {numpy : Numpy} {scipy : Scipy} {randomizer : Randomizer}.
Context {operator : Operator} {linalg : Linalg}.

Definition scale_matrix (t : AffineTransform) : Matrix2 :=
  mk22 (scale0 t) 0 0 (scale1 t).

Definition rotation_matrix (t : AffineTransform) : Matrix2 :=
  mk22 (cos (angle t)) (sin (angle t)) (- sin (angle t)) (cos (angle t)).

Definition shear_matrix (t : AffineTransform) : Matrix2 :=
  mk22 1 0 (shear t) 1.

Definition asarray (t : AffineTransform) : Matrix2 :=
  matmul (matmul (scale_matrix t) (rotation_matrix t)) (shear_matrix t).

(** [AffineTransform.__call__] *)
Definition call (t : AffineTransform) (x : list Point) : list Point :=
  map (fun p => rowmul (Padd p (t0 t, t1 t)) (asarray t)) x.

(** The matrix the specification describes, entry by entry:
    scale . rotation . shear multiplied out. *)
Definition spec_matrix (t : AffineTransform) : Matrix2 :=
  let c := cos (angle t) in
  let s := sin (angle t) in
  mk22 (scale0 t * (c + s * shear t)) (scale0 t * s)
       (scale1 t * (c * shear t - s)) (scale1 t * c).

(** ** [estimate_global_transformation] *)

(** [weights / np.sum(weights)] *)
Definition wnormalize (w : Weights) : Weights :=
  match w with
  | WScalar q => WScalar (q / q)
  | WArray l => WArray (map (fun q => q / Qsum l) l)
  end.

(** [np.sqrt(weights0) * d], broadcasting the weights over the rows of [d]. *)
Definition wapply (w : Weights) (d : list Point) : list Point :=
  match w with
  | WScalar q => map (Pscale (sqrt q)) d
  | WArray l => map2 (fun q p => Pscale (sqrt q) p) l d
  end.

(** [.flatten()] of an (N, 2) array. *)
Definition flatten2 (d : list Point) : list Q :=
  flat_map (fun p => [fst p; snd p]) d.

Definition weighted_position_residuals
  (positions0 positions1 : list Point) (weights0 : Weights) (args : Params)
  : list Q :=
  flatten2 (wapply weights0
              (map2 Psub (call (of_tuple args) positions0) positions1)).

Definition estimate_global_transformation
  (positions0 positions1 : list Point) (weights : Weights)
  (transform : AffineTransform) : AffineTransform * Cost :=
  let weights0 := wnormalize weights in
  let result :=
    least_squares
      (weighted_position_residuals positions0 positions1 weights0)
      (astuple transform) in
  (of_tuple (fst result), snd result).

(** ** [estimate_global_transformation_ransac] *)

(** [positions[subset]] with an integer index array. *)
Definition gather (positions : list Point) (subset : list nat) : list Point :=
  map (fun i => nth i positions (0, 0)) subset.

(** [positions[inliars]] with a boolean mask. *)
Fixpoint mask (positions : list Point) (inliars : list bool) : list Point :=
  match positions, inliars with
  | p :: ps, b :: bs => if b then p :: mask ps bs else mask ps bs
  | _, _ => []
  end.

(** [np.linalg.norm(d, axis=-1)] *)
Definition norm_rows (d : list Point) : list Q :=
  map (fun p => sqrt (fst p * fst p + snd p * snd p)) d.

Definition position_error
  (model : AffineTransform) (positions0 positions1 : list Point) : list Q :=
  norm_rows (map2 Psub (call model positions0) positions1).

Definition inliars_of
  (model : AffineTransform) (positions0 positions1 : list Point)
  (max_error : Q) : list bool :=
  map (fun e => Qle_bool e max_error)
      (position_error model positions0 positions1).

Definition count_true (l : list bool) : nat := length (filter id l).

(** [np.sum(inliars) / len(inliars) >= min_consensus]; on an empty array the
    quotient is NaN and the comparison is False. *)
Definition consensus (inliars : list bool) (min_consensus : Q) : bool :=
  match inliars with
  | [] => false
  | _ => Qle_bool min_consensus
           (inject_Z (Z.of_nat (count_true inliars)) / Qlen inliars)
  end.

(** The body of the [for subset in ...] loop, threading the two variables
    it assigns: [transform] and [best_fitness]. *)
Fixpoint ransac_loop
  (positions0 positions1 : list Point) (max_error min_consensus : Q)
  (draws : list (list nat)) (transform : AffineTransform)
  (best_fitness : Cost) : AffineTransform * Cost :=
  match draws with
  | [] => (transform, best_fitness)
  | subset :: rest =>
      let candidate_model :=
        fst (estimate_global_transformation
               (gather positions0 subset) (gather positions1 subset)
               (WScalar 1) transform) in
      let inliars :=
        inliars_of candidate_model positions0 positions1 max_error in
      if consensus inliars min_consensus then
        let '(candidate_model', fitness) :=
          estimate_global_transformation
            (mask positions0 inliars) (mask positions1 inliars)
            (WScalar 1) candidate_model in
        if cost_ltb fitness best_fitness then
          ransac_loop positions0 positions1 max_error min_consensus rest
            candidate_model' fitness
        else
          ransac_loop positions0 positions1 max_error min_consensus rest
            transform best_fitness
      else
        ransac_loop positions0 positions1 max_error min_consensus rest
          transform best_fitness
  end.

Definition estimate_global_transformation_ransac
  (positions0 positions1 : list Point) (weights : option Weights)
  (transform : AffineTransform) (min_sample : nat)
  (max_error min_consensus : Q) (max_iter : nat) : AffineTransform * Cost :=
  ransac_loop positions0 positions1 max_error min_consensus
    (choice (length positions0) (max_iter, min_sample)) transform Inf.

(** Whether the candidate fitted on [subset], starting from [transform],
    reaches consensus. *)
Definition reaches_consensus
  (positions0 positions1 : list Point) (max_error min_consensus : Q)
  (transform : AffineTransform) (subset : list nat) : bool :=
  consensus
    (inliars_of
       (fst (estimate_global_transformation
               (gather positions0 subset) (gather positions1 subset)
               (WScalar 1) transform))
       positions0 positions1 max_error)
    min_consensus.

(** ** [PositionOptions] *)

Record PositionOptions : Type := mkPositionOptions {
  initial_scan : list Point;
  use_adaptive_moment : bool;
  vdecay : Q;
  mdecay : Q;
  use_position_regularization : bool;
  penalty_weight : Q;
  penalty_variance : Q;
  transform : AffineTransform;
  confidence : list Q;
  (** the attribute [_momentum] (N, 4); absent unless [use_adaptive_moment] *)
  _momentum : option (list (Q * Q * Q * Q))
}.

(** The generated [__init__] followed by [__post_init__]; [None] for
    [confidence] is the dataclass default. *)
Definition PositionOptions_init
  (initial_scan : list Point) (use_adaptive_moment : bool) (vdecay mdecay : Q)
  (use_position_regularization : bool) (penalty_weight penalty_variance : Q)
  (transform : AffineTransform) (confidence : option (list Q))
  : PositionOptions :=
  mkPositionOptions
    initial_scan use_adaptive_moment vdecay mdecay
    use_position_regularization penalty_weight penalty_variance transform
    (match confidence with
     | Some c => c
     | None => map (fun _ => 1) initial_scan
     end)
    (if use_adaptive_moment
     then Some (map (fun _ => (0, 0, 0, 0)) initial_scan)
     else None).

(** The object that the body of [PositionOptions.resample] builds in its
    local variable [new]; the arguments [penalty_weight] and
    [penalty_variance] are not passed and take their defaults. *)
Definition resample_new (self : PositionOptions) (factor : Q)
  : PositionOptions :=
  PositionOptions_init
    (map (fun p => Pscale factor p) (initial_scan self))
    (use_adaptive_moment self) (vdecay self) (mdecay self)
    (use_position_regularization self) 0 1 (transform self)
    (Some (confidence self)).

(** [PositionOptions.resample]: the body assigns [new] and ends without a
    [return] statement, so the call evaluates to Python's [None]. *)
Definition resample (self : PositionOptions) (factor : Q)
  : option PositionOptions :=
  let new := resample_new self factor in
  None.

(** ** [check_allowed_positions] *)

(** [scan // 1] *)
Definition int_scan (scan : list Point) : list (Z * Z) :=
  map (fun p => (Qfloor (fst p), Qfloor (snd p))) scan.

Definition less_than_one (scan : list Point) : list (bool * bool) :=
  map (fun p => (fst p <? 1, snd p <? 1)%Z) (int_scan scan).

Definition greater_than_psi
  (scan : list Point) (psi : Psi) (probe_shape : nat * (Z * Z))
  : list (bool * bool) :=
  map (fun p =>
         (fst p >=? fst (shape2 psi) - fst (snd probe_shape),
          snd p >=? snd (shape2 psi) - snd (snd probe_shape))%Z)
      (int_scan scan).

(** [np.any] over an (N, 2) boolean array. *)
Definition any2 (l : list (bool * bool)) : bool :=
  existsb (fun b => fst b || snd b) l.

Definition check_allowed_positions
  (scan : list Point) (psi : Psi) (probe_shape : nat * (Z * Z))
  : Result unit :=
  if any2 (less_than_one scan) || any2 (greater_than_psi scan psi probe_shape)
  then Raise ValueError
  else Ok tt.

(** What the three comparisons above accept. *)
Definition allowed (psi : Psi) (ps : nat * (Z * Z)) (p : Point) : Prop :=
  1 <= fst p /\ 1 <= snd p /\
  fst p < inject_Z (fst (shape2 psi) - fst (snd ps)) /\
  snd p < inject_Z (snd (shape2 psi) - snd (snd ps)).

(** The invariant the docstring, the error message and the specification
    state: a margin of two pixels on every side. *)
Definition margin : Q := 2.

Definition within_margin
  (psi : Psi) (probe_shape : nat * (Z * Z)) (p : Point) : Prop :=
  margin <= fst p /\ margin <= snd p /\
  fst p + margin + inject_Z (fst (snd probe_shape))
    < inject_Z (fst (shape2 psi)) /\
  snd p + margin + inject_Z (snd (snd probe_shape))
    < inject_Z (snd (shape2 psi)).

(** ** [update_positions_pd] *)

(** [probe[..., m:m + 1, :, :]] *)
Definition probe_mode (probe : Probe) (m : nat) : Probe :=
  firstn 1 (skipn m probe).

Definition array_add (a b : list (list Q)) : list (list Q) :=
  map2 (map2 Qplus) a b.

(** [(f0 - f1) / dx] on complex arrays *)
Definition finite_difference (f0 f1 : list (list C)) (dx : Q)
  : list (list C) :=
  map2 (map2 (fun a b => Cdivr (Csub a b) dx)) f0 f1.

(** [2 * np.real(df * f.conj())] *)
Definition intensity_partial (df f : list (list C)) : list (list Q) :=
  map2 (map2 (fun a b => 2 * Cre (Cmul a (Cconj b)))) df f.

(** The accumulation [acc = 0; for m: acc += term m]: adding the first term
    to the scalar zero gives that term. *)
Definition accumulate (zero : list (list Q)) (terms : list (list (list Q)))
  : list (list Q) :=
  match terms with
  | [] => zero
  | t :: ts => fold_left array_add ts t
  end.

(** Steps 1 to 4: the gradient [grad] (N, 2). *)
Definition position_gradient
  (data : list (list Q)) (psi : Psi) (probe : Probe) (scan : list Point)
  (dx : Q) : list Point :=
  let intensity := fst (_compute_intensity data psi scan probe) in
  let dI := map2 (map2 Qminus) data intensity in
  let modes := seq 0 (fst (probe_shape probe)) in
  let farplane m := fwd psi scan (probe_mode probe m) in
  let dfarplane_dx m :=
    finite_difference (farplane m)
      (fwd psi (map (fun p => Padd p (0, dx)) scan) (probe_mode probe m))
      dx in
  let dfarplane_dy m :=
    finite_difference (farplane m)
      (fwd psi (map (fun p => Padd p (dx, 0)) scan) (probe_mode probe m))
      dx in
  let zero := map (map (fun _ => 0)) dI in
  let dI_dx :=
    accumulate zero
      (map (fun m => intensity_partial (dfarplane_dx m) (farplane m)) modes) in
  let dI_dy :=
    accumulate zero
      (map (fun m => intensity_partial (dfarplane_dy m) (farplane m)) modes) in
  map (fun n => lstsq (combine (nth n dI_dy []) (nth n dI_dx [])) (nth n dI []))
      (seq 0 (length scan)).

(** "Prevent position drift by keeping center of mass stationary" *)
Definition recenter (scan : list Point) (step : Q) (grad : list Point)
  : list Point :=
  let center0 := Pmean scan in
  let scan1 := map2 (fun p g => Psub p (Pscale step g)) scan grad in
  let center1 := Pmean scan1 in
  map (fun p => Padd p (Psub center0 center1)) scan1.

Definition update_positions_pd
  (data : list (list Q)) (psi : Psi) (probe : Probe) (scan : list Point)
  (dx step : Q) : Result (list Point * Q) :=
  let grad := position_gradient data psi probe scan dx in
  let scan' := recenter scan step grad in
  _ <- check_allowed_positions scan' psi (probe_shape probe) ;;
  Ok (scan', cost data psi scan' probe).

(** ** [affine_position_regularization] *)

Definition affine_position_regularization
  (psi : Psi) (probe : Probe) (original updated : list Point)
  (position_options : PositionOptions) (max_error : Q) : PositionOptions :=
  let X :=
    fst (estimate_global_transformation_ransac
           original updated (Some (WArray (confidence position_options)))
           (transform position_options) 3 max_error (3 # 4) 20) in
  mkPositionOptions
    (initial_scan position_options) (use_adaptive_moment position_options)
    (vdecay position_options) (mdecay position_options)
    (use_position_regularization position_options)
    (penalty_weight position_options) (penalty_variance position_options)
    X (confidence position_options) (_momentum position_options).

End WithCollaborators.

End Position.

(** * probe.py *)

Module Probe.

(** One probe image (WIDE, HIGH), complex. *)
Definition Field := list (list C).

Definition fscale (k : Q) (f : Field) : Field := map (map (Cscale k)) f.
Definition fdivr (f : Field) (k : Q) : Field := map (map (fun z => Cdivr z k)) f.
Definition fadd (f g : Field) : Field := map2 (map2 Cadd) f g.
Definition fmul (f g : Field) : Field := map2 (map2 Cmul) f g.
Definition fconj (f : Field) : Field := map (map Cconj) f.
Definition freal (f : Field) : list (list Q) := map (map Cre) f.
Definition Feq (f g : Field) : Prop := Forall2 (Forall2 Ceq) f g.

(** [np.mean(x, axis=(-2, -1))] of a real image. *)
Definition mean2 (x : list (list Q)) : Q := Qmean (concat x).

(** [weights] (POSI, EIGEN + 1, SHARED) and its entries. *)
Definition WeightArray := list (list (list Q)).

Definition entry (w : WeightArray) (n c s : nat) : Q :=
  nth s (nth c (nth n w []) []) 0.

(** [l[i] = x] inside a list that has index [i]. *)
Fixpoint set_nth {A} (i : nat) (x : A) (l : list A) : list A :=
  match l, i with
  | [], _ => []
  | _ :: t, O => x :: t
  | h :: t, S j => h :: set_nth j x t
  end.

(** ** [get_varying_probe] *)

(** [u[:m] += d] where [d] has [m] entries. *)
Definition add_prefix (u d : list Field) : list Field :=
  map2 fadd (firstn (length d) u) d ++ skipn (length d) u.

(** The shapes are: [shared_probe] (1, 1, SHARED, WIDE, HIGH) as the list of
    its SHARED images, [eigen_probe] (1, EIGEN, SHARED, WIDE, HIGH) as EIGEN
    lists of images, and the result (POSI, 1, SHARED, WIDE, HIGH) as one list
    of images per position.  Without weights the result is the copy of
    [shared_probe], whose position axis has length one. *)
Definition get_varying_probe
  (shared_probe : list Field) (eigen_probe : option (list (list Field)))
  (weights : option WeightArray) : list (list Field) :=
  match weights with
  | Some weights =>
      let unique_probe :=
        map (fun wn => map2 fscale (nth 0 wn []) shared_probe) weights in
      match eigen_probe with
      | Some eigen_probe =>
          let m := length (hd [] eigen_probe) in
          fold_left
            (fun unique_probe c =>
               map2 (fun un wn =>
                       add_prefix un
                         (map2 fscale (firstn m (nth (c + 1) wn []))
                                      (firstn m (nth c eigen_probe []))))
                    unique_probe weights)
            (seq 0 (length eigen_probe)) unique_probe
      | None => unique_probe
      end
  | None => [shared_probe]
  end.

(** What the specification promises when there is no eigen probe: the shared
    probe repeated at each of the N positions. *)
Definition broadcast_shared (N : nat) (shared_probe : list Field)
  : list (list Field) :=
  repeat shared_probe N.

(** ** Sorting primitives from the array library *)

(** Insertion into a list of (key, index) pairs kept ascending by key; the
    new pair goes before the first pair whose key is not smaller. *)
Fixpoint insert_key (x : Q * nat) (l : list (Q * nat)) : list (Q * nat) :=
  match l with
  | [] => [x]
  | y :: t => if Qle_bool (fst x) (fst y) then x :: y :: t
              else y :: insert_key x t
  end.

(** The order that a stable ascending sort of (key, index) pairs produces:
    by key, and by index among equal keys. *)
Definition key_before (x y : Q * nat) : Prop :=
  fst x < fst y \/ (fst x == fst y /\ (snd x < snd y)%nat).

Definition sort_keys (l : list (Q * nat)) : list (Q * nat) :=
  fold_right insert_key [] l.

(** [argsort(keys)]: the indices that sort [keys] ascending.  The array
    library sorts device arrays stably, which inserting the entries from the
    last to the first reproduces. *)
Definition argsort (keys : list Q) : list nat :=
  map snd (sort_keys (combine keys (seq 0 (length keys)))).

(** [np.sort] *)
Definition sort (l : list Q) : list Q :=
  map fst (sort_keys (map (fun q => (q, O)) l)).

(** [percentile(a, [95])] of a one-dimensional array, by linear
    interpolation between the two closest ranks: the virtual index is
    [95/100 * (n - 1)]. *)
Definition percentile95 (a : list Q) : Q :=
  let sorted := sort a in
  let h := (95 # 100) * (Qlen a - 1) in
  let lo := Z.to_nat (Qfloor h) in
  let frac := h - inject_Z (Qfloor h) in
  let below := nth lo sorted 0 in
  let above := nth (Nat.min (lo + 1) (length a - 1)) sorted 0 in
  below + frac * (above - below).

(** ** [constrain_variable_probe] *)

(** [tike.linalg.mnorm(x, axis=(-2, -1))] of one image and
    [tike.linalg.orthogonalize_gs(x, axis=(-2, -1), N=-4)] of the
    (EIGEN, SHARED) stack of images. *)
Class Linalg : Type := {
  mnorm : Field -> Q;
  orthogonalize_gs : list (list Field) -> list (list Field)
}.

(** [w[:m] *= v] *)
Definition scale_prefix (m : nat) (w v : list Q) : list Q :=
  map2 Qmult (firstn m w) v ++ skipn m w.

(** Modelled from the spec: [tike.linalg.norm] is not among the sources;
    [norm(x, axis)**2] is the squared norm, the sum of the squares along the
    axis. *)
Definition norm_sq (x : list Q) : Q := Qsum (map (fun q => q * q) x).

(** The column [weights[:, c, s]] along the position axis. *)
Definition column (w : WeightArray) (c s : nat) : list Q :=
  map (fun wn => nth s (nth c wn []) 0) w.

Section WithLinalg.

Context {linalg : Linalg}.

Definition _constrain_variable_probe1
  (variable_probe : list (list Field)) (weights : WeightArray)
  : list (list Field) * WeightArray * list (list Q) :=
  let vnorm := map (map mnorm) variable_probe in
  let variable_probe := map2 (map2 fdivr) variable_probe vnorm in
  let probes_with_modes := length (hd [] variable_probe) in
  let weights :=
    map (fun wn =>
           firstn 1 wn ++
           map2 (scale_prefix probes_with_modes) (skipn 1 wn) vnorm)
        weights in
  let variable_probe := orthogonalize_gs variable_probe in
  let power :=
    map (fun c =>
           map (fun s => norm_sq (column weights (c + 1) s))
               (seq 0 probes_with_modes))
        (seq 0 (length (skipn 1 (hd [] weights)))) in
  (variable_probe, weights, power).

End WithLinalg.

(** Modelled from the spec: the device pool is not among the sources;
    [comm.pool.allreduce(power)] sums the per-device arrays entry by entry
    ("reduce power by sum across all devices"). *)
Definition allreduce (power : list (list (list Q))) : list (list Q) :=
  match power with
  | [] => []
  | p :: ps => fold_left (map2 (map2 Qplus)) ps p
  end.

(** [power[..., i].flatten()] *)
Definition power_of_mode (power : list (list Q)) (i : nat) : list Q :=
  map (fun row => nth i row 0) power.

(** [argsort(-power[..., i].flatten())] *)
Definition sorted_of_mode (power : list (list Q)) (i : nat) : list nat :=
  argsort (map Qopp (power_of_mode power i)).

(** [weights[..., 1:, i] = weights[..., 1 + sorted, i]], at one position:
    row [1 + k] receives in column [i] what row [1 + sorted[k]] held. *)
Definition permute_row (sorted : list nat) (i : nat) (wn : list (list Q))
  : list (list Q) :=
  firstn 1 wn ++
  map2 (fun row k => set_nth i (nth i (nth (1 + k) wn []) 0) row)
       (skipn 1 wn) sorted.

Definition permute_weights (weights : WeightArray) (sorted : list nat)
  (i : nat) : WeightArray :=
  map (permute_row sorted i) weights.

(** [variable_probe[..., :, i, :, :] = variable_probe[..., sorted, i, :, :]] *)
Definition permute_probe (variable_probe : list (list Field))
  (sorted : list nat) (i : nat) : list (list Field) :=
  map2 (fun row k => set_nth i (nth i (nth k variable_probe []) []) row)
       variable_probe sorted.

(** The loop "Sort the probes by energy". *)
Definition sort_modes
  (variable_probe : list (list Field)) (weights : WeightArray)
  (power : list (list Q)) : list (list Field) * WeightArray :=
  let probes_with_modes := length (hd [] variable_probe) in
  fold_left
    (fun '(variable_probe, weights) i =>
       let sorted := sorted_of_mode power i in
       (permute_probe variable_probe sorted i,
        permute_weights weights sorted i))
    (seq 0 probes_with_modes) (variable_probe, weights).

(** Mode [a] goes before mode [b]: it has more power, or the same power
    and the smaller original index. *)
Definition precedes (power : list Q) (a b : nat) : Prop :=
  nth b power 0 < nth a power 0
  \/ (nth a power 0 == nth b power 0 /\ (a < b)%nat).

(** [sorted] lists the indices of [power] in descending order of power,
    ties in their original order. *)
Definition stable_descending (power : list Q) (sorted : list nat) : Prop :=
  Permutation sorted (seq 0 (length power))
  /\ forall k k', (k < k' < length sorted)%nat ->
       precedes power (nth k sorted O) (nth k' sorted O).

(** Shapes: the weights of one position (1 + E, S), the stack of eigen
    probes (E, M), and one device's arrays after phase 1, whose power is
    (E, M). *)
Definition row_shape (E S : nat) (wn : list (list Q)) : Prop :=
  length wn = (1 + E)%nat /\ Forall (fun row => length row = S) wn.

Definition stack_shape (E M : nat) (vp : list (list Field)) : Prop :=
  length vp = E /\ Forall (fun row => length row = M) vp.

Definition power_shape (E M : nat) (power : list (list Q)) : Prop :=
  length power = E /\ Forall (fun row => length row = M) power.

Definition well_shaped (E M S : nat)
  (r : list (list Field) * WeightArray * list (list Q)) : Prop :=
  stack_shape E M (fst (fst r))
  /\ Forall (row_shape E S) (snd (fst r))
  /\ power_shape E M (snd r).

(** The clip threshold of the column through [(c, s)]:
    [1.5 * percentile(aevol, [95], axis=[-3], keepdims=True)]. *)
Definition clip_level (weights : WeightArray) (c s : nat) : Q :=
  (3 # 2) * percentile95 (map Qabs (column weights c s)).

(** "Remove outliars from variable probe weights"; the unit axis that the
    percentile's [q] list puts in front of the result is dropped. *)
Definition clip_outliers (weights : WeightArray) : WeightArray :=
  map (fun wn =>
         map2 (fun row c =>
                 map2 (fun w s => Qmin (Qabs w) (clip_level weights c s) * Qsign w)
                      row (seq 0 (length row)))
              wn (seq 0 (length wn)))
      weights.

Definition _constrain_variable_probe2
  (variable_probe : list (list Field)) (weights : WeightArray)
  (power : list (list Q)) : list (list Field) * WeightArray :=
  let '(variable_probe, weights) := sort_modes variable_probe weights power in
  (variable_probe, clip_outliers weights).

Section WithLinalg2.

Context {linalg : Linalg}.

(** One entry of the lists per device. *)
Definition constrain_variable_probe
  (variable_probe : list (list (list Field))) (weights : list WeightArray)
  : list (list (list Field)) * list WeightArray :=
  let phase1 :=
    map2 _constrain_variable_probe1 variable_probe weights in
  let power := allreduce (map snd phase1) in
  let phase2 :=
    map (fun r => _constrain_variable_probe2 (fst (fst r)) (snd (fst r)) power)
        phase1 in
  (map fst phase2, map snd phase2).

End WithLinalg2.

(** ** [update_eigen_probe] *)

(** [weights[..., batch, c:c + 1, m:m + 1, None, None]]: one weight per
    position of the batch. *)
Definition batch_weights (weights : WeightArray) (batch : list nat)
  (c m : nat) : list Q :=
  map (fun n => entry weights n c m) batch.

(** [eigen_probe[..., c - 1:c, m:m + 1, :, :]], for [c >= 1]. *)
Definition eigen_slot (eigen_probe : list (list Field)) (c m : nat) : Field :=
  nth m (nth (c - 1) eigen_probe []) [].

Definition set_eigen_slot (eigen_probe : list (list Field)) (c m : nat)
  (f : Field) : list (list Field) :=
  set_nth (c - 1) (set_nth m f (nth (c - 1) eigen_probe [])) eigen_probe.

(** [np.mean(x, axis=-5, keepdims=True)] of a stack of images. *)
Definition field_mean (x : list Field) : Field :=
  match x with
  | [] => []
  | f :: fs => fdivr (fold_left fadd fs f) (Qlen x)
  end.

(** [R] holds one image per position of the batch. *)
Definition _get_update
  (R : list Field) (eigen_probe : list (list Field)) (weights : WeightArray)
  (batches : list (list nat)) (batch_index c m : nat) : Result Field :=
  let weights := batch_weights weights (nth batch_index batches []) c m in
  let eigen_probe := eigen_slot eigen_probe c m in
  let norm_weights := norm_sq weights in
  if Qeq_bool norm_weights 0 then Raise ValueError
  else
    let proj :=
      map2 (fun Rk wk =>
              map (map (fun x => (x + wk) / norm_weights))
                  (freal (fmul (fconj Rk) eigen_probe)))
           R weights in
    Ok (field_mean (map2 (fun Rk pk => fscale (mean2 pk) Rk) R proj)).

(** [weights[n, c, m] += u] *)
Definition add_entry (weights : WeightArray) (n c m : nat) (u : Q)
  : WeightArray :=
  let wn := nth n weights [] in
  let wc := nth c wn [] in
  set_nth n (set_nth c (set_nth m (nth m wc 0 + u) wc) wn) weights.

Section WithLinalg3.

Context {linalg : Linalg}.

(** A float division by zero leaves [inf] or [nan] in the quotient, which
    the assertion [np.all(np.isfinite(eigen_probe))] rejects: the model
    raises when a divisor is zero. *)
Definition _get_d
  (patches : list Field) (diff : list (list Field))
  (eigen_probe : list (list Field)) (update : Field) (β : Q) (c m : nat)
  : Result (list (list Field) * list Q * list Q * Q) :=
  let unorm := mnorm update in
  let slot := fadd (eigen_slot eigen_probe c m) (fdivr (fscale β update) unorm) in
  let snorm := mnorm slot in
  let slot := fdivr slot snorm in
  if Qeq_bool unorm 0 || Qeq_bool snorm 0 then Raise AssertionError
  else
    let eigen_probe := set_eigen_slot eigen_probe c m slot in
    let phi := map (fun p => fmul p slot) patches in
    let n :=
      map2 (fun dk phik => mean2 (freal (fmul (nth m dk []) (fconj phik))))
           diff phi in
    let d := map (fun phik => mean2 (map (map Cabs2) phik)) phi in
    let d_mean := Qmean d in
    Ok (eigen_probe, n, d, d_mean).

(** As in [_get_d], a zero divisor makes [weight_update] non-finite and the
    assertion fail. *)
Definition _get_weights_mean
  (n d : list Q) (d_mean : Q) (weights : WeightArray)
  (batches : list (list nat)) (batch_index c m : nat) : Result WeightArray :=
  let divisor := map (fun dk => dk + (1 # 10) * d_mean) d in
  let weight_update := map2 Qdiv n divisor in
  if existsb (fun x => Qeq_bool x 0) divisor then Raise AssertionError
  else
    Ok (fold_left (fun w nu => add_entry w (fst nu) c m (snd nu))
                  (combine (nth batch_index batches []) weight_update)
                  weights).

(** Modelled from the spec: the communicator is not among the sources;
    [comm.Allreduce_mean] is the mean over the devices ("cross-device
    mean-reduce"), and [pool.bcast] hands the one result to every device. *)
Definition Allreduce_mean_field (x : list Field) : Field := field_mean x.
Definition Allreduce_mean_scalar (x : list Q) : Q := Qmean x.

(** The shape assertions that the list model does not already enforce:
    as many images in [R[0]] as positions in the batch, and images of the
    size of the eigen probes. *)
Definition shapes_agree
  (R : list (list Field)) (eigen_probe : list (list (list Field)))
  (batches : list (list (list nat))) (batch_index : nat) : bool :=
  Nat.eqb (length (nth batch_index (hd [] batches) [])) (length (hd [] R))
  && Z.eqb (fst (Position.shape2 (hd [] (hd [] R))))
           (fst (Position.shape2 (hd [] (hd [] (hd [] eigen_probe)))))
  && Z.eqb (snd (Position.shape2 (hd [] (hd [] R))))
           (snd (Position.shape2 (hd [] (hd [] (hd [] eigen_probe))))).

(** Every array argument is a list with one entry per device. *)
Definition update_eigen_probe
  (R : list (list Field)) (eigen_probe : list (list (list Field)))
  (weights : list WeightArray) (patches : list (list Field))
  (diff : list (list (list Field))) (batches : list (list (list nat)))
  (batch_index : nat) (β : Q) (c m : nat)
  : Result (list (list (list Field)) * list WeightArray) :=
  if negb (shapes_agree R eigen_probe batches batch_index)
  then Raise AssertionError
  else
    update <-
      pool_map (fun a => _get_update (fst a) (fst (snd a)) (fst (snd (snd a)))
                           (snd (snd (snd a))) batch_index c m)
               (combine R (combine eigen_probe (combine weights batches))) ;;
    let update := Allreduce_mean_field update in
    r <-
      pool_map (fun a => _get_d (fst a) (fst (snd a)) (snd (snd a)) update β c m)
               (combine patches (combine diff eigen_probe)) ;;
    let eigen_probe := map (fun x => fst (fst (fst x))) r in
    let d_mean := Allreduce_mean_scalar (map snd r) in
    weights <-
      pool_map (fun a => _get_weights_mean
                           (snd (fst (fst (fst a)))) (snd (fst (fst a))) d_mean
                           (fst (snd a)) (snd (snd a)) batch_index c m)
               (combine r (combine weights batches)) ;;
    Ok (eigen_probe, weights).

(** All relevant weights of one device are zero. *)
Definition degenerate_batch (weights : WeightArray)
  (batches : list (list nat)) (batch_index c m : nat) : Prop :=
  Forall (fun w => w == 0)
         (batch_weights weights (nth batch_index batches []) c m).

End WithLinalg3.

End Probe.

(** * position.py: the remaining methods of [PositionOptions] *)

Module PositionMore.

Import Position.

(** The determinant of a 2x2 array. *)
Definition det (M : Matrix2) : Q := m00 M * m11 M - m01 M * m10 M.

(** A position that [check_allowed_positions] rejects. *)
Definition rejected (psi : Psi) (ps : nat * (Z * Z)) (p : Point) : Prop :=
  fst p < 1 \/ snd p < 1
  \/ inject_Z (fst (shape2 psi) - fst (snd ps)) <= fst p
  \/ inject_Z (snd (shape2 psi) - snd (snd ps)) <= snd p.

(** Exceptions raised by statements that the first part does not reach. *)
Inductive Error : Set :=
| Builtin (e : Exn)
| AttributeError
| RuntimeError.

Inductive Outcome (A : Type) : Type :=
| Returns (a : A)
| Throws (e : Error).
Arguments Returns {A} a.
Arguments Throws {A} e.

Definition and_then {A B} (r : Outcome A) (k : A -> Outcome B) : Outcome B :=
  match r with
  | Returns a => k a
  | Throws e => Throws e
  end.

(** One row of the momentum buffer: (vx, vy, mx, my). *)
Definition Row4 := (Q * Q * Q * Q)%type.

(** The attribute [self._momentum], read where the source reads it: after
    testing [self.use_adaptive_moment].  The attribute exists only when
    [__post_init__] (or a later method) created it. *)
Definition momentum_if_used (self : PositionOptions)
  : Outcome (option (list Row4)) :=
  if use_adaptive_moment self then
    match _momentum self with
    | Some m => Returns (Some m)
    | None => Throws AttributeError
    end
  else Returns None.

(** [x[..., indices, :]] with an integer index array, for indices below
    the number of rows; [d] stands for a row that does not exist, where the
    array library raises [IndexError]. *)
Definition take {A} (d : A) (x : list A) (indices : list nat) : list A :=
  map (fun i => nth i x d) indices.

(** [x[..., indices, :] = src], for indices below the number of rows and
    a source with one row per index: the rows are written in order, so that
    of two rows sent to the same index the later one stays.  Elsewhere the
    array library raises ([IndexError], or [ValueError] for a source of the
    wrong shape), where this writes the rows that have an index and a
    place. *)
Definition put {A} (x : list A) (indices : list nat) (src : list A) : list A :=
  fold_left (fun acc ix => Probe.set_nth (fst ix) (snd ix) acc)
            (combine indices src) x.

(** The attributes that a method leaves as they are, with new arrays. *)
Definition with_arrays (self : PositionOptions)
  (scan : list Point) (conf : list Q) (mom : option (list Row4))
  : PositionOptions :=
  mkPositionOptions scan (use_adaptive_moment self) (vdecay self)
    (mdecay self) (use_position_regularization self) (penalty_weight self)
    (penalty_variance self) (transform self) conf mom.

(** [PositionOptions.append]: the new positions get confidence 1 and zero
    momentum. *)
Definition append (self : PositionOptions) (new_scan : list Point)
  : Outcome PositionOptions :=
  let scan := initial_scan self ++ new_scan in
  let conf := confidence self ++ map (fun _ => 1) new_scan in
  and_then (momentum_if_used self) (fun mom =>
    Returns
      (with_arrays self scan conf
         (match mom with
          | Some m => Some (m ++ map (fun _ => (0, 0, 0, 0)) new_scan)
          | None => _momentum self
          end))).

(** [PositionOptions.empty]: [np.empty((0, 2))] and [np.empty((0, 4))] have
    no entries. *)
Definition empty (self : PositionOptions) : PositionOptions :=
  let new :=
    PositionOptions_init [] (use_adaptive_moment self) (vdecay self)
      (mdecay self) (use_position_regularization self) 0 1 (transform self)
      None in
  if use_adaptive_moment self
  then with_arrays new (initial_scan new) (confidence new) (Some [])
  else new.

(** [PositionOptions.split] *)
Definition split (self : PositionOptions) (indices : list nat)
  : Outcome PositionOptions :=
  let new :=
    PositionOptions_init (take (0, 0) (initial_scan self) indices)
      (use_adaptive_moment self) (vdecay self) (mdecay self)
      (use_position_regularization self) 0 1 (transform self) None in
  let new :=
    with_arrays new (initial_scan new) (take 0 (confidence self) indices)
      (_momentum new) in
  and_then (momentum_if_used self) (fun mom =>
    Returns
      (match mom with
       | Some m =>
           with_arrays new (initial_scan new) (confidence new)
             (Some (take (0, 0, 0, 0) m indices))
       | None => new
       end)).

(** [PositionOptions.insert]; [other._momentum] is read under the flag of
    [self]. *)
Definition insert (self other : PositionOptions) (indices : list nat)
  : Outcome PositionOptions :=
  let scan := put (initial_scan self) indices (initial_scan other) in
  let conf := put (confidence self) indices (confidence other) in
  and_then (momentum_if_used self) (fun mom =>
    match mom with
    | Some m =>
        match _momentum other with
        | Some m' => Returns (with_arrays self scan conf (Some (put m indices m')))
        | None => Throws AttributeError
        end
    | None => Returns (with_arrays self scan conf (_momentum self))
    end).

(** What [np.empty] leaves in row [i] of a fresh array: anything. *)
Class Uninitialized : Type := {
  empty_point : nat -> Point;
  empty_number : nat -> Q;
  empty_row4 : nat -> Row4
}.

Section WithUninitialized.

Context {uninitialized : Uninitialized}.

(** [new = np.empty(n); new[:len(old)] = old] for [len(old) <= n] *)
Definition grow {A} (fresh : nat -> A) (old : list A) (n : nat) : list A :=
  old ++ map fresh (seq (length old) (n - length old)).

(** [PositionOptions.join].  [indices.max()] of an empty index array raises
    [ValueError]. *)
Definition join (self other : PositionOptions) (indices : list nat)
  : Outcome PositionOptions :=
  match indices with
  | [] => Throws (Builtin ValueError)
  | _ =>
      let len_scan := length (initial_scan self) in
      let max_index := Nat.max (list_max indices + 1) len_scan in
      let scan :=
        put (grow empty_point (initial_scan self) max_index) indices
            (initial_scan other) in
      let conf :=
        put (grow empty_number (confidence self) max_index) indices
            (confidence other) in
      and_then (momentum_if_used self) (fun mom =>
        match mom with
        | Some m =>
            match _momentum other with
            | Some m' =>
                Returns (with_arrays self scan conf
                           (Some (put (grow empty_row4 m max_index) indices m')))
            | None => Throws AttributeError
            end
        | None => Returns (with_arrays self scan conf (_momentum self))
        end)
  end.

End WithUninitialized.

(** The properties [v] and [m]: columns 0:2 and 2:4 of the momentum. *)
Definition get_v (self : PositionOptions) : Outcome (list Point) :=
  match _momentum self with
  | Some mom => Returns (map (fun r => (fst (fst (fst r)), snd (fst (fst r)))) mom)
  | None => Throws AttributeError
  end.

Definition get_m (self : PositionOptions) : Outcome (list Point) :=
  match _momentum self with
  | Some mom => Returns (map (fun r => (snd (fst r), snd r)) mom)
  | None => Throws AttributeError
  end.

(** [self._momentum[..., 0:2] = x] and [self._momentum[..., 2:4] = x], for
    [x] with one row per position. *)
Definition set_v (self : PositionOptions) (x : list Point)
  : Outcome PositionOptions :=
  match _momentum self with
  | Some mom =>
      Returns
        (with_arrays self (initial_scan self) (confidence self)
           (Some (map2 (fun r p => (fst p, snd p, snd (fst r), snd r)) mom x)))
  | None => Throws AttributeError
  end.

Definition set_m (self : PositionOptions) (x : list Point)
  : Outcome PositionOptions :=
  match _momentum self with
  | Some mom =>
      Returns
        (with_arrays self (initial_scan self) (confidence self)
           (Some (map2 (fun r p =>
                          (fst (fst (fst r)), snd (fst (fst r)), fst p, snd p))
                       mom x)))
  | None => Throws AttributeError
  end.

(** The class invariant: confidence and momentum have one row per
    position, and the momentum exists exactly when it is used. *)
Definition aligned (p : PositionOptions) : Prop :=
  length (confidence p) = length (initial_scan p)
  /\ match _momentum p with
     | Some m => use_adaptive_moment p = true
                 /\ length m = length (initial_scan p)
     | None => use_adaptive_moment p = false
     end.

End PositionMore.

(** * solvers/options.py *)

Module SolverOptions.

Import Position PositionMore.

(** ** [PtychoParameters.__post_init__] *)

(** The arrays are typed: [scan] is a list of pairs, [probe] the list of its
    SHARED images (the two leading axes of length one are dropped) and [psi]
    a 2D array.  The tests on [ndim], on [scan.shape[1]] and on
    [probe.shape[:2]] therefore pass by construction, and the tests on the
    lengths remain. *)
Definition scan_shape_incorrect (scan : list Point) : bool :=
  (Z.of_nat (length scan) <? 1)%Z.

Definition probe_shape_incorrect (probe : Probe) : bool :=
  let ps := probe_shape probe in
  (Z.of_nat (fst ps) <? 1)%Z || (fst (snd ps) <? 1)%Z
  || (snd (snd ps) <? 1)%Z || negb (fst (snd ps) =? snd (snd ps))%Z.

Definition psi_shape_incorrect (psi : Psi) (probe : Probe) : bool :=
  let ps := probe_shape probe in
  (fst (shape2 psi) <=? fst (snd ps))%Z
  || (snd (shape2 psi) <=? snd (snd ps))%Z.

(** The validation of [PtychoParameters.__post_init__].  The default exit
    wave options that the method fills in afterwards are left out: they do
    not decide whether it raises. *)
Definition PtychoParameters_post_init
  (probe : Probe) (psi : Psi) (scan : list Point) : Result unit :=
  if scan_shape_incorrect scan then Raise ValueError
  else if probe_shape_incorrect probe then Raise ValueError
  else if psi_shape_incorrect psi probe then Raise ValueError
  else check_allowed_positions scan psi (probe_shape probe).

(** ** [crop_fourier_space] and [pad_fourier_space] *)

(** [np.r_[0:half0, (n - half1):n]], for [half1 <= n] *)
Definition corner_indices (n half0 half1 : nat) : list nat :=
  seq 0 half0 ++ seq (n - half1) half1.

(** [x.shape[-2] == x.shape[-1]] *)
Definition is_square {A} (x : list (list A)) : bool :=
  (fst (shape2 x) =? snd (shape2 x))%Z.

(** The index arrays select columns first, then rows.  [d] stands for an
    entry that does not exist; the source raises [IndexError] there. *)
Definition crop_fourier_space {A} (d : A) (x : list (list A)) (w : nat)
  : Result (list (list A)) :=
  if negb (is_square x) then Raise AssertionError
  else
    let half1 := (w / 2)%nat in
    let half0 := (w - half1)%nat in
    let columns := corner_indices (length (hd [] x)) half0 half1 in
    let rows := corner_indices (length x) half0 half1 in
    Ok (take [] (map (fun row => take d row columns) x) rows).

(** [new_x[..., rows, columns] = src]: row [a] of [src] goes to the columns
    [columns] of row [rows[a]]. *)
Definition assign_block {A} (new_x : list (list A)) (rows columns : list nat)
  (src : list (list A)) : list (list A) :=
  fold_left
    (fun acc rs =>
       Probe.set_nth (fst rs) (put (nth (fst rs) acc []) columns (snd rs)) acc)
    (combine rows src) new_x.

(** For [w >= x.shape[-1] >= 1].  When [half1] is zero, which is when [x]
    is 1x1, the slice [-half1:w] is the whole row axis and [x[-half1:]] is
    the whole of [x], whose one row is broadcast to the [w] rows. *)
Definition pad_fourier_space {A} (zero : A) (x : list (list A)) (w : nat)
  : Result (list (list A)) :=
  if negb (is_square x) then Raise AssertionError
  else
    let n := length (hd [] x) in
    let half1 := (n / 2)%nat in
    let half0 := (n - half1)%nat in
    let columns := corner_indices w half0 half1 in
    let new_x := repeat (repeat zero w) w in
    let new_x := assign_block new_x (seq 0 half0) columns (firstn half0 x) in
    let new_x :=
      if (half1 =? 0)%nat
      then assign_block new_x (seq 0 w) columns (repeat (hd [] x) w)
      else assign_block new_x (seq (w - half1) half1) columns
             (skipn (length x - half1) x) in
    Ok new_x.

End SolverOptions.

(** * probe.py: the remaining functions *)

Module ProbeMore.

Import Probe.

(** ** The formula of the module docstring *)

(** [weights[0] * probe + np.sum(weights[1:] * eigen_probes)] at position
    [n] for the shared probe [s]; only the probes below
    [eigen_probe.shape[-3]] have eigen probes.  The terms are added in the
    order of the loop. *)
Definition varying_formula
  (shared_probe : list Field) (eigen_probe : list (list Field))
  (weights : WeightArray) (n s : nat) : Field :=
  fold_left
    (fun acc c =>
       if (s <? length (hd [] eigen_probe))%nat
       then fadd acc (fscale (entry weights n (c + 1) s)
                             (nth s (nth c eigen_probe []) []))
       else acc)
    (seq 0 (length eigen_probe))
    (fscale (entry weights n 0 s) (nth s shared_probe [])).

(** The documented shapes: [shared_probe] has SHARED images, [eigen_probe]
    is (EIGEN, m) with [m <= SHARED], and [weights] is
    (POSI, EIGEN + 1, SHARED). *)
Definition varying_shapes
  (shared_probe : list Field) (eigen_probe : list (list Field))
  (weights : WeightArray) : Prop :=
  (length (hd [] eigen_probe) <= length shared_probe)%nat
  /\ Forall (fun e => length e = length (hd [] eigen_probe)) eigen_probe
  /\ Forall (fun wn =>
               length wn = (length eigen_probe + 1)%nat
               /\ Forall (fun row => length row = length shared_probe) wn)
            weights.

(** ** [init_varying_probe] *)

(** [np.random.rand(N, E, S)] and [tike.random.numpy_complex(E, M, W, H)]:
    arrays of the requested shape whose contents the program does not
    control. *)
Class Random : Type := {
  rand : nat -> nat -> nat -> WeightArray;
  numpy_complex : nat -> nat -> nat -> nat -> list (list Field)
}.

(** The shape (E, S) of the weights of one position, and the shape
    (N, E, S) of a weight array. *)
Definition position_shape (E S : nat) (wn : list (list Q)) : Prop :=
  length wn = E /\ Forall (fun row => length row = S) wn.

Definition weight_shape (N E S : nat) (w : WeightArray) : Prop :=
  length w = N /\ Forall (position_shape E S) w.

(** [weights -= np.mean(weights, axis=-3, keepdims=True)]: the mean is taken
    along the position axis. *)
Definition subtract_position_mean (w : WeightArray) : WeightArray :=
  map (fun wn =>
         map2 (fun row c =>
                 map2 (fun v s => v - Qmean (column w c s))
                      row (seq 0 (length row)))
              wn (seq 0 (length wn)))
      w.

(** [weights[..., 0, :] = 1.0] at one position *)
Definition set_first_row_one (wn : list (list Q)) : list (list Q) :=
  set_nth 0 (map (fun _ => 1) (nth 0 wn [])) wn.

(** [weights[..., 1:, probes_with_modes:] = 0] at one position *)
Definition clear_unused (probes_with_modes : nat) (wn : list (list Q))
  : list (list Q) :=
  firstn 1 wn
  ++ map (fun row => firstn probes_with_modes row
                     ++ map (fun _ => 0) (skipn probes_with_modes row))
         (skipn 1 wn).

Section WithRandom.

Context {random : Random} {linalg : Linalg}.

(** The result is the pair (eigen_probe, weights), [None] standing for
    Python's [None].  A random image of norm zero would be divided by zero
    without an exception. *)
Definition init_varying_probe
  (scan : list Point) (shared_probe : list Field)
  (num_eigen_probes probes_with_modes : Z)
  : Result (option (list (list Field)) * option WeightArray) :=
  let probes_with_modes := Z.max probes_with_modes 0 in
  if (probes_with_modes >? Z.of_nat (length shared_probe))%Z
  then Raise ValueError
  else if (num_eigen_probes <? 1)%Z then Ok (None, None)
  else
    let weights :=
      map (map (map (Qmult (1 # 1000000))))
          (rand (length scan) (Z.to_nat num_eigen_probes)
                (length shared_probe)) in
    let weights := subtract_position_mean weights in
    let weights := map set_first_row_one weights in
    let weights := map (clear_unused (Z.to_nat probes_with_modes)) weights in
    if (num_eigen_probes =? 1)%Z then Ok (None, Some weights)
    else
      let eigen_probe :=
        numpy_complex (Z.to_nat (num_eigen_probes - 1))
          (Z.to_nat probes_with_modes)
          (length (hd [] shared_probe))
          (length (hd [] (hd [] shared_probe))) in
      let eigen_probe :=
        map (map (fun f => fdivr f (mnorm f))) eigen_probe in
      Ok (Some eigen_probe, Some weights).

End WithRandom.

(** ** [rescale_probe_using_fixed_intensity_photons] and
    [adjust_probe_power] *)

(** [cp.sum(np.abs(probe)**2, (-1, -2))] of one image *)
Definition photons (f : Field) : Q := Qsum (map Cabs2 (concat f)).

(** [tike.linalg.norm(x, axis=(-2, -1))] and
    [tike.linalg.inner(x, y, axis=(-2, -1))] of images, and [np.exp] on
    real numbers. *)
Class Norms : Type := {
  norm : Field -> Q;
  inner : Field -> Field -> C;
  exp : Q -> Q
}.

(** [probe * k[..., None, None]]: one factor per probe *)
Definition scale_each (probe : list Field) (k : list Q) : list Field :=
  map2 (fun f k => fscale k f) probe k.

(** [probe_power_fraction], or [probe_photons / cp.sum(probe_photons)] when
    it is None *)
Definition power_fraction_or_default
  (probe_photons : list Q) (probe_power_fraction : option (list Q))
  : list Q :=
  match probe_power_fraction with
  | Some fraction => fraction
  | None => map (fun ph => ph / Qsum probe_photons) probe_photons
  end.

Section WithNumpy.

Context {numpy : Position.Numpy} {norms : Norms}.

(** A probe without photons would be divided by zero, without an
    exception. *)
Definition rescale_probe_using_fixed_intensity_photons
  (probe : list Field) (Nphotons : Q) (probe_power_fraction : option (list Q))
  : list Field :=
  let probe_photons := map photons probe in
  let probe_power_fraction :=
    power_fraction_or_default probe_photons probe_power_fraction in
  scale_each probe
    (map2 (fun fr ph => Position.sqrt (fr * Nphotons / ph))
          probe_power_fraction probe_photons).

(** What the rescaling needs of a probe and its fraction: the probe has
    photons, and the square root is exact where it is taken. *)
Definition rescalable (Nphotons : Q) (f : Field) (fr : Q) : Prop :=
  ~ photons f == 0
  /\ Position.sqrt (fr * Nphotons / photons f)
     * Position.sqrt (fr * Nphotons / photons f)
     == fr * Nphotons / photons f.

(** [norm[..., 0:1, :, :]] is the norm of the first probe. *)
Definition adjust_probe_power (probe : list Field) (power : option (list Q))
  : list Field :=
  let power :=
    match power with
    | Some power => power
    | None => map (fun m => 1 / inject_Z (Z.of_nat m)) (seq 1 (length probe))
    end in
  let norm_ := map norm probe in
  scale_each probe
    (map2 (fun pw n => pw * nth 0 norm_ 0 / n) power norm_).

(** ** [gaussian] *)

(** [rs.max()] of an array that has entries *)
Definition Qmaximum (l : list Q) : Q := fold_left Qmax (tl l) (hd 0 l).

(** The three masked assignments on one pixel; a later one overwrites an
    earlier one. *)
Definition gaussian_pixel (rmin rmax rs : Q) : Q :=
  let img := 0 in
  let img := if Qltb rs rmin then 1 else img in
  let img := if Qltb rmax rs then 0 else img in
  if Qltb rmin rs && Qltb rs rmax
  then (rmax - rs) / (rmax - rmin)
  else img.

(** [rs.max()] of an empty array raises [ValueError]. *)
Definition gaussian (size : nat) (rin rout : Q) : Result (list (list Q)) :=
  let centre := fun i => inject_Z (Z.of_nat i) + (1 # 2) in
  let half := inject_Z (Z.of_nat size) / 2 in
  let rs :=
    map (fun i =>
           map (fun j =>
                  Position.sqrt ((centre i - half) * (centre i - half)
                                 + (centre j - half) * (centre j - half)))
               (seq 0 size))
        (seq 0 size) in
  match concat rs with
  | [] => Raise ValueError
  | _ =>
      let rs_max := Qmaximum (concat rs) in
      let rmax := Position.sqrt 2 * (1 # 2) * rout * rs_max + 1 in
      let rmin := Position.sqrt 2 * (1 # 2) * rin * rs_max in
      Ok (map (map (gaussian_pixel rmin rmax)) rs)
  end.

End WithNumpy.

(** ** [constrain_center_peak] *)

(** [cupyx.scipy.ndimage.gaussian_filter(input, sigma, mode='wrap')] *)
Class Ndimage : Type := {
  gaussian_filter : list (list Q) -> nat * nat -> list (list Q)
}.

(** [np.argmax]: the first index of the largest entry. *)
Fixpoint argmax_from (best : Q) (best_index index : nat) (l : list Q) : nat :=
  match l with
  | [] => best_index
  | x :: t =>
      if Qltb best x then argmax_from x index (S index) t
      else argmax_from best best_index (S index) t
  end.

Definition argmax (l : list Q) : nat :=
  match l with
  | [] => 0%nat
  | x :: t => argmax_from x 0 1 t
  end.

(** [cp.unravel_index(index, dims)] for two dimensions *)
Definition unravel_index (index : nat) (dims : nat * nat) : nat * nat :=
  ((index / snd dims)%nat, (index mod snd dims)%nat).

(** [np.roll(x, shift)] along one axis: the entry at [i] moves to
    [(i + shift) mod n]. *)
Definition roll {A} (shift : Z) (l : list A) : list A :=
  match l with
  | [] => []
  | _ =>
      let k := Z.to_nat (shift mod Z.of_nat (length l)) in
      skipn (length l - k) l ++ firstn (length l - k) l
  end.

(** [np.sum(np.square(np.abs(stack)), axis=0)] of a stack that has
    images *)
Definition total_intensity (stack : list Field) : list (list Q) :=
  match map (map (map Cabs2)) stack with
  | [] => []
  | first :: others => fold_left (map2 (map2 Qplus)) others first
  end.

Section WithNdimage.

Context {ndimage : Ndimage}.

(** Where the smoothed intensity is largest. *)
Definition peak_coords (probe : list Field) : nat * nat :=
  let shape := (length (hd [] probe), length (hd [] (hd [] probe))) in
  let half := ((fst shape / 2)%nat, (snd shape / 2)%nat) in
  let intensity := gaussian_filter (total_intensity probe) half in
  unravel_index (argmax (concat intensity)) shape.

(** The probe is the stack of its images. *)
Definition constrain_center_peak (probe : list Field) : list Field :=
  let shape := (length (hd [] probe), length (hd [] (hd [] probe))) in
  let half := ((fst shape / 2)%nat, (snd shape / 2)%nat) in
  let coords := peak_coords probe in
  let p :=
    map (roll (Z.of_nat (fst half) - Z.of_nat (fst coords))) probe in
  map (map (roll (Z.of_nat (snd half) - Z.of_nat (snd coords)))) p.

End WithNdimage.

(** ** [add_modes_random_phase] *)

(** The [k]-th draw of [np.random.rand(2, 1)], and [np.exp(-2j * np.pi * t)]
    for a real [t]. *)
Class Phases : Type := {
  rand2 : nat -> Q * Q;
  cexp : Q -> C
}.

Section WithPhases.

Context {phases : Phases}.

(** One row of [shift]: the draw [r] against the pixel centres. *)
Definition shift_row (r : Q) (pw : nat) : list C :=
  map (fun a =>
         cexp ((r - (1 # 2))
               * ((inject_Z (Z.of_nat a) + (1 # 2)) / inject_Z (Z.of_nat pw)
                  - (1 # 2))))
      (seq 0 pw).

(** [image * shift[0][None] * shift[1][:, None]] *)
Definition phase_shifted (image : Field) (shift0 shift1 : list C) : Field :=
  map2 (fun row s1 => map2 (fun z s0 => Cmul (Cmul z s0) s1) row shift0)
       image shift1.

Definition add_modes_random_phase (probe : list Field) (nmodes : nat)
  : list Field :=
  let pw := length (hd [] (hd [] probe)) in
  map (fun m =>
         if (m <? length probe)%nat then nth m probe []
         else
           let r := rand2 (m - length probe) in
           phase_shifted (nth 0 probe [])
             (shift_row (fst r) pw) (shift_row (snd r) pw))
      (seq 0 nmodes).

End WithPhases.

(** ** [add_modes_cartesian_hermite] *)

(** An image times a real image, and an image of real numbers as a
    complex one. *)
Definition fmul_real (w : list (list Q)) (f : Field) : Field :=
  map2 (map2 Cscale) w f.

(** [np.sum(w * np.abs(probe)**2, axis=(-2, -1))] *)
Definition weighted_intensity (w : list (list Q)) (f : Field) : Q :=
  Qsum (concat (map2 (map2 (fun a z => a * Cabs2 z)) w f)).

Section WithNorms.

Context {numpy : Position.Numpy} {norms : Norms}.

(** One pass of the inner loop body: the basis for [(mii, nii)] made
    orthogonal to the probes found so far and normalised. *)
Definition hermite_basis
  (probe : Field) (X Y : list (list Q)) (cenx ceny varx vary : Q)
  (mii nii : nat) (new_probes : list Field) : Field :=
  let dx := map (map (fun x => x - cenx)) X in
  let dy := map (map (fun y => y - ceny)) Y in
  let basis :=
    fmul_real
      (map2 (map2 Qmult)
         (map (map (fun x => Qpower x (Z.of_nat mii))) dx)
         (map (map (fun y => Qpower y (Z.of_nat nii))) dy))
      probe in
  let basis :=
    if ((mii =? 0) && (nii =? 0))%nat then basis
    else
      fmul_real
        (map2 (map2 (fun x y =>
                       exp (- (x * x / (2 * varx)) - (y * y / (2 * vary)))))
              dx dy)
        basis in
  let basis := fdivr basis (norm basis) in
  let basis :=
    fold_left
      (fun basis H =>
         map2 (map2 Csub) basis
              (map (map (fun h => Cmul h (inner H basis))) H))
      new_probes basis in
  fdivr basis (norm basis).

(** The two loops from the point where [new_probes] has been collected:
    the pairs [(nii, mii)] still to visit, in the order of the loops.
    Running out of pairs is the [RuntimeError] after the loops. *)
Fixpoint hermite_loop
  (probe : Field) (X Y : list (list Q)) (cenx ceny varx vary : Q)
  (nmodes : nat) (pairs : list (nat * nat)) (new_probes : list Field)
  : PositionMore.Outcome (list Field) :=
  match pairs with
  | [] => PositionMore.Throws PositionMore.RuntimeError
  | (nii, mii) :: rest =>
      let basis :=
        hermite_basis probe X Y cenx ceny varx vary mii nii new_probes in
      let new_probes := new_probes ++ [basis] in
      if (length new_probes =? nmodes)%nat
      then PositionMore.Returns (firstn nmodes new_probes)
      else hermite_loop probe X Y cenx ceny varx vary nmodes rest new_probes
  end.

(** [for nii in range(N): for mii in range(M)] *)
Definition loop_pairs (N M : nat) : list (nat * nat) :=
  flat_map (fun nii => map (fun mii => (nii, mii)) (seq 0 M)) (seq 0 N).

(** The probe is the one image of the (..., 1, WIDTH, HEIGHT) array, so
    the test on [probe.ndim] passes.  A probe without photons, or of
    variance zero, gives divisions by zero, without an exception. *)
Definition add_modes_cartesian_hermite (probe : Field) (nmodes : Z)
  : PositionMore.Outcome (list Field) :=
  if (nmodes <? 1)%Z
  then PositionMore.Throws (PositionMore.Builtin ValueError)
  else
    let M := Qceiling (Position.sqrt (inject_Z nmodes)) in
    let N := Qceiling (inject_Z nmodes / inject_Z M) in
    let width := length probe in
    let height := length (hd [] probe) in
    let offset := (Z.of_nat width / 2 - 1)%Z in
    let xs := map (fun i => inject_Z (Z.of_nat i - offset)) (seq 0 width) in
    let ys := map (fun i => inject_Z (Z.of_nat i - offset)) (seq 0 height) in
    let X := map (fun _ => xs) ys in
    let Y := map (fun y => map (fun _ => y) xs) ys in
    let total := photons probe in
    let cenx := weighted_intensity X probe / total in
    let ceny := weighted_intensity Y probe / total in
    let varx :=
      weighted_intensity
        (map (map (fun x => (x - cenx) * (x - cenx))) X) probe / total in
    let vary :=
      weighted_intensity
        (map (map (fun y => (y - ceny) * (y - ceny))) Y) probe / total in
    hermite_loop probe X Y cenx ceny varx vary (Z.to_nat nmodes)
      (loop_pairs (Z.to_nat N) (Z.to_nat M)) [].

End WithNorms.

(** ** [orthogonalize_eig] *)

(** [xp.linalg.eigh(A, UPLO='U')]: the eigenvalues and the eigenvectors,
    from the entries of [A] on and above the diagonal. *)
Class Eigh : Type := {
  eigh : list (list (option C)) -> list Q * list (list C)
}.

Definition Csum (l : list C) : C := fold_right Cadd (0, 0) l.

(** [A[..., i, j]] for [j >= i]; the entries below the diagonal are those
    of [xp.empty_like] and stay unset. *)
Definition pairwise_dot (x : list Field) : list (list (option C)) :=
  map (fun i =>
         map (fun j =>
                if (j <? i)%nat then None
                else Some (Csum (map2 (fun a b => Cmul (Cconj a) b)
                                      (concat (nth i x []))
                                      (concat (nth j x [])))))
             (seq 0 (length x)))
      (seq 0 (length x)).

(** [(vectors.swapaxes(-1, -2) @ x.reshape(nmodes, -1)).reshape(x.shape)]:
    mode [k] is the sum over [i] of [vectors[i][k] * x[i]]. *)
Definition rotate_modes (vectors : list (list C)) (x : list Field)
  : list Field :=
  map (fun k =>
         map2 (fun row a =>
                 map2 (fun _ b =>
                         Csum (map (fun i =>
                                      Cmul (nth k (nth i vectors []) (0, 0))
                                           (nth b (nth a (nth i x []) [])
                                                (0, 0)))
                                   (seq 0 (length x))))
                      row (seq 0 (length row)))
              (hd [] x) (seq 0 (length (hd [] x))))
      (seq 0 (length x)).

Section WithEigh.

Context {eigh_ : Eigh} {norms : Norms}.

(** The modes after the rotation and their power, before they are put in
    order. *)
Definition rotated (x : list Field) : list Field :=
  rotate_modes (snd (eigh (pairwise_dot x))) x.

Definition rotated_power (x : list Field) : list Q :=
  map (fun r => norm r * norm r) (rotated x).

(** [np.argsort(power, axis=None, kind='stable')[::-1]] *)
Definition descending_order (x : list Field) : list nat :=
  rev (argsort (rotated_power x)).

Definition orthogonalize_eig (x : list Field) : list Field * list Q :=
  let result := rotated x in
  let power := rotated_power x in
  let order := descending_order x in
  (PositionMore.take [] result order, PositionMore.take 0 power order).

End WithEigh.

End ProbeMore.

(** * solvers/options.py: [PtychoParameters.resample] and what it calls *)

Module Resample.

Import Position PositionMore SolverOptions.

(** [ProbeOptions] of probe.py; [None] for [probe_photons] stands for its
    default, which is not a number. *)
Record ProbeOptions : Type := mkProbeOptions {
  recover_probe : bool;
  update_start : Z;
  update_period : Z;
  init_rescale_from_measurements : bool;
  probe_photons : option Q;
  force_orthogonality : bool;
  force_centered_intensity : bool;
  force_sparsity : Q;
  probe_use_adaptive_moment : bool;
  probe_vdecay : Q;
  probe_mdecay : Q;
  v : option (list Probe.Field);
  m : option (list Probe.Field);
  probe_support : Q;
  probe_support_radius : Q;
  probe_support_degree : Q;
  additional_probe_penalty : Q;
  probe_update_sum : option (list Probe.Field);
  preconditioner : option (list Probe.Field);
  power : list (list Q)
}.

(** [ProbeOptions.resample]: the constructor is called with fourteen of
    the settings; the fields it is not given take their defaults. *)
Definition ProbeOptions_resample (self : ProbeOptions) : ProbeOptions :=
  let options :=
    mkProbeOptions
      (recover_probe self) (update_start self) (update_period self)
      (init_rescale_from_measurements self) (probe_photons self)
      (force_orthogonality self) (force_centered_intensity self)
      (force_sparsity self) (probe_use_adaptive_moment self)
      (probe_vdecay self) (probe_mdecay self)
      None None
      (probe_support self) (probe_support_radius self)
      (probe_support_degree self)
      0
      None None [] in
  options.

Section WithResize.

(** The classes that are defined elsewhere. *)
Variables AlgorithmOptions ObjectOptions ExitWaveOptions : Type.

(** [np.fft.fft2] and [np.fft.ifft2] with [norm='ortho'] on one image,
    [scipy.ndimage.zoom] as [_resize_spline] calls it, the methods
    [resample] of the classes defined elsewhere, and
    [ExitWaveOptions(measured_pixels=np.ones(shape, dtype=np.bool_))]. *)
Class Resize : Type := {
  fft2 : Probe.Field -> Probe.Field;
  ifft2 : Probe.Field -> Probe.Field;
  _resize_spline : Psi -> Q -> Psi;
  ObjectOptions_resample :
    ObjectOptions -> Q -> (Probe.Field -> Q -> Result Probe.Field)
    -> ObjectOptions;
  ExitWaveOptions_resample : ExitWaveOptions -> Q -> ExitWaveOptions;
  ExitWaveOptions_measured_pixels : list (list bool) -> ExitWaveOptions
}.

Context {resize : Resize}.

(** [_resize_fft] on one image, for a factor that is not negative. *)
Definition _resize_fft (x : Probe.Field) (f : Q) : Result Probe.Field :=
  if Qeq_bool f 1 then Ok x
  else
    let crop_or_pad :=
      if Qltb f 1 then crop_fourier_space (0, 0)
      else pad_fourier_space (0, 0) in
    let w := Z.to_nat (Qfloor (inject_Z (Z.of_nat (length (hd [] x))) * f)) in
    y <- crop_or_pad (fft2 x) w ;;
    Ok (ifft2 y).

Record PtychoParameters : Type := mkPtychoParameters {
  probe : Probe;
  psi : Psi;
  scan : list Point;
  eigen_probe : option (list (list Probe.Field));
  eigen_weights : option Probe.WeightArray;
  algorithm_options : AlgorithmOptions;
  exitwave_options : option ExitWaveOptions;
  probe_options : option ProbeOptions;
  object_options : option ObjectOptions;
  position_options : option PositionOptions
}.

(** The constructor: the fields, then [__post_init__], which validates
    them and fills in the default exit wave options. *)
Definition PtychoParameters_init
  (probe : Probe) (psi : Psi) (scan : list Point)
  (eigen_probe : option (list (list Probe.Field)))
  (eigen_weights : option Probe.WeightArray)
  (algorithm_options : AlgorithmOptions)
  (exitwave_options : option ExitWaveOptions)
  (probe_options : option ProbeOptions)
  (object_options : option ObjectOptions)
  (position_options : option PositionOptions)
  : Result PtychoParameters :=
  _ <- PtychoParameters_post_init probe psi scan ;;
  let exitwave_options :=
    match exitwave_options with
    | Some e => Some e
    | None =>
        Some (ExitWaveOptions_measured_pixels
                (map (map (fun _ => true)) (hd [] probe)))
    end in
  Ok (mkPtychoParameters probe psi scan eigen_probe eigen_weights
        algorithm_options exitwave_options probe_options object_options
        position_options).

(** [x.resample(...) if x is not None else None] *)
Definition if_not_None {A B} (x : option A) (f : A -> B) : option B :=
  match x with
  | Some a => Some (f a)
  | None => None
  end.

(** [PtychoParameters.resample].  The keyword arguments are evaluated in
    the order in which they are written. *)
Definition PtychoParameters_resample
  (self : PtychoParameters) (factor : Q)
  (interp : option (Probe.Field -> Q -> Result Probe.Field))
  : Result PtychoParameters :=
  let interp :=
    match interp with
    | None => _resize_fft
    | Some interp => interp
    end in
  new_probe <- pool_map (fun x => interp x factor) (probe self) ;;
  let new_psi := _resize_spline (psi self) factor in
  let new_scan := map (fun p => Pscale factor p) (scan self) in
  new_eigen_probe <-
    match eigen_probe self with
    | Some e =>
        e' <- pool_map (pool_map (fun x => interp x factor)) e ;; Ok (Some e')
    | None => Ok None
    end ;;
  let new_probe_options :=
    if_not_None (probe_options self) ProbeOptions_resample in
  let new_object_options :=
    if_not_None (object_options self)
      (fun o => ObjectOptions_resample o factor interp) in
  let new_position_options :=
    match position_options self with
    | Some p => resample p factor
    | None => None
    end in
  let new_exitwave_options :=
    if_not_None (exitwave_options self)
      (fun e => ExitWaveOptions_resample e factor) in
  PtychoParameters_init new_probe new_psi new_scan new_eigen_probe
    (eigen_weights self) (algorithm_options self) new_exitwave_options
    new_probe_options new_object_options new_position_options.

End WithResize.

End Resample.

(** * communicators/stream.py *)

Module Stream.

Inductive Failure : Set := ZeroDivisionError | IndexError.

Inductive Outcome (A : Type) : Type :=
| Done (a : A)
| Fails (e : Failure).
Arguments Done {A} a.
Arguments Fails {A} e.

Section StreamAndReduce.

(** The rows of the argument arrays, and the arrays that [f] returns with
    their addition and the array of zeros, which adds nothing. *)
Variables Row Y : Type.
Variable add : Y -> Y -> Y.
Variable zero : Y.

(** [x[indices_chunk]]: an index outside of [x] raises [IndexError]. *)
Fixpoint gather (x : list Row) (indices : list nat) : option (list Row) :=
  match indices with
  | [] => Some []
  | i :: rest =>
      match nth_error x i, gather x rest with
      | Some r, Some rs => Some (r :: rs)
      | _, _ => None
      end
  end.

Fixpoint gather_all (args : list (list Row)) (indices : list nat)
  : option (list (list Row)) :=
  match args with
  | [] => Some []
  | x :: rest =>
      match gather x indices, gather_all rest indices with
      | Some c, Some cs => Some (c :: cs)
      | _, _ => None
      end
  end.

(** [x_gpu[buflo:bufhi] = chunk] and [x_gpu[buflo:bufhi]] *)
Definition write_slice (x_gpu : list Row) (buflo : nat) (chunk : list Row)
  : list Row :=
  firstn buflo x_gpu ++ chunk ++ skipn (buflo + length chunk) x_gpu.

Definition read_slice (x_gpu : list Row) (buflo bufhi : nat) : list Row :=
  firstn (bufhi - buflo) (skipn buflo x_gpu).

(** [y_sum[stream_index] += y] *)
Definition accumulate (stream_index : nat) (y_sum : list Y) (y : Y) : list Y :=
  Probe.set_nth stream_index (add (nth stream_index y_sum zero) y) y_sum.

(** [math.ceil(N / chunk_size)] for a chunk size that is not zero *)
Definition ceil_div (N chunk_size : nat) : nat :=
  ((N + chunk_size - 1) / chunk_size)%nat.

Record Buffers : Type := mkBuffers {
  args_gpu : list (list Row);
  y_sums : list (list Y)
}.

(** One pass of the loop, for the [s]-th chunk. *)
Definition stream_step
  (f : list (list Row) -> list Y) (args : list (list Row))
  (indices : list nat) (chunk_size num_streams : nat)
  (state : Outcome Buffers) (s : nat) : Outcome Buffers :=
  match state with
  | Fails e => Fails e
  | Done b =>
      let i := (s * chunk_size)%nat in
      let stream_index := (s mod num_streams)%nat in
      let indices_chunk := firstn chunk_size (skipn i indices) in
      let buflo := (stream_index * chunk_size)%nat in
      let bufhi := (buflo + length indices_chunk)%nat in
      match gather_all args indices_chunk with
      | None => Fails IndexError
      | Some chunks =>
          let args_gpu := map2 (fun x_gpu c => write_slice x_gpu buflo c)
                               (args_gpu b) chunks in
          let results :=
            f (map (fun x_gpu => read_slice x_gpu buflo bufhi) args_gpu) in
          Done (mkBuffers args_gpu
                  (map2 (accumulate stream_index) (y_sums b) results))
      end
  end.

(** [stream_and_reduce].  [empty i] is what [cp.empty_like] leaves in row
    [i] of a buffer, [outputs] the number of arrays that [f] returns,
    [streams] the number of streams, and [indices] the index list, or
    None. *)
Definition stream_and_reduce
  (f : list (list Row) -> list Y) (args : list (list Row))
  (empty : nat -> Row) (outputs : nat) (streams : nat)
  (indices : option (list nat)) : Outcome (list Y) :=
  match
    match indices with
    | None =>
        match args with
        | [] => Fails IndexError
        | x :: _ => Done (seq 0 (length x))
        end
    | Some indices => Done indices
    end
  with
  | Fails e => Fails e
  | Done indices =>
      let N := length indices in
      let chunk_size := Nat.min 64 N in
      if (chunk_size =? 0)%nat then Fails ZeroDivisionError
      else
        let num_streams := Nat.min streams (ceil_div N chunk_size) in
        let buffers :=
          mkBuffers
            (map (fun _ => map empty (seq 0 (num_streams * chunk_size))) args)
                    (repeat (repeat zero num_streams) outputs) in
        if (num_streams =? 0)%nat then Fails ZeroDivisionError
        else
          match
            fold_left (stream_step f args indices chunk_size num_streams)
                      (seq 0 (ceil_div N chunk_size)) (Done buffers)
          with
          | Fails e => Fails e
          | Done b => Done (map (fun y_sum => fold_left add y_sum zero)
                                (y_sums b))
          end
  end.

(** The sum that the docstring promises, chunk by chunk: [f] of the rows
    of each chunk of at most 64 indices, added up in the order of the
    chunks. *)
Definition chunk_outputs
  (f : list (list Row) -> list Y) (args : list (list Row))
  (indices : list nat) (chunk_size : nat) (s : nat) : list Y :=
  match gather_all args (firstn chunk_size (skipn (s * chunk_size) indices))
  with
  | Some chunks => f chunks
  | None => []
  end.

Definition sum_of_chunks
  (f : list (list Row) -> list Y) (args : list (list Row))
  (indices : list nat) (outputs : nat) : list Y :=
  let chunk_size := Nat.min 64 (length indices) in
  fold_left (map2 add)
    (map (chunk_outputs f args indices chunk_size)
         (seq 0 (ceil_div (length indices) chunk_size)))
    (repeat zero outputs).

End StreamAndReduce.

End Stream.

(** * operators/cupy/bucket.py: the functions written in Python *)

Module Bucket.

(** Vectors of three numbers and 3 x 3 arrays as their rows. *)
Definition Vec3 := (Q * Q * Q)%type.
Definition Mat3 := (Vec3 * Vec3 * Vec3)%type.

Definition x0 (v : Vec3) : Q := fst (fst v).
Definition x1 (v : Vec3) : Q := snd (fst v).
Definition x2 (v : Vec3) : Q := snd v.

Definition row0 (M : Mat3) : Vec3 := fst (fst M).
Definition row1 (M : Mat3) : Vec3 := snd (fst M).
Definition row2 (M : Mat3) : Vec3 := snd M.

(** [cp.sum(a * b)] *)
Definition dot (a b : Vec3) : Q := x0 a * x0 b + x1 a * x1 b + x2 a * x2 b.

(** [M @ v] and [M.T] *)
Definition matvec (M : Mat3) (v : Vec3) : Vec3 :=
  (dot (row0 M) v, dot (row1 M) v, dot (row2 M) v).

Definition transpose (M : Mat3) : Mat3 :=
  ((x0 (row0 M), x0 (row1 M), x0 (row2 M)),
   (x1 (row0 M), x1 (row1 M), x1 (row2 M)),
   (x2 (row0 M), x2 (row1 M), x2 (row2 M))).

Definition Veq (a b : Vec3) : Prop :=
  x0 a == x0 b /\ x1 a == x1 b /\ x2 a == x2 b.

Section WithNumpy.

Context {numpy : Position.Numpy}.

(** [compute_transformation]: the entries that are not assigned stay
    zero. *)
Definition compute_transformation (tilt theta : Q) : Mat3 :=
  ((Position.cos tilt, Position.sin tilt, 0),
   (- Position.cos theta * Position.sin tilt,
    Position.cos theta * Position.cos tilt,
    - Position.sin theta),
   (- Position.sin theta * Position.sin tilt,
    Position.sin theta * Position.cos tilt,
    Position.cos theta)).

(** [project_point_to_plane]: the last two entries of the floor. *)
Definition project_point_to_plane (point normal : Vec3) (transformation : Mat3)
  : Z * Z :=
  let distance := dot point normal in
  let projected : Vec3 :=
    (x0 point - distance * x0 normal,
     x1 point - distance * x1 normal,
     x2 point - distance * x2 normal) in
  let rotated := matvec (transpose transformation) projected in
  (Qfloor (x1 rotated), Qfloor (x2 rotated)).

(** [product(range(precision), repeat=3)] and the chunk of a triple *)
Definition product3 (precision : nat) : list (nat * nat * nat) :=
  flat_map
    (fun i =>
       flat_map (fun j => map (fun k => (i, j, k)) (seq 0 precision))
                (seq 0 precision))
    (seq 0 precision).

Definition chunk_of (precision : nat) (ijk : nat * nat * nat) : nat :=
  let '(i, j, k) := ijk in (k + precision * (j + precision * i))%nat.

(** The point of the sample [(i, j, k)] of a grid cell *)
Definition sample_point (cell : Vec3) (precision : nat)
  (ijk : nat * nat * nat) : Vec3 :=
  let '(i, j, k) := ijk in
  let p := inject_Z (Z.of_nat precision) in
  (x0 cell + (inject_Z (Z.of_nat i) + (1 # 2)) / p,
   x1 cell + (inject_Z (Z.of_nat j) + (1 # 2)) / p,
   x2 cell + (inject_Z (Z.of_nat k) + (1 # 2)) / p).

(** [get_coordinates_and_weights], for one angle [theta]. *)
Definition get_coordinates_and_weights
  (grid : list Vec3) (tilt theta : Q) (precision : nat)
  (plane_coords : option (list (list (Z * Z)))) : list (list (Z * Z)) :=
  let N := length grid in
  let plane_coords :=
    match plane_coords with
    | Some plane_coords => plane_coords
    | None => repeat (repeat (0%Z, 0%Z) (precision ^ 3)) N
    end in
  let transformation := compute_transformation tilt theta in
  let normal := matvec transformation (1, 0, 0) in
  fold_left
    (fun plane_coords cell =>
       fold_left
         (fun plane_coords ijk =>
            let point := sample_point (nth cell grid (0, 0, 0)) precision ijk in
            let chunk := chunk_of precision ijk in
            let p := project_point_to_plane point normal transformation in
            Probe.set_nth cell
              (Probe.set_nth chunk p (nth cell plane_coords []))
              plane_coords)
         (product3 precision) plane_coords)
    (seq 0 N) plane_coords.

End WithNumpy.

(** [Bucket._make_grid] along one axis: [cp.mgrid[lo:hi]] with
    [lo, hi = -n // 2, n // 2], and the array index
    [(grid + n // 2) % n] of a coordinate. *)
Definition grid_axis (n : Z) : list Z :=
  let lo := (- n / 2)%Z in
  let hi := (n / 2)%Z in
  map (fun k => (lo + Z.of_nat k)%Z) (seq 0 (Z.to_nat (hi - lo))).

Definition grid_index (n : Z) (coordinate : Z) : Z :=
  ((coordinate + n / 2) mod n)%Z.

End Bucket.

(** * Sample collaborators and inputs

    Small exact stand-ins on which the embedded functions can be run. *)

Module Samples.

(** Cosine and sine exact at angle zero, the only angle the samples use;
    a square root exact on squares of rationals. *)
Definition numpy : Position.Numpy :=
  {| Position.cos := fun _ => 1;
     Position.sin := fun _ => 0;
     Position.sqrt := fun q =>
       Z.sqrt (Qnum (Qred q)) # Pos.sqrt (Qden (Qred q)) |}.

(** A solver that stops at its initial guess and reports half the sum of
    the squared residuals there, as [scipy] defines [cost]. *)
Definition scipy : Position.Scipy :=
  {| Position.least_squares := fun f x0 =>
       (x0, Position.Fin ((1 # 2) * Qsum (map (fun r => r * r) (f x0)))) |}.

(** Draws the indices 0, 1, ... (modulo [a]) in every row. *)
Definition randomizer : Position.Randomizer :=
  {| Position.choice := fun a size =>
       repeat (map (fun j => Nat.modulo j a) (seq 0 (snd size))) (fst size) |}.

(** An operator whose simulated intensity is zero and whose far field is
    constant, and a least-squares solve that returns the first residual in
    both directions: the gradient of position [n] is [(data[n][0],
    data[n][0])]. *)
Definition operator : Position.Operator :=
  {| Position._compute_intensity := fun data _ _ _ =>
       (map (map (fun _ => 0)) data, []);
     Position.fwd := fun _ scan _ => map (fun _ => [(1, 0)]) scan;
     Position.cost := fun _ _ _ _ => 0 |}.

Definition linalg : Position.Linalg :=
  {| Position.lstsq := fun _ b => (nth 0 b 0, nth 0 b 0) |}.

(** A 10 x 10 object and a probe of one 2 x 2 mode. *)
Definition psi : Position.Psi := repeat (repeat (1, 0) 10) 10.
Definition probe : Position.Probe := [repeat (repeat (1, 0) 2) 2].

(** Two positions that a step of 1/20 along the gradient
    [(20, 20), (-20, -20)] moves to [(1, 1), (5, 5)]. *)
Definition scan : list Point := [(2, 2); (4, 4)].
Definition data : list (list Q) := [[20]; [-20]].

(** Four positions and their images 100 pixels away. *)
Definition positions0 : list Point := [(0, 0); (1, 0); (0, 1); (1, 1)].
Definition positions1 : list Point :=
  [(100, 100); (101, 100); (100, 101); (101, 101)].

(** Exact on squares of rationals; the eigen probes of the samples are
    orthogonal already, so Gram-Schmidt leaves them as they are. *)
Definition probe_linalg : Probe.Linalg :=
  {| Probe.mnorm := fun f =>
       Position.sqrt (Numpy := numpy)
         (Probe.mean2 (map (map Cabs2) f));
     Probe.orthogonalize_gs := fun x => x |}.

(** One device, one position with a 1 x 1 image, one eigen probe, and the
    weights 1 for the shared and for the eigen probe. *)
Definition eigen_probe1 : list (list (list Probe.Field)) := [[[[[(1, 0)]]]]].
Definition weights1 : list Probe.WeightArray := [[[[1]; [1]]]].
Definition patches1 : list (list Probe.Field) := [[[[(1, 0)]]]].
Definition diff1 : list (list (list Probe.Field)) := [[[[[(1, 0)]]]]].
Definition batches1 : list (list (list nat)) := [[[0%nat]]].

(** A residual that vanishes, and one that does not. *)
Definition R_zero : list (list Probe.Field) := [[[[(0, 0)]]]].
Definition R_one : list (list Probe.Field) := [[[[(1, 0)]]]].

(** Two devices sharing two orthogonal eigen probes of one mode (1 x 2
    images): the first device alone gives the first eigen probe more power
    (4 against 1), the sum over the devices gives the second one more
    (10 against 5). *)
Definition eigen_a : Probe.Field := [[(1, 0); (1, 0)]].
Definition eigen_b : Probe.Field := [[(1, 0); (-1, 0)]].
Definition variable_probe2 : list (list (list Probe.Field)) :=
  [[[eigen_a]; [eigen_b]]; [[eigen_a]; [eigen_b]]].
Definition weights2 : list Probe.WeightArray :=
  [[[[1]; [2]; [1]]]; [[[1]; [1]; [3]]]].

End Samples.

(** Sample position options: three and two positions, with momentum. *)
Module OptionSamples.

Import Position PositionMore.

Definition options3 : PositionOptions :=
  PositionOptions_init [(1, 1); (2, 2); (3, 3)] true (999 # 1000) (9 # 10)
    false 0 1 AffineTransform_default None.

Definition options2 : PositionOptions :=
  PositionOptions_init [(7, 7); (8, 8)] true (999 # 1000) (9 # 10)
    false 0 1 AffineTransform_default (Some [1 # 2; 1 # 4]).

(** Memory that was in use before: row [i] holds the number [i + 100]. *)
#[export] Instance uninitialized : Uninitialized := {
  empty_point := fun i => (inject_Z (Z.of_nat i) + 100, inject_Z (Z.of_nat i) + 100);
  empty_number := fun i => inject_Z (Z.of_nat i) + 100;
  empty_row4 := fun i =>
    (inject_Z (Z.of_nat i) + 100, inject_Z (Z.of_nat i) + 100,
     inject_Z (Z.of_nat i) + 100, inject_Z (Z.of_nat i) + 100)
}.

End OptionSamples.

(** Sample collaborators and inputs for the remaining functions of
    probe.py. *)
Module ProbeSamples.

Import Probe ProbeMore.

(** Position [n] draws [n / (n + 1)] everywhere; the random images are
    all ones. *)
#[export] Instance random : Random := {
  rand := fun N E S =>
    map (fun n => repeat (repeat (Z.of_nat n # Pos.of_nat (n + 1)) S) E)
        (seq 0 N);
  numpy_complex := fun E M W H =>
    repeat (repeat (repeat (repeat (1, 0) H) W) M) E
}.

(** The norm through the square root that is exact on squares, the inner
    product as the sum of [conj(x) * y], and an exponential that is exact
    at zero only. *)
#[export] Instance norms : Norms := {
  norm := fun f => Position.sqrt (Numpy := Samples.numpy) (photons f);
  inner := fun x y =>
    fold_right Cadd (0, 0)
      (map2 (fun a b => Cmul (Cconj a) b) (concat x) (concat y));
  exp := fun _ => 1
}.

(** A filter that leaves the image as it is. *)
#[export] Instance ndimage : Ndimage := {
  gaussian_filter := fun x _ => x
}.

(** Every draw is 1/2, for which every phase is zero and every phase
    factor is one. *)
#[export] Instance phases : Phases := {
  rand2 := fun _ => (1 # 2, 1 # 2);
  cexp := fun _ => (1, 0)
}.

(** Two shared probes of one pixel, one eigen probe for the first of them,
    and weights at two positions. *)
Definition shared2 : list Field := [[[(1, 0)]]; [[(2, 0)]]].
Definition eigen12 : list (list Field) := [[[[(0, 1)]]]].
Definition weights22 : WeightArray := [[[1; 1]; [3; 0]]; [[1; 1]; [5; 0]]].

(** Two probes of one pixel with 25 photons each. *)
Definition probe25 : list Field := [[[(3, 4)]]; [[(0, 5)]]].

(** One 2 x 2 probe whose photons are all in the first pixel. *)
Definition corner_probe : list Field := [[[(3, 0); (0, 0)]; [(0, 0); (0, 0)]]].

End ProbeSamples.

(** Sample parameters: the classes defined elsewhere are a unit type and a
    mask of pixels, the transforms and resizings leave the arrays as they
    are. *)
Module ResampleSamples.

Import Resample.

#[export] Instance resize : Resize unit (list (list bool)) := {
  fft2 := fun x => x;
  ifft2 := fun x => x;
  _resize_spline := fun x _ => x;
  ObjectOptions_resample := fun o _ _ => o;
  ExitWaveOptions_resample := fun e _ => e;
  ExitWaveOptions_measured_pixels := fun mask => mask
}.

Definition probe_options : ProbeOptions :=
  mkProbeOptions true 0 1 true None false false 0 false (999 # 1000) (9 # 10)
    None None 0 (7 # 20) (5 # 2) 1 None None [].

Definition parameters : PtychoParameters unit unit (list (list bool)) :=
  mkPtychoParameters Samples.probe Samples.psi Samples.scan None None tt None
    (Some probe_options) None (Some OptionSamples.options3).

End ResampleSamples.

(** * Facts about numbers and arrays *)

Lemma Qltb_lt a b : Qltb a b = true <-> a < b.
Proof.
  unfold Qltb. rewrite negb_true_iff.
  destruct (Qle_bool b a) eqn:E.
  - apply Qle_bool_iff in E. split; [discriminate | intro H; lra].
  - split; [intros _ | reflexivity].
    apply Qnot_le_lt. intro H. apply Qle_bool_iff in H. congruence.
Qed.

Lemma Qltb_ge a b : Qltb a b = false <-> b <= a.
Proof.
  unfold Qltb. rewrite negb_false_iff. apply Qle_bool_iff.
Qed.

Lemma length_map2 {A B C} (f : A -> B -> C) l l' :
  length l = length l' -> length (map2 f l l') = length l.
Proof.
  revert l'. induction l as [|a l IH]; intros [|b l']; simpl; try easy.
  intros H. f_equal. apply IH. now injection H.
Qed.

Lemma list_eq_dec_nil {A} (l : list A) : {l = []} + {l <> []}.
Proof. destruct l; [now left | now right]. Qed.

Lemma Qlen_pos {A} (l : list A) : l <> [] -> 0 < Qlen l.
Proof.
  destruct l; [congruence | intros _].
  unfold Qlen. change 0 with (inject_Z 0). rewrite <- Zlt_Qlt.
  simpl length. lia.
Qed.

Lemma Qlen_cons {A} (a : A) (l : list A) : Qlen (a :: l) == 1 + Qlen l.
Proof.
  unfold Qlen. simpl length. rewrite Nat2Z.inj_succ, <- Z.add_1_l.
  now rewrite inject_Z_plus.
Qed.

Lemma Qsum_map_add (k : Q) (l : list Q) :
  Qsum (map (fun x => x + k) l) == Qsum l + Qlen l * k.
Proof.
  induction l as [|a l IH].
  - unfold Qlen; simpl. ring.
  - rewrite Qlen_cons. simpl. rewrite IH. ring.
Qed.

(** Shifting a non-empty array by [target - mean] moves its mean to
    [target]. *)
Lemma Qmean_shift (target : Q) (l : list Q) :
  l <> [] ->
  Qmean (map (fun x => x + (target - Qmean l)) l) == target.
Proof.
  intros Hl. pose proof (Qlen_pos Hl) as Hpos.
  unfold Qmean at 1. rewrite Qsum_map_add. unfold Qmean.
  replace (Qlen (map _ l)) with (Qlen l)
    by (unfold Qlen; now rewrite length_map).
  set (n := Qlen l) in *. field. intro H0. rewrite H0 in Hpos. lra.
Qed.

(** [z <= floor x] exactly when [z <= x], for an integer [z]. *)
Lemma Qfloor_ge_iff (z : Z) (x : Q) : (z <= Qfloor x)%Z <-> inject_Z z <= x.
Proof.
  split; intros H.
  - apply Qle_trans with (inject_Z (Qfloor x)); [| apply Qfloor_le].
    now rewrite <- Zle_Qle.
  - rewrite <- (Qfloor_Z z). now apply Qfloor_resp_le.
Qed.

(** [floor x < z] exactly when [x < z], for an integer [z]. *)
Lemma Qfloor_lt_iff (z : Z) (x : Q) : (Qfloor x < z)%Z <-> x < inject_Z z.
Proof.
  split; intros H.
  - apply Qnot_le_lt. intros Hle. apply Qfloor_ge_iff in Hle. lia.
  - apply Z.nle_gt. intros Hle. apply Qfloor_ge_iff in Hle. lra.
Qed.

(** * Facts about position.py *)

Module PositionFacts.

Import Position.

Section Affine.

Context {numpy : Numpy}.

Lemma matmul_assoc (A B D : Matrix2) :
  Meq (matmul (matmul A B) D) (matmul A (matmul B D)).
Proof. unfold Meq, matmul; simpl; repeat split; ring. Qed.

Lemma asarray_entries (t : AffineTransform) : Meq (asarray t) (spec_matrix t).
Proof.
  unfold Meq, asarray, spec_matrix, matmul, scale_matrix, rotation_matrix,
    shear_matrix; simpl; repeat split; ring.
Qed.

Lemma rowmul_Meq (p : Point) (M N : Matrix2) :
  Meq M N -> Peq (rowmul p M) (rowmul p N).
Proof.
  intros (H00 & H01 & H10 & H11). unfold Peq, rowmul; simpl.
  rewrite H00, H01, H10, H11. split; reflexivity.
Qed.

(** C9.  [asarray] is the product scale @ rotation @ shear: it is built by
    multiplying these three matrices from left to right, the grouping of
    the product does not matter, and its four entries are those of the
    product multiplied out.  Applying the transform to a point set adds the
    translation to every point and multiplies the row by that matrix. *)
Theorem asarray_is_scale_rotation_shear (t : AffineTransform) (x : list Point) :
  asarray t
    = matmul (matmul (scale_matrix t) (rotation_matrix t)) (shear_matrix t)
  /\ Meq (asarray t)
         (matmul (scale_matrix t) (matmul (rotation_matrix t) (shear_matrix t)))
  /\ Meq (asarray t) (spec_matrix t)
  /\ call t x = map (fun p => rowmul (Padd p (t0 t, t1 t)) (asarray t)) x
  /\ Forall2 Peq (call t x)
       (map (fun p =>
               let q := Padd p (t0 t, t1 t) in
               (fst q * m00 (spec_matrix t) + snd q * m10 (spec_matrix t),
                fst q * m01 (spec_matrix t) + snd q * m11 (spec_matrix t)))
            x).
Proof.
  split; [reflexivity |].
  split; [apply matmul_assoc |].
  split; [apply asarray_entries |].
  split; [reflexivity |].
  unfold call. induction x as [|p x IH]; simpl; constructor; auto.
  apply (rowmul_Meq (Padd p (t0 t, t1 t)) (asarray_entries t)).
Qed.

End Affine.

Section Ransac.

Context {numpy : Numpy} {scipy : Scipy} {randomizer : Randomizer}.

Lemma ransac_loop_no_consensus
  positions0 positions1 max_error min_consensus transform best draws :
  (forall subset, In subset draws ->
     reaches_consensus positions0 positions1 max_error min_consensus
       transform subset = false) ->
  ransac_loop positions0 positions1 max_error min_consensus draws
    transform best = (transform, best).
Proof.
  induction draws as [|subset rest IH]; intros H; [reflexivity |].
  pose proof (H subset (or_introl eq_refl)) as Hs.
  unfold reaches_consensus in Hs.
  cbn [ransac_loop]; cbv zeta. rewrite Hs.
  apply IH. intros s Hin. apply H. now right.
Qed.

(** C4.  When no drawn subset reaches consensus, the RANSAC estimate is the
    input transform, unchanged, with cost +infinity. *)
Theorem ransac_no_consensus_returns_input
  positions0 positions1 weights transform min_sample max_error min_consensus
  max_iter :
  (forall subset,
     In subset (choice (length positions0) (max_iter, min_sample)) ->
     reaches_consensus positions0 positions1 max_error min_consensus
       transform subset = false) ->
  estimate_global_transformation_ransac positions0 positions1 weights
    transform min_sample max_error min_consensus max_iter
  = (transform, Inf).
Proof.
  intros H. unfold estimate_global_transformation_ransac.
  now apply ransac_loop_no_consensus.
Qed.

(** C10.  The RANSAC estimate does not depend on its [weights] argument:
    two calls that differ only there return the same transform and cost,
    and so the transform stored by [affine_position_regularization] does
    not depend on the confidence of the position options. *)
Theorem ransac_ignores_weights
  positions0 positions1 (weights weights' : option Weights) transform
  min_sample max_error min_consensus max_iter psi probe
  (po : PositionOptions) (confidence' : list Q) :
  estimate_global_transformation_ransac positions0 positions1 weights
    transform min_sample max_error min_consensus max_iter
  = estimate_global_transformation_ransac positions0 positions1 weights'
      transform min_sample max_error min_consensus max_iter
  /\ Position.transform
       (affine_position_regularization psi probe positions0 positions1
          po max_error)
     = Position.transform
         (affine_position_regularization psi probe positions0 positions1
            (mkPositionOptions
               (initial_scan po) (use_adaptive_moment po) (vdecay po)
               (mdecay po) (use_position_regularization po)
               (penalty_weight po) (penalty_variance po)
               (Position.transform po) confidence' (_momentum po))
            max_error).
Proof. split; reflexivity. Qed.

End Ransac.

Section Options.

(** The object that [resample] builds and then drops: the reference
    positions are scaled and the momentum, when kept at all, is zero. *)
Lemma resample_new_scaled (p : PositionOptions) (f : Q) :
  initial_scan (resample_new p f) = map (Pscale f) (initial_scan p)
  /\ _momentum (resample_new p f)
     = if use_adaptive_moment p
       then Some (map (fun _ => (0, 0, 0, 0)) (initial_scan p))
       else None.
Proof.
  unfold resample_new, PositionOptions_init; simpl.
  split; [reflexivity |].
  destruct (use_adaptive_moment p); [| reflexivity].
  f_equal. now rewrite map_map.
Qed.

(** C3.  The claim is that [p.resample(f)] returns the rescaled options.
    The code builds them and falls off the end of the function: whatever
    the options and the factor, the call returns [None]. *)
Theorem resample_returns_none (p : PositionOptions) (f : Q) :
  resample p f = None.
Proof. reflexivity. Qed.

End Options.

Section Bounds.

Lemma any2_false_iff (l : list (bool * bool)) :
  any2 l = false <-> Forall (fun b => fst b = false /\ snd b = false) l.
Proof.
  unfold any2. induction l as [|[a b] l IH]; simpl.
  - split; [constructor | reflexivity].
  - rewrite orb_false_iff, IH, orb_false_iff. split.
    + intros [H1 H2]. now constructor.
    + intros H. inversion H; subst. now split.
Qed.

(** What [check_allowed_positions] accepts: floors at least 1 and below
    the object size minus the probe size, with no margin of two. *)
Lemma check_allowed_positions_ok scan psi ps :
  check_allowed_positions scan psi ps = Ok tt <-> Forall (allowed psi ps) scan.
Proof.
  unfold check_allowed_positions.
  destruct (any2 (less_than_one scan) || any2 (greater_than_psi scan psi ps))
    eqn:E.
  - split; [discriminate | intros H; exfalso].
    apply not_false_iff_true in E. apply E.
    apply orb_false_iff. rewrite !any2_false_iff.
    unfold less_than_one, greater_than_psi, int_scan.
    rewrite !Forall_map. simpl.
    split; eapply Forall_impl; try exact H; intros p (H1 & H2 & H3 & H4).
    + change 1 with (inject_Z 1) in H1, H2.
      apply Qfloor_ge_iff in H1, H2. split; apply Z.ltb_ge; assumption.
    + apply Qfloor_lt_iff in H3, H4.
      split; rewrite Z.geb_leb; apply Z.leb_gt; assumption.
  - split; [intros _ | reflexivity].
    apply orb_false_iff in E. rewrite !any2_false_iff in E.
    unfold less_than_one, greater_than_psi, int_scan in E.
    rewrite !Forall_map in E. simpl in E. destruct E as [E1 E2].
    rewrite Forall_forall in *. intros p Hp.
    destruct (E1 p Hp) as [A1 A2]. destruct (E2 p Hp) as [B1 B2].
    apply Z.ltb_ge in A1, A2.
    rewrite Z.geb_leb in B1, B2. apply Z.leb_gt in B1, B2.
    unfold allowed. change 1 with (inject_Z 1).
    rewrite <- !Qfloor_ge_iff, <- !Qfloor_lt_iff. tauto.
Qed.

Context {operator : Operator} {linalg : Linalg}.

Lemma length_position_gradient data psi probe scan dx :
  length (position_gradient data psi probe scan dx) = length scan.
Proof. unfold position_gradient. now rewrite length_map, length_seq. Qed.

Lemma map_fst_Padd (d : Point) (l : list Point) :
  map fst (map (fun p => Padd p d) l) = map (fun x => x + fst d) (map fst l).
Proof. rewrite !map_map. reflexivity. Qed.

Lemma map_snd_Padd (d : Point) (l : list Point) :
  map snd (map (fun p => Padd p d) l) = map (fun x => x + snd d) (map snd l).
Proof. rewrite !map_map. reflexivity. Qed.

(** The re-centred candidate has the centroid of the input, whatever the
    gradient.  (Of an empty scan both means are the quotient 0/0.) *)
Lemma recenter_keeps_centroid (scan grad : list Point) (step : Q) :
  length grad = length scan ->
  Peq (Pmean (recenter scan step grad)) (Pmean scan).
Proof.
  intros Hlen.
  destruct (list_eq_dec_nil scan) as [-> | Hne]; [split; reflexivity |].
  unfold recenter.
  set (scan1 := map2 (fun p g => Psub p (Pscale step g)) scan grad).
  assert (Hne1 : scan1 <> []).
  { intros H0. apply (f_equal (@length _)) in H0.
    unfold scan1 in H0. rewrite length_map2 in H0 by congruence.
    destruct scan; [congruence | discriminate]. }
  unfold Peq, Pmean at 1 3; simpl fst; simpl snd.
  rewrite map_fst_Padd, map_snd_Padd. simpl fst; simpl snd.
  split; apply Qmean_shift; intros H0; apply Hne1;
    destruct scan1; [reflexivity | discriminate | reflexivity | discriminate].
Qed.

(** C8.  Whenever [update_positions_pd] returns, the mean of the returned
    scan positions is the mean of the input scan positions, whatever
    gradient the forward operator and the least-squares solve produced
    (exactly, in rational arithmetic). *)
Theorem update_positions_pd_keeps_centroid
  data psi probe (scan : list Point) dx step scan' c :
  update_positions_pd data psi probe scan dx step = Ok (scan', c) ->
  Peq (Pmean scan') (Pmean scan).
Proof.
  unfold update_positions_pd.
  destruct (check_allowed_positions _ _ _); simpl; [| discriminate].
  intros H. injection H as <- _.
  apply recenter_keeps_centroid, length_position_gradient.
Qed.

End Bounds.

(** The sample scan: the step moves the first position to exactly
    margin - 1 = 1, outside the margin of two, and the update returns. *)
Lemma sample_update_result :
  update_positions_pd (operator := Samples.operator) (linalg := Samples.linalg)
    Samples.data Samples.psi Samples.probe Samples.scan (-1) (1 # 20)
  = Ok ([(32000 # 32000, 32000 # 32000); (160000 # 32000, 160000 # 32000)], 0).
Proof. vm_compute. reflexivity. Qed.

Lemma update_positions_pd_keeps_centroid_witness :
  Peq (Pmean [(32000 # 32000, 32000 # 32000); (160000 # 32000, 160000 # 32000)])
      (Pmean Samples.scan).
Proof.
  apply (@update_positions_pd_keeps_centroid Samples.operator Samples.linalg
           Samples.data Samples.psi Samples.probe Samples.scan (-1) (1 # 20)
           _ 0).
  vm_compute. reflexivity.
Defined.

(** C2.  The claim is that the update raises exactly when an updated
    position leaves the margin of two pixels, so that a position moved to
    exactly 1 raises.  On the sample scan the first position is moved to
    exactly (1, 1), which is outside the margin, and the update returns
    without raising; the position (2, 2) is accepted as well. *)
Theorem update_positions_pd_accepts_margin_minus_one :
  exists scan' c,
    update_positions_pd (operator := Samples.operator)
      (linalg := Samples.linalg)
      Samples.data Samples.psi Samples.probe Samples.scan (-1) (1 # 20)
    = Ok (scan', c)
    /\ Forall2 Peq scan' [(1, 1); (5, 5)]
    /\ ~ Forall (within_margin Samples.psi (probe_shape Samples.probe)) scan'
    /\ check_allowed_positions [(1, 1)] Samples.psi (probe_shape Samples.probe)
       = Ok tt
    /\ check_allowed_positions [(2, 2)] Samples.psi (probe_shape Samples.probe)
       = Ok tt.
Proof.
  eexists; eexists. split; [apply sample_update_result |].
  split; [repeat constructor; simpl; reflexivity |].
  split; [| split; reflexivity].
  intros H. inversion H as [|p l Hp _]; subst.
  destruct Hp as (Hp & _). unfold margin in Hp. simpl in Hp.
  revert Hp. unfold Qle; simpl. lia.
Qed.

Lemma ransac_no_consensus_returns_input_witness :
  estimate_global_transformation_ransac
    (numpy := Samples.numpy) (scipy := Samples.scipy)
    (randomizer := Samples.randomizer)
    Samples.positions0 Samples.positions1 None AffineTransform_default
    3 32 (3 # 4) 20
  = (AffineTransform_default, Inf).
Proof.
  apply (@ransac_no_consensus_returns_input
           Samples.numpy Samples.scipy Samples.randomizer).
  intros subset Hin. vm_compute in Hin.
  repeat (destruct Hin as [<- | Hin]; [vm_compute; reflexivity |]).
  destruct Hin.
Defined.

End PositionFacts.

(** * Facts about probe.py *)

Module ProbeFacts.

Import Probe.

Section VaryingProbe.

Lemma Cscale_one (z : C) : Ceq (Cscale 1 z) z.
Proof. unfold Ceq, Cscale; simpl. split; ring. Qed.

Lemma Cscale_comp (k k' : Q) (z : C) : k == k' -> Ceq (Cscale k z) (Cscale k' z).
Proof. intros H. unfold Ceq, Cscale; simpl. now rewrite H. Qed.

Lemma fscale_one (k : Q) (f : Field) : k == 1 -> Feq (fscale k f) f.
Proof.
  intros Hk. unfold Feq, fscale.
  induction f as [|row f IH]; simpl; constructor; [| exact IH].
  induction row as [|z row IHr]; simpl; constructor; [| exact IHr].
  destruct (Cscale_comp z Hk) as [H1 H2]. destruct (Cscale_one z) as [H3 H4].
  split; [now rewrite H1 | now rewrite H2].
Qed.

Lemma map2_fscale_ones (qs : list Q) (fs : list Field) :
  Forall2 (fun q _ => q == 1) qs fs -> Forall2 Feq (map2 fscale qs fs) fs.
Proof.
  induction 1 as [|q f qs fs Hq _ IH]; simpl; constructor; [| exact IH].
  now apply fscale_one.
Qed.

(** Entry [k] of a zipped list, inside both lists. *)
Lemma nth_zip {A B D} (f : A -> B -> D) (dA : A) (dB : B) (d : D)
  (l : list A) (l' : list B) (k : nat) :
  (k < length l)%nat -> (k < length l')%nat ->
  nth k (map2 f l l') d = f (nth k l dA) (nth k l' dB).
Proof.
  revert l' k. induction l as [|a l IH]; intros [|b l'] k H1 H2; simpl in *;
    try lia.
  destruct k as [|k]; [reflexivity |]. apply IH; lia.
Qed.

(** C1, as amended.  Without an eigen probe, [get_varying_probe] returns a
    single copy of the shared probe when there are no weights.  With
    weights, whatever their values, it returns one list of images per
    position, and the image at position n and mode s is the shared image of
    mode s scaled by [weights[n, 0, s]].  So the result is the shared probe
    repeated at each of the N positions when all these weights are 1. *)
Theorem get_varying_probe_without_eigen
  (shared_probe : list Field) (weights : WeightArray) :
  get_varying_probe shared_probe None None = [shared_probe]
  /\ get_varying_probe shared_probe None (Some weights)
     = map (fun wn => map2 fscale (nth 0 wn []) shared_probe) weights
  /\ length (get_varying_probe shared_probe None (Some weights))
     = length weights
  /\ (forall n s,
        (n < length weights)%nat ->
        (s < length (nth 0 (nth n weights []) []))%nat ->
        (s < length shared_probe)%nat ->
        nth s (nth n (get_varying_probe shared_probe None (Some weights)) [])
            []
        = fscale (entry weights n 0 s) (nth s shared_probe []))
  /\ (Forall (fun wn => Forall2 (fun q _ => q == 1) (nth 0 wn []) shared_probe)
             weights ->
      Forall2 (Forall2 Feq)
        (get_varying_probe shared_probe None (Some weights))
        (broadcast_shared (length weights) shared_probe)).
Proof.
  split; [reflexivity |]. split; [reflexivity |].
  split; [apply length_map |].
  split.
  - intros n s Hn Hs Hs'. unfold get_varying_probe, entry.
    rewrite (nth_indep _ [] (map2 fscale (nth 0 (@nil (list Q)) []) shared_probe))
      by now rewrite length_map.
    rewrite (map_nth (fun wn => map2 fscale (nth 0 wn []) shared_probe)).
    now apply nth_zip.
  - intros H. unfold get_varying_probe, broadcast_shared.
    induction H as [|wn w Hwn _ IH]; simpl; constructor; [| exact IH].
    now apply map2_fscale_ones.
Qed.

End VaryingProbe.

Lemma get_varying_probe_without_eigen_witness :
  nth 0 (nth 1 (get_varying_probe [[[(3, 4)]]] None (Some [[[1]]; [[2]]])) [])
      []
  = fscale (entry [[[1]]; [[2]]] 1 0 0) (nth 0 [[[(3, 4)]]] [])
  /\ Forall2 (Forall2 Feq)
       (get_varying_probe [[[(3, 4)]]] None (Some [[[1]]; [[1]]]))
       (broadcast_shared 2 [[[(3, 4)]]]).
Proof.
  split.
  - apply (@get_varying_probe_without_eigen [[[(3, 4)]]] [[[1]]; [[2]]]);
      simpl; lia.
  - apply (@get_varying_probe_without_eigen [[[(3, 4)]]] [[[1]]; [[1]]]).
    repeat constructor.
Defined.

(** C1, as stated, fails: with no eigen probe and the weight 2 at the only
    position, the result is twice the shared probe, not the shared probe. *)
Lemma get_varying_probe_depends_on_weights :
  ~ Forall2 (Forall2 Feq)
      (get_varying_probe [[[(1, 0)]]] None (Some [[[2]]]))
      (broadcast_shared 1 [[[(1, 0)]]]).
Proof.
  intros H. simpl in H.
  inversion H as [|? ? ? ? H1 _]; subst. clear H.
  inversion H1 as [|? ? ? ? H2 _]; subst. clear H1.
  inversion H2 as [|? ? ? ? H3 _]; subst. clear H2.
  inversion H3 as [|? ? ? ? H4 _]; subst. clear H3.
  destruct H4 as [H4 _]. revert H4. unfold Qeq; simpl. lia.
Qed.

Section EigenUpdate.

Lemma norm_sq_nonneg (l : list Q) : 0 <= norm_sq l.
Proof.
  unfold norm_sq. induction l as [|a l IH]; simpl; [lra |].
  assert (0 <= a * a) by (destruct (Qlt_le_dec a 0); nra). lra.
Qed.

Lemma norm_sq_zero_iff (l : list Q) :
  norm_sq l == 0 <-> Forall (fun w => w == 0) l.
Proof.
  induction l as [|a l IH].
  - split; [constructor | reflexivity].
  - pose proof (norm_sq_nonneg l) as Hl.
    assert (Ha : 0 <= a * a) by (destruct (Qlt_le_dec a 0); nra).
    change (norm_sq (a :: l)) with (a * a + norm_sq l). split.
    + intros H. assert (Ha0 : a * a == 0) by lra.
      constructor; [| apply IH; lra].
      destruct (Qmult_integral _ _ Ha0); assumption.
    + intros H. inversion H as [|? ? H1 H2]; subst.
      apply IH in H2. rewrite H1, H2. ring.
Qed.

Lemma _get_update_raises_iff
  R eigen_probe weights batches batch_index c m :
  _get_update R eigen_probe weights batches batch_index c m = Raise ValueError
  <-> degenerate_batch weights batches batch_index c m.
Proof.
  unfold _get_update, degenerate_batch. rewrite <- norm_sq_zero_iff.
  destruct (Qeq_bool _ 0) eqn:E.
  - apply Qeq_bool_iff in E. tauto.
  - split; [discriminate |]. intros H. apply Qeq_bool_iff in H. congruence.
Qed.

Lemma _get_update_returns_iff
  R eigen_probe weights batches batch_index c m :
  returns (_get_update R eigen_probe weights batches batch_index c m) = true
  <-> ~ degenerate_batch weights batches batch_index c m.
Proof.
  rewrite <- (_get_update_raises_iff R eigen_probe). unfold _get_update.
  destruct (Qeq_bool _ 0); simpl.
  - split; [discriminate | intros H; exfalso; now apply H].
  - split; [intros _ H; discriminate | reflexivity].
Qed.

(** [pool_map] raises [ValueError] exactly when some shard does, for a
    function that raises nothing else. *)
Lemma pool_map_raises_iff {A B} (f : A -> Result B) (shards : list A) :
  (forall a e, f a = Raise e -> e = ValueError) ->
  (pool_map f shards = Raise ValueError
   <-> Exists (fun a => f a = Raise ValueError) shards)
  /\ (forall e, pool_map f shards = Raise e -> e = ValueError).
Proof.
  intros Hf. induction shards as [|a shards [IH1 IH2]]; simpl.
  - split; [| discriminate]. split; [discriminate | intros H; inversion H].
  - destruct (f a) as [b|e] eqn:Ea; simpl.
    + destruct (pool_map f shards) as [bs|e'] eqn:Es; simpl.
      * split; [| discriminate]. split; [discriminate |].
        intros H. inversion H as [? ? H0|? ? H0]; subst; [congruence |].
        apply IH1 in H0. discriminate.
      * split.
        -- split; intros H.
           ++ right. apply IH1. exact H.
           ++ f_equal. now apply IH2.
        -- intros e H. injection H as <-. now apply IH2.
    + pose proof (Hf a e Ea) as ->. split.
      * split; [intros _; now left | reflexivity].
      * intros e H. now injection H.
Qed.

Context {linalg : Linalg}.

Lemma _get_d_raises patches diff eigen_probe update β c m e :
  _get_d patches diff eigen_probe update β c m = Raise e ->
  e = AssertionError.
Proof.
  unfold _get_d. destruct (_ || _); [| discriminate]. now intros [= <-].
Qed.

Lemma _get_weights_mean_raises n d d_mean weights batches batch_index c m e :
  _get_weights_mean n d d_mean weights batches batch_index c m = Raise e ->
  e = AssertionError.
Proof.
  unfold _get_weights_mean. destruct (existsb _ _); [| discriminate].
  now intros [= <-].
Qed.

Lemma pool_map_assertion {A B} (f : A -> Result B) (shards : list A) e :
  (forall a e, f a = Raise e -> e = AssertionError) ->
  pool_map f shards = Raise e -> e = AssertionError.
Proof.
  intros Hf. induction shards as [|a shards IH]; simpl; [discriminate |].
  destruct (f a) as [b|e'] eqn:Ea; simpl.
  - destruct (pool_map f shards); simpl; [discriminate |].
    intros [= <-]. now apply IH.
  - intros [= <-]. eapply Hf, Ea.
Qed.

(** C7, as amended.  [_get_update], the per-device first step of the
    eigen-probe update, raises its error exactly when all the relevant
    weights of that device's batch are zero, and returns the candidate
    update otherwise.  When the shape assertions hold, the whole update
    raises this error exactly when the batch of some device is degenerate;
    the later steps can only fail their finiteness assertions. *)
Theorem update_eigen_probe_degenerate_batch
  R eigen_probe weights patches diff batches batch_index β c m :
  shapes_agree R eigen_probe batches batch_index = true ->
  (forall R0 e0 w0 b0,
     (_get_update R0 e0 w0 b0 batch_index c m = Raise ValueError
      <-> degenerate_batch w0 b0 batch_index c m)
     /\ (returns (_get_update R0 e0 w0 b0 batch_index c m) = true
         <-> ~ degenerate_batch w0 b0 batch_index c m))
  /\ (update_eigen_probe R eigen_probe weights patches diff batches
        batch_index β c m = Raise ValueError
      <-> Exists (fun a =>
                    degenerate_batch (fst (snd (snd a))) (snd (snd (snd a)))
                      batch_index c m)
                 (combine R (combine eigen_probe (combine weights batches)))).
Proof.
  intros Hshape. split.
  { intros. split;
      [apply _get_update_raises_iff | apply _get_update_returns_iff]. }
  unfold update_eigen_probe. rewrite Hshape. simpl negb. cbv iota.
  set (f := fun a : list Field * (list (list Field) *
                     (WeightArray * list (list nat))) =>
              _get_update (fst a) (fst (snd a)) (fst (snd (snd a)))
                (snd (snd (snd a))) batch_index c m).
  assert (Hf : forall a e, f a = Raise e -> e = ValueError).
  { intros a e. unfold f, _get_update.
    destruct (Qeq_bool _ 0); [now intros [= <-] | discriminate]. }
  destruct (pool_map_raises_iff f
              (combine R (combine eigen_probe (combine weights batches))) Hf)
    as [Hiff _].
  assert (Hex :
    Exists (fun a => f a = Raise ValueError)
      (combine R (combine eigen_probe (combine weights batches)))
    <-> Exists (fun a =>
                  degenerate_batch (fst (snd (snd a))) (snd (snd (snd a)))
                    batch_index c m)
          (combine R (combine eigen_probe (combine weights batches)))).
  { rewrite !Exists_exists. split; intros (a & Hin & Ha); exists a;
      (split; [exact Hin |]); unfold f in *.
    - exact (proj1 (_get_update_raises_iff _ _ _ _ _ _ _) Ha).
    - exact (proj2 (_get_update_raises_iff _ _ _ _ _ _ _) Ha). }
  rewrite <- Hex, <- Hiff. clear Hex Hiff.
  destruct (pool_map f _) as [update|e] eqn:E1; simpl.
  - split; [| discriminate]. intros H. exfalso.
    destruct (pool_map _ (combine patches (combine diff eigen_probe)))
      as [r|e] eqn:E2; simpl in H.
    + destruct (pool_map _ (combine r (combine weights batches)))
        as [w|e] eqn:E3; simpl in H; [discriminate |].
      injection H as ->.
      apply pool_map_assertion in E3; [discriminate |].
      intros a e. apply _get_weights_mean_raises.
    + injection H as ->.
      apply pool_map_assertion in E2; [discriminate |].
      intros a e. apply _get_d_raises.
  - split; intros [= ->]; reflexivity.
Qed.

End EigenUpdate.

Lemma update_eigen_probe_degenerate_batch_witness :
  update_eigen_probe (linalg := Samples.probe_linalg)
    Samples.R_one Samples.eigen_probe1 [[[[1]; [0]]]] Samples.patches1
    Samples.diff1 Samples.batches1 0 (1 # 10) 1 0
  = Raise ValueError.
Proof.
  apply (@update_eigen_probe_degenerate_batch Samples.probe_linalg
           Samples.R_one Samples.eigen_probe1 [[[[1]; [0]]]] Samples.patches1
           Samples.diff1 Samples.batches1 0%nat (1 # 10) 1%nat 0%nat).
  - reflexivity.
  - left. repeat constructor.
Defined.

(** C7, as stated, fails: on one device whose only relevant weight is 1,
    a vanishing residual makes the candidate update zero, the division by
    its mean-norm is not finite, and the update raises although the batch
    is not degenerate. *)
Lemma update_eigen_probe_raises_with_nonzero_weights :
  ~ (returns
       (update_eigen_probe (linalg := Samples.probe_linalg)
          Samples.R_zero Samples.eigen_probe1 Samples.weights1
          Samples.patches1 Samples.diff1 Samples.batches1 0 (1 # 10) 1 0)
     = false
     <-> degenerate_batch (hd [] Samples.weights1) (hd [] Samples.batches1)
           0 1 0).
Proof.
  intros [H _].
  assert (Hd : degenerate_batch (hd [] Samples.weights1)
                 (hd [] Samples.batches1) 0 1 0) by (apply H; reflexivity).
  unfold degenerate_batch in Hd. simpl in Hd.
  inversion Hd as [|? ? H1 _]; subst. revert H1. unfold Qeq; simpl. lia.
Qed.

Section Clip.

Lemma nth_nil {A} (i : nat) (d : A) : nth i [] d = d.
Proof. now destruct i. Qed.

(** Reading entry [i] of a [map2] against the running index, when the
    default is what [f] makes of the default. *)
Lemma nth_map2_seq {A B} (f : A -> nat -> B) (l : list A) (dA : A) (dB : B) :
  forall a i,
    f dA (a + i)%nat = dB ->
    nth i (map2 f l (seq a (length l))) dB = f (nth i l dA) (a + i)%nat.
Proof.
  induction l as [|x l IH]; intros a i Hd.
  - cbn [length seq map2]. now rewrite !nth_nil.
  - cbn [length seq map2]. destruct i as [|j]; cbn [nth].
    + now rewrite Nat.add_0_r.
    + rewrite <- Nat.add_succ_comm. apply IH.
      now rewrite Nat.add_succ_comm.
Qed.

Lemma nth_map2_seq_Q (f : Q -> nat -> Q) (l : list Q) :
  forall a i,
    f 0 (a + i)%nat == 0 ->
    nth i (map2 f l (seq a (length l))) 0 == f (nth i l 0) (a + i)%nat.
Proof.
  induction l as [|x l IH]; intros a i Hd.
  - cbn [length seq map2]. rewrite !nth_nil. now symmetry.
  - cbn [length seq map2]. destruct i as [|j]; cbn [nth].
    + now rewrite Nat.add_0_r.
    + rewrite <- Nat.add_succ_comm. apply IH.
      now rewrite Nat.add_succ_comm.
Qed.

Lemma Qsign_cases (x : Q) :
  (0 < x /\ Qsign x = 1) \/ (x < 0 /\ Qsign x = -1) \/ (x == 0 /\ Qsign x = 0).
Proof.
  unfold Qsign. destruct (Qltb 0 x) eqn:E1.
  - left. split; [now apply Qltb_lt | reflexivity].
  - apply Qltb_ge in E1. destruct (Qltb x 0) eqn:E2.
    + right; left. split; [now apply Qltb_lt | reflexivity].
    + apply Qltb_ge in E2. right; right. split; [lra | reflexivity].
Qed.

(** Every entry of the clipped array, in range or not. *)
Lemma entry_clip_outliers (w : WeightArray) (n c s : nat) :
  entry (clip_outliers w) n c s
  == Qmin (Qabs (entry w n c s)) (clip_level w c s) * Qsign (entry w n c s).
Proof.
  unfold entry, clip_outliers.
  change (@nil (list Q)) with
    ((fun wn : list (list Q) =>
        map2 (fun row c0 =>
                map2 (fun w0 s0 =>
                        Qmin (Qabs w0) (clip_level w c0 s0) * Qsign w0)
                     row (seq 0 (length row)))
             wn (seq 0 (length wn))) []) at 1.
  rewrite map_nth.
  rewrite (@nth_map2_seq _ _ _ (nth n w []) [] [] 0 c) by reflexivity.
  rewrite (@nth_map2_seq_Q _ (nth c (nth n w []) []) 0 s).
  - reflexivity.
  - unfold Qsign. simpl. ring.
Qed.

Lemma insert_key_Forall (P : Q * nat -> Prop) x l :
  P x -> Forall P l -> Forall P (insert_key x l).
Proof.
  intros Hx. induction 1 as [|y l Hy Hl IH]; simpl.
  - now constructor.
  - destruct (Qle_bool (fst x) (fst y)); repeat constructor; assumption.
Qed.

Lemma sort_keys_Forall (P : Q * nat -> Prop) l :
  Forall P l -> Forall P (sort_keys l).
Proof.
  unfold sort_keys. induction 1; simpl; [constructor |].
  now apply insert_key_Forall.
Qed.

Lemma sort_Forall (P : Q -> Prop) l : Forall P l -> Forall P (sort l).
Proof.
  intros H. unfold sort. rewrite Forall_map.
  apply sort_keys_Forall. now rewrite Forall_map.
Qed.

Lemma nth_nonneg (l : list Q) (i : nat) :
  Forall (fun x => 0 <= x) l -> 0 <= nth i l 0.
Proof.
  intros H. revert i. induction H; intros [|i]; simpl; auto; lra.
Qed.

(** The percentile of magnitudes is not negative. *)
Lemma percentile95_nonneg (a : list Q) :
  Forall (fun x => 0 <= x) a -> 0 <= percentile95 a.
Proof.
  intros H. unfold percentile95.
  set (h := (95 # 100) * (Qlen a - 1)).
  pose proof (Qfloor_le h) as H1. pose proof (Qlt_floor h) as H2.
  rewrite inject_Z_plus in H2. change (inject_Z 1) with 1 in H2.
  pose proof (sort_Forall H) as Hs.
  pose proof (nth_nonneg (Z.to_nat (Qfloor h)) Hs) as Hb.
  pose proof (nth_nonneg (Nat.min (Z.to_nat (Qfloor h) + 1) (length a - 1)) Hs)
    as Ha.
  set (below := nth _ (sort a) 0) in *.
  set (above := nth _ (sort a) 0) in *.
  set (f := h - inject_Z (Qfloor h)).
  assert (0 <= f) by (unfold f; lra). assert (f < 1) by (unfold f; lra).
  nra.
Qed.

Lemma clip_level_nonneg (w : WeightArray) (c s : nat) : 0 <= clip_level w c s.
Proof.
  unfold clip_level.
  assert (0 <= percentile95 (map Qabs (column w c s))); [| lra].
  apply percentile95_nonneg. rewrite Forall_map.
  apply Forall_forall. intros x _. apply Qabs_nonneg.
Qed.

Lemma Qsign_comp (x y : Q) : x == y -> Qsign x = Qsign y.
Proof.
  intros H.
  destruct (Qsign_cases x) as [[Hx ->] | [[Hx ->] | [Hx ->]]];
    destruct (Qsign_cases y) as [[Hy ->] | [[Hy ->] | [Hy ->]]];
    try reflexivity; lra.
Qed.

Lemma clip_arith (x L : Q) :
  0 <= L ->
  Qmin (Qabs x) L * Qsign x == Qsign x * Qmin (Qabs x) L
  /\ Qabs (Qmin (Qabs x) L * Qsign x) <= L
  /\ 0 <= Qmin (Qabs x) L * Qsign x * x
  /\ (Qsign (Qmin (Qabs x) L * Qsign x) = Qsign x \/ L == 0).
Proof.
  intros HL. split; [ring |].
  pose proof (Qabs_nonneg x) as Hx.
  assert (Hm0 : 0 <= Qmin (Qabs x) L) by now apply Q.min_glb.
  pose proof (Q.le_min_r (Qabs x) L) as HmL.
  assert (Hpos : 0 < L -> ~ x == 0 -> 0 < Qmin (Qabs x) L).
  { intros H0 Hne. apply Q.min_glb_lt; [| assumption].
    destruct (Qlt_le_dec x 0) as [Hneg | Hnn].
    - rewrite Qabs_neg by lra. lra.
    - rewrite Qabs_pos by assumption.
      destruct (Qlt_le_dec 0 x); [assumption |].
      exfalso. apply Hne. lra. }
  set (m := Qmin (Qabs x) L) in *.
  rewrite Qabs_Qle_condition.
  destruct (Qsign_cases x) as [[Hs Hsx] | [[Hs Hsx] | [Hs Hsx]]];
    rewrite Hsx; (split; [split |]; [nra | nra |]); (split; [nra |]).
  - destruct (Qlt_le_dec 0 L) as [H0 | H0]; [left | right; lra].
    assert (0 < m) by (apply Hpos; [assumption | lra]).
    destruct (Qsign_cases (m * 1)) as [[_ ->] | [[H1 _] | [H1 _]]];
      [reflexivity | nra | nra].
  - destruct (Qlt_le_dec 0 L) as [H0 | H0]; [left | right; lra].
    assert (0 < m) by (apply Hpos; [assumption | lra]).
    destruct (Qsign_cases (m * -1)) as [[H1 _] | [[_ ->] | [H1 _]]];
      [nra | reflexivity | nra].
  - left.
    destruct (Qsign_cases (m * 0)) as [[H1 _] | [[H1 _] | [_ ->]]];
      [nra | nra | reflexivity].
Qed.

(** In the clipped array every entry is [sign(w) * min(|w|, clip)], its
    magnitude is at most [clip], its sign is never opposite to that of
    [w], and it is the sign of [w] unless [clip] is zero. *)
Lemma clip_outliers_bounds (weights : WeightArray) (n c s : nat) :
  entry (clip_outliers weights) n c s
  == Qsign (entry weights n c s)
     * Qmin (Qabs (entry weights n c s)) (clip_level weights c s)
  /\ Qabs (entry (clip_outliers weights) n c s) <= clip_level weights c s
  /\ 0 <= entry (clip_outliers weights) n c s * entry weights n c s
  /\ (Qsign (entry (clip_outliers weights) n c s)
      = Qsign (entry weights n c s)
      \/ clip_level weights c s == 0).
Proof.
  pose proof (clip_arith (entry weights n c s)
                (clip_level_nonneg weights c s)) as (H1 & H2 & H3 & H4).
  rewrite (Qsign_comp (entry_clip_outliers weights n c s)).
  rewrite entry_clip_outliers. auto.
Qed.

(** The bound is against the percentile of the magnitudes before clipping.
    Measured again on the clipped weights the percentile can be smaller:
    of nineteen zeros and one weight 100 the percentile is 5 and the weight
    is clipped to 7.5, after which the percentile is 0.375. *)
Lemma clip_level_after_clipping_can_drop :
  let weights := repeat [[0]] 19 ++ [[[100]]] in
  clip_level (clip_outliers weights) 0 0
  < Qabs (entry (clip_outliers weights) 19 0 0).
Proof. vm_compute. reflexivity. Qed.

End Clip.

Section Sorting.

Lemma insert_key_perm x l : Permutation (insert_key x l) (x :: l).
Proof.
  induction l as [|y l IH]; simpl; [reflexivity |].
  destruct (Qle_bool (fst x) (fst y)); [reflexivity |].
  rewrite IH. apply perm_swap.
Qed.

Lemma sort_keys_perm l : Permutation (sort_keys l) l.
Proof.
  unfold sort_keys. induction l as [|x l IH]; simpl; [reflexivity |].
  rewrite insert_key_perm. now constructor.
Qed.

Lemma key_before_le x y : key_before x y -> fst x <= fst y.
Proof. intros [H | [H _]]; lra. Qed.

(** Inserting a pair whose index is below all the indices present keeps
    the list in order. *)
Lemma insert_key_sorted x l :
  Forall (fun y => (snd x < snd y)%nat) l ->
  StronglySorted key_before l ->
  StronglySorted key_before (insert_key x l).
Proof.
  intros Hidx Hs. induction Hs as [|y l Hs IH Hy]; simpl.
  - repeat constructor.
  - inversion Hidx as [|? ? Hxy Hidx']; subst.
    destruct (Qle_bool (fst x) (fst y)) eqn:E.
    + apply Qle_bool_iff in E.
      assert (Hxy' : key_before x y).
      { destruct (Qlt_le_dec (fst x) (fst y)); [now left | right].
        split; [lra | assumption]. }
      constructor; [now constructor |].
      constructor; [assumption |].
      rewrite Forall_forall in *. intros z Hz.
      pose proof (key_before_le (Hy z Hz)) as Hle.
      destruct (Qlt_le_dec (fst x) (fst z)); [now left | right].
      split; [lra | now apply Hidx'].
    + assert (Hlt : fst y < fst x).
      { apply Qnot_le_lt. intros H. apply Qle_bool_iff in H. congruence. }
      constructor; [now apply IH |].
      apply insert_key_Forall; [now left | assumption].
Qed.

Lemma combine_seq_index (keys : list Q) :
  forall a,
    Forall (fun p => (a <= snd p)%nat /\ fst p = nth (snd p - a) keys 0)
           (combine keys (seq a (length keys))).
Proof.
  induction keys as [|k keys IH]; intros a; simpl; constructor.
  - simpl. now rewrite Nat.sub_diag.
  - eapply Forall_impl; [| apply (IH (S a))].
    intros [q j] [H1 H2]; simpl in *. split; [lia |].
    rewrite H2. replace (j - a)%nat with (S (j - S a)) by lia. reflexivity.
Qed.

Lemma sort_keys_sorted (keys : list Q) :
  forall a,
    StronglySorted key_before (sort_keys (combine keys (seq a (length keys)))).
Proof.
  induction keys as [|k keys IH]; intros a; simpl; [constructor |].
  apply insert_key_sorted; [| apply IH].
  apply sort_keys_Forall.
  eapply Forall_impl; [| apply (combine_seq_index keys (S a))].
  intros [q j] [H _]; simpl in *. lia.
Qed.

Lemma StronglySorted_nth {A} (R : A -> A -> Prop) (l : list A) (d : A) :
  StronglySorted R l ->
  forall k k', (k < k' < length l)%nat -> R (nth k l d) (nth k' l d).
Proof.
  induction 1 as [|x l Hs IH Hx]; intros k k' Hk; simpl in *; [lia |].
  destruct k' as [|k']; [lia |]. destruct k as [|k].
  - rewrite Forall_forall in Hx. apply Hx, nth_In. lia.
  - apply IH. lia.
Qed.

Lemma map_snd_combine_seq {A} (l : list A) (a : nat) :
  map snd (combine l (seq a (length l))) = seq a (length l).
Proof.
  revert a. induction l as [|x l IH]; intros a; simpl; [reflexivity |].
  now rewrite IH.
Qed.

Lemma argsort_perm (keys : list Q) :
  Permutation (argsort keys) (seq 0 (length keys)).
Proof.
  unfold argsort. rewrite sort_keys_perm. now rewrite map_snd_combine_seq.
Qed.

Lemma length_argsort (keys : list Q) : length (argsort keys) = length keys.
Proof.
  rewrite (Permutation_length (argsort_perm keys)). apply length_seq.
Qed.

(** [argsort] of the negated power lists the modes in descending order of
    power, ties in their original order. *)
Lemma argsort_stable_descending (power : list Q) :
  stable_descending power (argsort (map Qopp power)).
Proof.
  split.
  - rewrite <- (length_map Qopp power). apply argsort_perm.
  - intros k k' Hk. unfold argsort in *.
    set (sp := sort_keys (combine (map Qopp power)
                            (seq 0 (length (map Qopp power))))) in *.
    rewrite length_map in Hk.
    change O with (snd ((0, O) : Q * nat)). rewrite !map_nth.
    pose proof (StronglySorted_nth (0, O) (sort_keys_sorted (map Qopp power) 0)
                  Hk) as Hlex.
    fold sp in Hlex.
    assert (Hkey : Forall (fun p => fst p = - nth (snd p) power 0) sp).
    { apply sort_keys_Forall.
      eapply Forall_impl; [| apply (combine_seq_index (map Qopp power) 0)].
      intros [q j] [_ H]; simpl in *. rewrite Nat.sub_0_r in H.
      rewrite H. change 0 with (- 0) at 1. now rewrite map_nth. }
    rewrite Forall_forall in Hkey.
    assert (Hk1 : (k < length sp)%nat) by lia.
    assert (Hk2 : (k' < length sp)%nat) by lia.
    assert (H1 := Hkey (nth k sp (0, O)) (nth_In sp (0, O) Hk1)).
    assert (H2 := Hkey (nth k' sp (0, O)) (nth_In sp (0, O) Hk2)).
    unfold precedes. destruct Hlex as [Hlt | [Heq Hidx]].
    + left. rewrite H1, H2 in Hlt. lra.
    + right. rewrite H1, H2 in Heq. split; [lra | assumption].
Qed.

(** [sort] returns the entries it was given, in ascending order. *)
Lemma insert_key_ascending x l :
  StronglySorted (fun a b : Q * nat => fst a <= fst b) l ->
  StronglySorted (fun a b : Q * nat => fst a <= fst b) (insert_key x l).
Proof.
  induction 1 as [|y l Hs IH Hy]; simpl; [repeat constructor |].
  destruct (Qle_bool (fst x) (fst y)) eqn:E.
  - apply Qle_bool_iff in E.
    constructor; [now constructor |].
    constructor; [exact E |].
    eapply Forall_impl; [| exact Hy]. intros z Hz; simpl in *. lra.
  - assert (Hlt : fst y <= fst x).
    { destruct (Qlt_le_dec (fst y) (fst x)) as [H | H]; [lra |].
      apply Qle_bool_iff in H. congruence. }
    constructor; [exact IH |].
    now apply insert_key_Forall.
Qed.

Lemma sort_perm (l : list Q) : Permutation (sort l) l.
Proof.
  unfold sort. rewrite sort_keys_perm, map_map. simpl.
  now rewrite map_id.
Qed.

Lemma sort_ascending (l : list Q) : StronglySorted Qle (sort l).
Proof.
  unfold sort.
  assert (H : StronglySorted (fun a b : Q * nat => fst a <= fst b)
                (sort_keys (map (fun q => (q, O)) l))).
  { unfold sort_keys.
    induction (map (fun q : Q => (q, O)) l) as [|x k IH]; simpl;
      [constructor | now apply insert_key_ascending]. }
  induction H as [|x k _ IH Hx]; simpl; constructor; [exact IH |].
  now rewrite Forall_map.
Qed.

End Sorting.

Section Columns.

Lemma length_set_nth {A} (i : nat) (x : A) (l : list A) :
  length (set_nth i x l) = length l.
Proof.
  revert i. induction l as [|h t IH]; intros [|i]; simpl; auto.
Qed.

Lemma nth_set_nth_eq {A} (i : nat) (x d : A) (l : list A) :
  (i < length l)%nat -> nth i (set_nth i x l) d = x.
Proof.
  revert i. induction l as [|h t IH]; intros [|i] H; simpl in *;
    try lia; auto. apply IH. lia.
Qed.

Lemma nth_set_nth_ne {A} (i j : nat) (x d : A) (l : list A) :
  i <> j -> nth j (set_nth i x l) d = nth j l d.
Proof.
  revert i j. induction l as [|h t IH]; intros [|i] [|j] H; simpl;
    try congruence; auto.
Qed.

Lemma nth_map2 {A B D} (f : A -> B -> D) (l : list A) (l' : list B)
  (dA : A) (dB : B) (d : D) :
  forall k, (k < length l)%nat -> (k < length l')%nat ->
    nth k (map2 f l l') d = f (nth k l dA) (nth k l' dB).
Proof.
  revert l'. induction l as [|a l IH]; intros [|b l'] k H1 H2; simpl in *;
    try lia.
  destruct k as [|k]; [reflexivity |]. apply IH; lia.
Qed.

Lemma Forall_map2 {A B D} (P : A -> Prop) (Q : D -> Prop)
  (f : A -> B -> D) (l : list A) (l' : list B) :
  (forall a b, P a -> Q (f a b)) -> Forall P l -> Forall Q (map2 f l l').
Proof.
  intros Hf H. revert l'. induction H as [|a l Ha _ IH]; intros [|b l'];
    simpl; constructor; auto.
Qed.

(** *** One position of the weights *)

Lemma permute_row_zero sorted i wn :
  nth 0 (permute_row sorted i wn) [] = nth 0 wn [].
Proof. destruct wn; reflexivity. Qed.

Lemma permute_row_succ sorted i wn k E :
  length wn = (1 + E)%nat -> length sorted = E -> (k < E)%nat ->
  nth (S k) (permute_row sorted i wn) []
  = set_nth i (nth i (nth (S (nth k sorted O)) wn []) 0) (nth (S k) wn []).
Proof.
  intros Hw Hs Hk. destruct wn as [|h t]; [discriminate |].
  simpl in Hw. unfold permute_row. cbn [firstn skipn app nth].
  rewrite (@nth_map2 _ _ _ _ t sorted [] O []) by lia.
  reflexivity.
Qed.

Lemma length_permute_row sorted i wn E :
  length wn = (1 + E)%nat -> length sorted = E ->
  length (permute_row sorted i wn) = (1 + E)%nat.
Proof.
  intros Hw Hs. destruct wn as [|h t]; [discriminate |].
  simpl in Hw. unfold permute_row. cbn [firstn skipn app length].
  rewrite length_map2; lia.
Qed.

Lemma permute_row_shape sorted i wn E Ns :
  length sorted = E -> row_shape E Ns wn ->
  row_shape E Ns (permute_row sorted i wn).
Proof.
  intros Hs [Hw Hrows]. split; [now apply length_permute_row |].
  rewrite <- (firstn_skipn 1 wn) in Hrows.
  apply Forall_app in Hrows. destruct Hrows as [Hfirst Hrest].
  unfold permute_row. apply Forall_app. split; [assumption |].
  apply (@Forall_map2 _ _ _ (fun row => length row = Ns)); [| assumption].
  intros row k Hrow. now rewrite length_set_nth.
Qed.

Lemma permute_row_same sorted i wn E Ns k :
  length sorted = E -> row_shape E Ns wn -> (i < Ns)%nat -> (k < E)%nat ->
  nth i (nth (S k) (permute_row sorted i wn) []) 0
  = nth i (nth (S (nth k sorted O)) wn []) 0.
Proof.
  intros Hs [Hw Hrows] Hi Hk.
  rewrite (@permute_row_succ sorted i wn k E Hw Hs Hk).
  apply nth_set_nth_eq.
  rewrite Forall_forall in Hrows. rewrite (Hrows (nth (S k) wn [])); [lia |].
  apply nth_In. lia.
Qed.

Lemma permute_row_other sorted i wn E Ns c s :
  length sorted = E -> row_shape E Ns wn -> i <> s ->
  nth s (nth c (permute_row sorted i wn) []) 0 = nth s (nth c wn []) 0.
Proof.
  intros Hs [Hw Hrows] Hne. destruct c as [|k].
  - now rewrite permute_row_zero.
  - destruct (Nat.lt_ge_cases k E) as [Hk | Hk].
    + rewrite (@permute_row_succ sorted i wn k E Hw Hs Hk). now apply nth_set_nth_ne.
    + rewrite !(nth_overflow _ []); [reflexivity | lia |].
      rewrite (@length_permute_row sorted i wn E Hw Hs). lia.
Qed.

(** *** The stack of eigen probes *)

Lemma permute_probe_row vp sorted i k E :
  length vp = E -> length sorted = E -> (k < E)%nat ->
  nth k (permute_probe vp sorted i) []
  = set_nth i (nth i (nth (nth k sorted O) vp []) []) (nth k vp []).
Proof.
  intros Hv Hs Hk. unfold permute_probe.
  now rewrite (@nth_map2 _ _ _ _ vp sorted [] O []) by lia.
Qed.

Lemma permute_probe_shape vp sorted i E M :
  length sorted = E -> stack_shape E M vp ->
  stack_shape E M (permute_probe vp sorted i).
Proof.
  intros Hs [Hv Hrows]. unfold permute_probe. split.
  - rewrite length_map2; lia.
  - apply (@Forall_map2 _ _ _ (fun row => length row = M)); [| assumption].
    intros row k Hrow. now rewrite length_set_nth.
Qed.

Lemma permute_probe_same vp sorted i E M k :
  length sorted = E -> stack_shape E M vp -> (i < M)%nat -> (k < E)%nat ->
  nth i (nth k (permute_probe vp sorted i) []) []
  = nth i (nth (nth k sorted O) vp []) [].
Proof.
  intros Hs [Hv Hrows] Hi Hk.
  rewrite (@permute_probe_row vp sorted i k E Hv Hs Hk).
  apply nth_set_nth_eq.
  rewrite Forall_forall in Hrows. rewrite (Hrows (nth k vp [])); [lia |].
  apply nth_In. lia.
Qed.

Lemma permute_probe_other vp sorted i E M k s :
  length sorted = E -> stack_shape E M vp -> i <> s ->
  nth s (nth k (permute_probe vp sorted i) []) [] = nth s (nth k vp []) [].
Proof.
  intros Hs [Hv Hrows] Hne.
  destruct (Nat.lt_ge_cases k E) as [Hk | Hk].
  - rewrite (@permute_probe_row vp sorted i k E Hv Hs Hk). now apply nth_set_nth_ne.
  - rewrite !(nth_overflow _ []); [reflexivity | lia |].
    unfold permute_probe. rewrite length_map2; lia.
Qed.

End Columns.

(** A loop over distinct columns, each pass rewriting its own column from
    the state it finds and leaving the other columns alone. *)
Section ColumnLoop.

Variables (St V : Type).
Variable get : St -> nat -> nat -> V.
Variable step : nat -> St -> St.
Variable Inv : St -> Prop.
Variable src : nat -> nat -> nat.
Variable row : nat -> nat.
Variables (E M : nat).

Hypothesis step_inv : forall i st, Inv st -> Inv (step i st).
Hypothesis step_other :
  forall i j r st, Inv st -> j <> i -> get (step j st) r i = get st r i.
Hypothesis step_same :
  forall i k st, Inv st -> (i < M)%nat -> (k < E)%nat ->
    get (step i st) (row k) i = get st (row (src i k)) i.

Lemma loop_inv (cols : list nat) (st : St) :
  Inv st -> Inv (fold_left (fun st j => step j st) cols st).
Proof.
  revert st. induction cols as [|j cols IH]; intros st H; simpl; auto.
Qed.

Lemma loop_untouched (cols : list nat) (st : St) (i r : nat) :
  ~ In i cols -> Inv st ->
  get (fold_left (fun st j => step j st) cols st) r i = get st r i.
Proof.
  revert st. induction cols as [|j cols IH]; intros st Hin H; simpl;
    [reflexivity |].
  rewrite IH; [| intros Hc; apply Hin; now right | now apply step_inv].
  apply step_other; [assumption |]. intros ->. apply Hin. now left.
Qed.

Lemma loop_column (cols : list nat) (st : St) (i k : nat) :
  NoDup cols -> In i cols -> (i < M)%nat -> (k < E)%nat -> Inv st ->
  get (fold_left (fun st j => step j st) cols st) (row k) i
  = get st (row (src i k)) i.
Proof.
  revert st. induction cols as [|j cols IH]; intros st Hnd Hin Hi Hk H;
    simpl; [destruct Hin |].
  inversion Hnd as [|? ? Hj Hnd']; subst.
  destruct (Nat.eq_dec j i) as [-> | Hne].
  - rewrite loop_untouched; auto.
  - destruct Hin as [-> | Hin]; [congruence |].
    rewrite IH; auto.
Qed.

End ColumnLoop.

Section SortModes.

Lemma fold_left_pair {A B} (f : nat -> A -> A) (g : nat -> B -> B)
  (cols : list nat) (a : A) (b : B) :
  fold_left (fun '(a, b) i => (f i a, g i b)) cols (a, b)
  = (fold_left (fun a i => f i a) cols a, fold_left (fun b i => g i b) cols b).
Proof.
  revert a b. induction cols as [|i cols IH]; intros a b; simpl; auto.
Qed.

Lemma fold_left_map {A} (g : nat -> A -> A) (cols : list nat) (l : list A) :
  fold_left (fun l i => map (g i) l) cols l
  = map (fun a => fold_left (fun a i => g i a) cols a) l.
Proof.
  revert l. induction cols as [|i cols IH]; intros l; simpl.
  - now rewrite map_id.
  - rewrite IH. now rewrite map_map.
Qed.

Lemma length_sorted_of_mode power i :
  length (sorted_of_mode power i) = length power.
Proof.
  unfold sorted_of_mode, power_of_mode.
  now rewrite length_argsort, !length_map.
Qed.

(** After the loop, eigen slot [k] of mode [i] holds, in both arrays, what
    slot [sorted_i[k]] held before. *)
Lemma sort_modes_permutes
  (vp : list (list Field)) (w : WeightArray) (power : list (list Q))
  (E M Ns : nat) :
  well_shaped E M Ns (vp, w, power) -> (M <= Ns)%nat ->
  forall i k, (i < M)%nat -> (k < E)%nat ->
    nth i (nth k (fst (sort_modes vp w power)) []) []
    = nth i (nth (nth k (sorted_of_mode power i) O) vp []) []
    /\ forall n,
         entry (snd (sort_modes vp w power)) n (1 + k) i
         = entry w n (1 + nth k (sorted_of_mode power i) O) i.
Proof.
  intros (Hvp & Hw & Hp) HM i k Hi Hk. simpl in Hvp, Hw, Hp.
  assert (Hlen : forall j, length (sorted_of_mode power j) = E).
  { intros j. rewrite length_sorted_of_mode. apply Hp. }
  assert (Hpwm : length (hd [] vp) = M).
  { destruct Hvp as [Hl Hrows]. destruct vp as [|r vp]; simpl in *; [lia |].
    now inversion Hrows. }
  unfold sort_modes. rewrite Hpwm.
  unfold permute_weights.
  rewrite (fold_left_pair
             (fun i vp => permute_probe vp (sorted_of_mode power i) i)
             (fun i w => map (permute_row (sorted_of_mode power i) i) w)).
  simpl fst; simpl snd. split.
  - apply (@loop_column _ _
             (fun vp r i => nth i (nth r vp []) [])
             (fun i vp => permute_probe vp (sorted_of_mode power i) i)
             (stack_shape E M)
             (fun i k => nth k (sorted_of_mode power i) O)
             (fun k => k) E M).
    + intros j st Hst. now apply permute_probe_shape.
    + intros c j r st Hst Hne.
      now apply (@permute_probe_other st _ j E M r c).
    + intros c r st Hst Hc Hr. now apply (@permute_probe_same st _ c E M r).
    + apply seq_NoDup.
    + apply in_seq. lia.
    + assumption.
    + assumption.
    + assumption.
  - intros n. unfold entry.
    rewrite (fold_left_map
               (fun i wn => permute_row (sorted_of_mode power i) i wn)).
    destruct (Nat.lt_ge_cases n (length w)) as [Hn | Hn].
    + rewrite (nth_indep _ []
                 (fold_left
                    (fun wn j => permute_row (sorted_of_mode power j) j wn)
                    (seq 0 M) (nth n w [])))
        by now rewrite length_map.
      rewrite map_nth with (d := nth n w []).
      rewrite (nth_indep w (nth n w []) []) by assumption.
      apply (@loop_column _ _
               (fun wn r i => nth i (nth r wn []) 0)
               (fun i wn => permute_row (sorted_of_mode power i) i wn)
               (row_shape E Ns)
               (fun i k => nth k (sorted_of_mode power i) O)
               (fun k => (1 + k)%nat) E M).
      * intros j st Hst. now apply permute_row_shape.
      * intros c j r st Hst Hne.
        now apply (@permute_row_other _ j st E Ns r c).
      * intros c r st Hst Hc Hr.
        apply (@permute_row_same _ c st E Ns r); auto. lia.
      * apply seq_NoDup.
      * apply in_seq. lia.
      * assumption.
      * assumption.
      * rewrite Forall_forall in Hw. apply Hw, nth_In. assumption.
    + rewrite !(nth_overflow _ [] (n := n));
        [reflexivity | assumption | now rewrite length_map].
Qed.

(** [allreduce] keeps the shape of the arrays it adds, and each of its
    entries is the sum of the devices' entries. *)
Lemma Forall_map2_both {A B D} (P : A -> Prop) (P' : B -> Prop)
  (Q : D -> Prop) (f : A -> B -> D) (l : list A) (l' : list B) :
  (forall a b, P a -> P' b -> Q (f a b)) ->
  Forall P l -> Forall P' l' -> Forall Q (map2 f l l').
Proof.
  intros Hf H. revert l'.
  induction H as [|a l Ha _ IH]; intros l' H'; destruct H'; simpl;
    constructor; auto.
Qed.

Lemma array_sum (E M : nat) (ps : list (list (list Q))) :
  forall acc,
    power_shape E M acc -> Forall (power_shape E M) ps ->
    power_shape E M (fold_left (map2 (map2 Qplus)) ps acc)
    /\ forall c s, (c < E)%nat -> (s < M)%nat ->
         nth s (nth c (fold_left (map2 (map2 Qplus)) ps acc) []) 0
         == nth s (nth c acc []) 0
            + Qsum (map (fun p => nth s (nth c p []) 0) ps).
Proof.
  induction ps as [|p ps IH]; intros acc Hacc Hps; simpl.
  - split; [assumption |]. intros. ring.
  - inversion Hps as [|? ? Hp Hps']; subst.
    destruct Hacc as [La Ra]. destruct Hp as [Lp Rp].
    assert (Hstep : power_shape E M (map2 (map2 Qplus) acc p)).
    { split; [rewrite length_map2; lia |].
      apply (@Forall_map2_both _ _ _ (fun row => length row = M)
               (fun row => length row = M) (fun row => length row = M));
        [| assumption | assumption].
      intros a b Ha Hb. rewrite length_map2; lia. }
    destruct (IH _ Hstep Hps') as [Hshape Hentry].
    split; [assumption |]. intros c s Hc Hs.
    rewrite (Hentry c s Hc Hs).
    rewrite (@nth_map2 _ _ _ _ acc p [] [] []) by lia.
    rewrite Forall_forall in Ra, Rp.
    rewrite (@nth_map2 _ _ _ _ (nth c acc []) (nth c p []) 0 0 0);
      [ring | |].
    + rewrite (Ra (nth c acc [])); [assumption | apply nth_In; lia].
    + rewrite (Rp (nth c p [])); [assumption | apply nth_In; lia].
Qed.

End SortModes.

Section Constrain.

Context {linalg : Linalg}.

Lemma nth_map_lt {A B} (f : A -> B) (l : list A) (d : nat) (dA : A) (dB : B) :
  (d < length l)%nat -> nth d (map f l) dB = f (nth d l dA).
Proof.
  intros H. rewrite (nth_indep _ dB (f dA)) by now rewrite length_map.
  apply map_nth.
Qed.

(** What the pass returns on device [d]: the arrays of phase 1 sorted with
    the reduced power, the weights clipped afterwards. *)
Lemma constrain_variable_probe_device
  (variable_probe : list (list (list Field))) (weights : list WeightArray)
  (d : nat) :
  let phase1 := map2 _constrain_variable_probe1 variable_probe weights in
  let power := allreduce (map snd phase1) in
  let r := nth d phase1 ([], [], []) in
  nth d (fst (constrain_variable_probe variable_probe weights)) []
  = fst (sort_modes (fst (fst r)) (snd (fst r)) power)
  /\ nth d (snd (constrain_variable_probe variable_probe weights)) []
     = clip_outliers (snd (sort_modes (fst (fst r)) (snd (fst r)) power)).
Proof.
  cbv zeta. unfold constrain_variable_probe.
  set (phase1 := map2 _constrain_variable_probe1 variable_probe weights).
  set (power := allreduce (map snd phase1)).
  set (r0 := ([], [], []) : list (list Field) * WeightArray * list (list Q)).
  assert (Hout : forall r : list (list Field) * WeightArray * list (list Q),
            _constrain_variable_probe2 (fst (fst r)) (snd (fst r)) power
            = (fst (sort_modes (fst (fst r)) (snd (fst r)) power),
               clip_outliers (snd (sort_modes (fst (fst r)) (snd (fst r))
                                     power)))).
  { intros r. unfold _constrain_variable_probe2.
    now destruct (sort_modes (fst (fst r)) (snd (fst r)) power). }
  simpl fst; simpl snd. rewrite !map_map.
  destruct (Nat.lt_ge_cases d (length phase1)) as [Hd | Hd].
  - rewrite (@nth_map_lt _ _
               (fun r => fst (_constrain_variable_probe2
                                (fst (fst r)) (snd (fst r)) power))
               phase1 d r0 [] Hd).
    rewrite (@nth_map_lt _ _
               (fun r => snd (_constrain_variable_probe2
                                (fst (fst r)) (snd (fst r)) power))
               phase1 d r0 [] Hd).
    now rewrite Hout.
  - rewrite !(nth_overflow (map _ phase1)) by now rewrite length_map.
    rewrite (nth_overflow phase1) by assumption.
    split; reflexivity.
Qed.

(** C5, as amended.  In the weights that the constrain pass returns on a
    device, every entry is [sign(w) * min(|w|, clip)], where [w] is the
    entry of the sorted weights, before they are clipped, and [clip] is 1.5
    times the 95th percentile of the magnitudes of those weights along the
    position axis, for the same eigen index and mode; so its magnitude is at
    most [clip], and it has the sign of [w] unless [clip] is zero, when it
    is zero.  The percentile is the linear interpolation, at the virtual
    index [0.95 * (N - 1)], between the two closest ranks of the magnitudes
    in ascending order. *)
Theorem constrain_clips_outliers
  (variable_probe : list (list (list Field))) (weights : list WeightArray)
  (d n c s : nat) :
  let phase1 := map2 _constrain_variable_probe1 variable_probe weights in
  let power := allreduce (map snd phase1) in
  let r := nth d phase1 ([], [], []) in
  let sorted_weights := snd (sort_modes (fst (fst r)) (snd (fst r)) power) in
  let new_weights :=
    nth d (snd (constrain_variable_probe variable_probe weights)) [] in
  let w := entry sorted_weights n c s in
  let magnitudes := map Qabs (column sorted_weights c s) in
  let ranked := sort magnitudes in
  let h := (95 # 100) * (Qlen magnitudes - 1) in
  let lo := Z.to_nat (Qfloor h) in
  let hi := Nat.min (lo + 1) (length magnitudes - 1) in
  let clip := (3 # 2) * percentile95 magnitudes in
  entry new_weights n c s == Qsign w * Qmin (Qabs w) clip
  /\ Qabs (entry new_weights n c s) <= clip
  /\ 0 <= entry new_weights n c s * w
  /\ (Qsign (entry new_weights n c s) = Qsign w \/ clip == 0)
  /\ (clip == 0 -> entry new_weights n c s == 0)
  /\ Permutation ranked magnitudes
  /\ StronglySorted Qle ranked
  /\ percentile95 magnitudes
     == nth lo ranked 0
        + (h - inject_Z (Qfloor h)) * (nth hi ranked 0 - nth lo ranked 0).
Proof.
  cbv zeta.
  destruct (constrain_variable_probe_device variable_probe weights d)
    as [_ ->].
  match goal with
  | |- context [clip_outliers ?sw] =>
      destruct (clip_outliers_bounds sw n c s) as (H1 & H2 & H3 & H4)
  end.
  unfold clip_level in *.
  split; [exact H1 |]. split; [exact H2 |]. split; [exact H3 |].
  split; [exact H4 |].
  split.
  { intros H0. rewrite H1, H0.
    pose proof (Qabs_nonneg
                  (entry (snd (sort_modes
                     (fst (fst (nth d (map2 _constrain_variable_probe1
                                         variable_probe weights) ([], [], []))))
                     (snd (fst (nth d (map2 _constrain_variable_probe1
                                         variable_probe weights) ([], [], []))))
                     (allreduce (map snd (map2 _constrain_variable_probe1
                                            variable_probe weights))))) n c s))
      as Ha.
    rewrite (Q.min_r _ 0) by exact Ha. ring. }
  split; [apply sort_perm |]. split; [apply sort_ascending |].
  reflexivity.
Qed.

(** C6.  In the constrain pass the ranking key is, for each eigen slot and
    mode, the sum over all devices of the per-device power; every device
    orders the eigen slots of each mode by it, descending, ties in their
    original order; and slot [k] of mode [i] receives, in the eigen probes
    and in the weights alike, what slot [sorted_i[k]] held, before the
    weights are clipped. *)
Theorem constrain_sorts_by_global_power
  (variable_probe : list (list (list Field))) (weights : list WeightArray)
  (E M Ns d : nat) :
  let phase1 := map2 _constrain_variable_probe1 variable_probe weights in
  let power := allreduce (map snd phase1) in
  let out := constrain_variable_probe variable_probe weights in
  let vp1 := fst (fst (nth d phase1 ([], [], []))) in
  let w1 := snd (fst (nth d phase1 ([], [], []))) in
  let sorted_state := sort_modes vp1 w1 power in
  Forall (well_shaped E M Ns) phase1 ->
  (d < length phase1)%nat ->
  (M <= Ns)%nat ->
  (forall c s, (c < E)%nat -> (s < M)%nat ->
     nth s (nth c power []) 0
     == Qsum (map (fun r => nth s (nth c (snd r) []) 0) phase1))
  /\ (forall i,
        stable_descending (power_of_mode power i) (sorted_of_mode power i))
  /\ nth d (fst out) [] = fst sorted_state
  /\ nth d (snd out) [] = clip_outliers (snd sorted_state)
  /\ (forall i k, (i < M)%nat -> (k < E)%nat ->
        nth i (nth k (fst sorted_state) []) []
        = nth i (nth (nth k (sorted_of_mode power i) O) vp1 []) []
        /\ forall n,
             entry (snd sorted_state) n (1 + k) i
             = entry w1 n (1 + nth k (sorted_of_mode power i) O) i).
Proof.
  cbv zeta. intros Hshape Hd HM.
  set (phase1 := map2 _constrain_variable_probe1 variable_probe weights) in *.
  set (power := allreduce (map snd phase1)).
  assert (Hpowers : Forall (power_shape E M) (map snd phase1)).
  { rewrite Forall_map. eapply Forall_impl; [| exact Hshape].
    intros r (_ & _ & H). exact H. }
  assert (Hsum :
    power_shape E M power
    /\ forall c s, (c < E)%nat -> (s < M)%nat ->
         nth s (nth c power []) 0
         == Qsum (map (fun r => nth s (nth c (snd r) []) 0) phase1)).
  { unfold power, allreduce.
    destruct phase1 as [|r rs]; [simpl in Hd; lia |].
    simpl map in *. inversion Hpowers as [|? ? Hr Hrs]; subst.
    destruct (array_sum Hr Hrs) as [H1 H2].
    split; [assumption |]. intros c s Hc Hs.
    rewrite (H2 c s Hc Hs). simpl. now rewrite map_map. }
  destruct Hsum as [Hpshape Hsum].
  split; [exact Hsum |].
  split; [intros i; apply argsort_stable_descending |].
  set (r0 := ([], [], []) : list (list Field) * WeightArray * list (list Q)).
  destruct (constrain_variable_probe_device variable_probe weights d)
    as [Hfst Hsnd].
  split; [exact Hfst |]. split; [exact Hsnd |].
  apply sort_modes_permutes with (Ns := Ns); [| assumption].
  rewrite Forall_forall in Hshape.
  destruct (Hshape (nth d phase1 r0) (nth_In _ _ Hd)) as (H1 & H2 & _).
  repeat split; simpl; try apply H1; try apply H2; apply Hpshape.
Qed.

End Constrain.

(** C5, as stated, fails.  One device, one eigen probe, eleven positions
    whose weights of the shared probe are ten 1s and 100: the 95th
    percentile of the magnitudes is 50.5, so 100 is clipped to 75.75; in
    the weights returned 1.5 times the 95th percentile is 57.5625, which
    the magnitude 75.75 exceeds.  With twenty 0s and 100 the percentile is
    0 and the weight 100 becomes 0, which has not the sign of 100. *)
Lemma constrain_bound_fails_on_returned_weights :
  let constrain := fun weights : WeightArray =>
    nth 0 (snd (constrain_variable_probe (linalg := Samples.probe_linalg)
                  Samples.eigen_probe1 [weights])) [] in
  let skewed := repeat [[1]; [1]] 10 ++ [[[100]; [1]]] in
  let sparse := repeat [[0]; [1]] 20 ++ [[[100]; [1]]] in
  ~ Qabs (entry (constrain skewed) 10 0 0) <= clip_level (constrain skewed) 0 0
  /\ entry (constrain skewed) 10 0 0 == 303 # 4
  /\ clip_level (constrain skewed) 0 0 == 921 # 16
  /\ ~ Qsign (entry (constrain sparse) 20 0 0) = Qsign (entry sparse 20 0 0)
  /\ entry (constrain sparse) 20 0 0 == 0.
Proof.
  cbv zeta.
  split; [vm_compute; intros H; now apply H |].
  split; [vm_compute; reflexivity |].
  split; [vm_compute; reflexivity |].
  split; [vm_compute; discriminate |].
  vm_compute; reflexivity.
Qed.

Lemma constrain_sorts_by_global_power_witness :
  let power :=
    allreduce
      (map snd
         (map2 (_constrain_variable_probe1 (linalg := Samples.probe_linalg))
               Samples.variable_probe2 Samples.weights2)) in
  let out :=
    constrain_variable_probe (linalg := Samples.probe_linalg)
      Samples.variable_probe2 Samples.weights2 in
  nth 0 (nth 0 power []) 0 == 5 /\ nth 0 (nth 1 power []) 0 == 10
  /\ sorted_of_mode power 0 = [1; 0]%nat
  /\ nth 0 (fst out) [] = [[Samples.eigen_b]; [Samples.eigen_a]]
  /\ entry (nth 0 (snd out) []) 0 1 0 == 1
  /\ entry (nth 0 (snd out) []) 0 2 0 == 2.
Proof.
  cbv zeta.
  destruct (@constrain_sorts_by_global_power Samples.probe_linalg
              Samples.variable_probe2 Samples.weights2 2 1 1 0)
    as (Hsum & Hord & Hvp & Hw & Hperm).
  - vm_compute. repeat constructor.
  - vm_compute. lia.
  - lia.
  - split; [rewrite (Hsum 0%nat 0%nat) by lia; vm_compute; reflexivity |].
    split; [rewrite (Hsum 1%nat 0%nat) by lia; vm_compute; reflexivity |].
    split; [vm_compute; reflexivity |].
    split; [rewrite Hvp; vm_compute; reflexivity |].
    rewrite Hw. split; vm_compute; reflexivity.
Defined.

End ProbeFacts.

(** * Further facts about position.py *)

Module PositionMoreFacts.

Import Position PositionMore.

Section Bounds.

Lemma Exists_or_Forall {A} (P N : A -> Prop) (l : list A) :
  (forall a, {P a} + {N a}) -> Forall P l \/ Exists N l.
Proof.
  intros dec. induction l as [|a l [IH | IH]].
  - left. constructor.
  - destruct (dec a); [left; now constructor | right; now left].
  - right. now right.
Qed.

Lemma allowed_or_rejected psi ps p : {allowed psi ps p} + {rejected psi ps p}.
Proof.
  unfold allowed, rejected.
  destruct (Qlt_le_dec (fst p) 1); [right; tauto |].
  destruct (Qlt_le_dec (snd p) 1); [right; tauto |].
  destruct (Qlt_le_dec (fst p) (inject_Z (fst (shape2 psi) - fst (snd ps))));
    [| right; tauto].
  destruct (Qlt_le_dec (snd p) (inject_Z (snd (shape2 psi) - snd (snd ps))));
    [left; tauto | right; tauto].
Qed.

Lemma rejected_not_allowed psi ps p : rejected psi ps p -> ~ allowed psi ps p.
Proof. unfold allowed, rejected. intros H (H1 & H2 & H3 & H4). lra. Qed.

(** X1.  [check_allowed_positions] raises its [ValueError] exactly when
    some coordinate of some position is below 1 or is at least the object
    size minus the probe size along its axis, and returns otherwise; an
    empty scan is accepted. *)
Theorem check_allowed_positions_raises_iff
  (scan : list Point) (psi : Psi) (ps : nat * (Z * Z)) :
  (check_allowed_positions scan psi ps = Raise ValueError
   <-> Exists (rejected psi ps) scan)
  /\ (check_allowed_positions scan psi ps = Ok tt
      <-> Forall (allowed psi ps) scan)
  /\ check_allowed_positions [] psi ps = Ok tt.
Proof.
  pose proof (PositionFacts.check_allowed_positions_ok scan psi ps) as Hok.
  split; [| split; [exact Hok | reflexivity]].
  split.
  - intros Hr.
    destruct (Exists_or_Forall (allowed psi ps) (rejected psi ps) scan
                (allowed_or_rejected psi ps)) as [Hall | Hex];
      [| exact Hex].
    apply Hok in Hall. congruence.
  - intros Hex.
    assert (Hnot : ~ Forall (allowed psi ps) scan).
    { intros Hall. rewrite Exists_exists in Hex.
      destruct Hex as (p & Hin & Hrej). rewrite Forall_forall in Hall.
      exact (rejected_not_allowed Hrej (Hall p Hin)). }
    unfold check_allowed_positions in *.
    destruct (_ || _); [reflexivity |].
    exfalso. apply Hnot, Hok. reflexivity.
Qed.

End Bounds.

Section Affine.

Context {numpy : Numpy}.

(** X2.  The determinant of [asarray] is the product of the two scales
    times [cos^2 + sin^2] of the angle: the shear does not enter, and the
    matrix is singular exactly when that product vanishes. *)
Theorem asarray_determinant (t : AffineTransform) :
  det (asarray t)
  == scale0 t * scale1 t
     * (cos (angle t) * cos (angle t) + sin (angle t) * sin (angle t)).
Proof.
  unfold det, asarray, matmul, scale_matrix, rotation_matrix, shear_matrix.
  simpl. ring.
Qed.

(** X3.  When the angle and the shear are zero (and the cosine and sine of
    zero are 1 and 0), the transform translates each point and then scales
    each coordinate; in particular the default transform maps every point
    to itself. *)
Theorem axis_aligned_transform (t : AffineTransform) (x : list Point) :
  cos 0 == 1 -> sin 0 == 0 -> angle t = 0 -> shear t = 0 ->
  Forall2 Peq (call t x)
    (map (fun p => (scale0 t * (fst p + t0 t), scale1 t * (snd p + t1 t))) x)
  /\ Forall2 Peq (call AffineTransform_default x) x.
Proof.
  intros Hc Hs Ha Hsh. split.
  - unfold call. induction x as [|p x IH]; simpl; constructor; [| exact IH].
    unfold Peq, rowmul, asarray, matmul, scale_matrix, rotation_matrix,
      shear_matrix; simpl. rewrite Ha, Hsh, Hc, Hs. split; ring.
  - unfold call. induction x as [|p x IH]; simpl; constructor; [| exact IH].
    unfold Peq, rowmul, asarray, matmul, scale_matrix, rotation_matrix,
      shear_matrix; simpl. rewrite Hc, Hs. split; ring.
Qed.

End Affine.

Lemma axis_aligned_transform_witness :
  Forall2 Peq
    (call (numpy := Samples.numpy) (mkAffine 1 2 3 4 0 0) [(5, 6)])
    [(3 * (5 + 1), 4 * (6 + 2))]
  /\ Forall2 Peq
       (call (numpy := Samples.numpy) AffineTransform_default [(5, 6)])
       [(5, 6)].
Proof.
  apply (@axis_aligned_transform Samples.numpy (mkAffine 1 2 3 4 0 0)
           [(5, 6)]); reflexivity.
Defined.

Section Ransac.

Context {numpy : Numpy} {scipy : Scipy} {randomizer : Randomizer}.

Lemma cost_ltb_trans a b c :
  cost_ltb a b = true -> cost_ltb b c = true -> cost_ltb a c = true.
Proof.
  destruct a as [x|], b as [y|], c as [z|]; simpl; try congruence.
  rewrite !Qltb_lt. intros; lra.
Qed.

(** The loop either leaves both variables alone or ends with a strictly
    smaller fitness. *)
Lemma ransac_loop_unchanged_or_improved
  positions0 positions1 max_error min_consensus draws :
  forall transform best,
    ransac_loop positions0 positions1 max_error min_consensus draws
      transform best = (transform, best)
    \/ cost_ltb
         (snd (ransac_loop positions0 positions1 max_error min_consensus
                 draws transform best))
         best = true.
Proof.
  induction draws as [|subset rest IH]; intros transform best;
    [left; reflexivity |].
  cbn [ransac_loop]; cbv zeta.
  destruct (consensus _ min_consensus); [| apply IH].
  destruct (estimate_global_transformation _ _ _ _) as [cand fitness].
  destruct (cost_ltb fitness best) eqn:E; [| apply IH].
  right. destruct (IH cand fitness) as [-> | H]; [exact E |].
  eapply cost_ltb_trans; eassumption.
Qed.

(** X4.  The RANSAC estimate is either the input transform with cost
    +infinity, or comes with a finite cost: an infinite returned cost tells
    the caller that the transform is the one passed in. *)
Theorem ransac_unchanged_or_finite
  positions0 positions1 weights transform min_sample max_error min_consensus
  max_iter :
  estimate_global_transformation_ransac positions0 positions1 weights
    transform min_sample max_error min_consensus max_iter = (transform, Inf)
  \/ exists c,
       snd (estimate_global_transformation_ransac positions0 positions1
              weights transform min_sample max_error min_consensus max_iter)
       = Fin c.
Proof.
  unfold estimate_global_transformation_ransac.
  destruct (ransac_loop_unchanged_or_improved positions0 positions1 max_error
              min_consensus
              (choice (length positions0) (max_iter, min_sample))
              transform Inf) as [H | H]; [now left | right].
  destruct (snd _) as [c|]; [now exists c | discriminate].
Qed.

End Ransac.

Section Update.

Context {operator : Operator} {linalg : Linalg}.

Lemma Qsum_shifted (xs ys : list Q) (d : Q) :
  Forall2 (fun y x => y == x - d) ys xs ->
  Qsum ys == Qsum xs - Qlen xs * d.
Proof.
  induction 1 as [|y x ys xs H _ IH].
  - unfold Qlen; simpl. ring.
  - rewrite Qlen_cons. simpl. rewrite IH, H. ring.
Qed.

(** Shifting back by the difference of the means undoes a displacement
    that is the same for every entry. *)
Lemma shift_back (xs ys : list Q) (d : Q) :
  Forall2 (fun y x => y == x - d) ys xs ->
  Forall2 Qeq (map (fun y => y + (Qmean xs - Qmean ys)) ys) xs.
Proof.
  intros H.
  assert (Hmean : Qmean xs - Qmean ys == d \/ ys = []).
  { destruct ys as [|y ys]; [now right | left].
    assert (Hlen : Qlen (y :: ys) = Qlen xs).
    { unfold Qlen. now rewrite (Forall2_length H). }
    assert (Hpos : 0 < Qlen xs).
    { rewrite <- Hlen. apply Qlen_pos. discriminate. }
    unfold Qmean. rewrite (Qsum_shifted H), Hlen.
    set (n := Qlen xs) in *. field. intros H0. rewrite H0 in Hpos. lra. }
  destruct Hmean as [Hmean | ->]; [| inversion H; constructor].
  set (k := Qmean xs - Qmean ys) in *. clearbody k.
  induction H as [|y x ys xs Hyx _ IH]; simpl; constructor; [| exact IH].
  rewrite Hmean, Hyx. ring.
Qed.

Lemma map2_fst_displaced (scan grad : list Point) (step : Q) (d : Point) :
  length grad = length scan ->
  Forall (fun g => Peq (Pscale step g) d) grad ->
  Forall2 (fun y x => y == x - fst d)
    (map fst (map2 (fun p g => Psub p (Pscale step g)) scan grad))
    (map fst scan)
  /\ Forall2 (fun y x => y == x - snd d)
       (map snd (map2 (fun p g => Psub p (Pscale step g)) scan grad))
       (map snd scan).
Proof.
  revert grad. induction scan as [|p scan IH]; intros [|g grad] Hlen Hd;
    simpl in *; try discriminate; [split; constructor |].
  inversion Hd as [|? ? [H1 H2] Hd']; subst.
  destruct (IH grad ltac:(congruence) Hd') as [IH1 IH2].
  split; constructor; simpl in *; try assumption; [rewrite H1 | rewrite H2];
    reflexivity.
Qed.

Lemma Forall2_Peq_of_components (l l' : list Point) :
  Forall2 Qeq (map fst l) (map fst l') ->
  Forall2 Qeq (map snd l) (map snd l') ->
  Forall2 Peq l l'.
Proof.
  revert l'. induction l as [|p l IH]; intros [|p' l'] H1 H2; simpl in *;
    inversion H1; inversion H2; subst; constructor.
  - now split.
  - now apply IH.
Qed.

Lemma recenter_undoes_common_displacement
  (scan grad : list Point) (step : Q) (d : Point) :
  length grad = length scan ->
  Forall (fun g => Peq (Pscale step g) d) grad ->
  Forall2 Peq (recenter scan step grad) scan.
Proof.
  intros Hlen Hd. unfold recenter.
  destruct (@map2_fst_displaced scan grad step d Hlen Hd) as [H1 H2].
  apply Forall2_Peq_of_components.
  - rewrite PositionFacts.map_fst_Padd. apply (shift_back H1).
  - rewrite PositionFacts.map_snd_Padd. apply (shift_back H2).
Qed.

(** X5.  A displacement common to all positions is cancelled: when the
    step times the gradient is the same vector at every position (a zero
    step, or a gradient that only translates the whole scan), the scan
    that [update_positions_pd] returns is the input scan. *)
Theorem update_positions_pd_cancels_common_displacement
  data psi probe (scan : list Point) dx step (d : Point) scan' c :
  Forall (fun g => Peq (Pscale step g) d)
         (position_gradient data psi probe scan dx) ->
  update_positions_pd data psi probe scan dx step = Ok (scan', c) ->
  Forall2 Peq scan' scan.
Proof.
  intros Hd. unfold update_positions_pd.
  destruct (check_allowed_positions _ _ _); simpl; [| discriminate].
  intros H. injection H as <- _.
  apply recenter_undoes_common_displacement with (d := d); [| exact Hd].
  apply PositionFacts.length_position_gradient.
Qed.

(** X6.  A scan returned by [update_positions_pd] has as many positions as
    the input, every one of them accepted by [check_allowed_positions],
    and the cost reported with it is the operator's cost at that scan. *)
Theorem update_positions_pd_postcondition
  data psi probe (scan : list Point) dx step scan' c :
  update_positions_pd data psi probe scan dx step = Ok (scan', c) ->
  length scan' = length scan
  /\ Forall (allowed psi (probe_shape probe)) scan'
  /\ check_allowed_positions scan' psi (probe_shape probe) = Ok tt
  /\ c = cost data psi scan' probe.
Proof.
  unfold update_positions_pd.
  destruct (check_allowed_positions _ _ _) as [[]|e] eqn:E; simpl;
    [| discriminate].
  intros H. injection H as <- <-.
  split; [| split; [| split]].
  - unfold recenter. rewrite length_map, length_map2;
      [reflexivity | now rewrite PositionFacts.length_position_gradient].
  - now apply PositionFacts.check_allowed_positions_ok.
  - exact E.
  - reflexivity.
Qed.

End Update.

Lemma update_positions_pd_cancels_common_displacement_witness :
  Forall2 Peq
    [(64000 # 32000, 64000 # 32000); (128000 # 32000, 128000 # 32000)]
    Samples.scan.
Proof.
  apply (@update_positions_pd_cancels_common_displacement
           Samples.operator Samples.linalg [[20]; [20]] Samples.psi
           Samples.probe Samples.scan (-1) (1 # 20) (1, 1) _ 0).
  - repeat constructor.
  - vm_compute. reflexivity.
Defined.

Lemma update_positions_pd_postcondition_witness :
  length [(32000 # 32000, 32000 # 32000); (160000 # 32000, 160000 # 32000)]
  = length Samples.scan
  /\ Forall (allowed Samples.psi (probe_shape Samples.probe))
       [(32000 # 32000, 32000 # 32000); (160000 # 32000, 160000 # 32000)]
  /\ check_allowed_positions
       [(32000 # 32000, 32000 # 32000); (160000 # 32000, 160000 # 32000)]
       Samples.psi (probe_shape Samples.probe) = Ok tt
  /\ 0 = cost (Operator := Samples.operator) Samples.data Samples.psi
           [(32000 # 32000, 32000 # 32000); (160000 # 32000, 160000 # 32000)]
           Samples.probe.
Proof.
  apply (@update_positions_pd_postcondition Samples.operator Samples.linalg
           Samples.data Samples.psi Samples.probe Samples.scan (-1) (1 # 20)).
  vm_compute. reflexivity.
Defined.

Section Options.

Lemma length_put {A} (x : list A) (indices : list nat) (src : list A) :
  length (put x indices src) = length x.
Proof.
  unfold put. revert x.
  induction (combine indices src) as [|[i a] l IH]; intros x; simpl;
    [reflexivity |].
  rewrite IH. apply ProbeFacts.length_set_nth.
Qed.

Lemma put_cons {A} (x : list A) i indices a src :
  put x (i :: indices) (a :: src) = put (Probe.set_nth i a x) indices src.
Proof. reflexivity. Qed.

Lemma set_nth_same {A} (i : nat) (d : A) (x : list A) :
  Probe.set_nth i (nth i x d) x = x.
Proof.
  revert i. induction x as [|h t IH]; intros [|i]; simpl; try reflexivity.
  now rewrite IH.
Qed.

(** Writing back what was read changes nothing. *)
Lemma put_take {A} (d : A) (x : list A) (indices : list nat) :
  put x indices (take d x indices) = x.
Proof.
  induction indices as [|i indices IH]; [reflexivity |].
  unfold take. cbn [map]. rewrite put_cons, set_nth_same. exact IH.
Qed.

(** Rows that are not written keep their content. *)
Lemma nth_put_other {A} (d : A) (indices : list nat) :
  forall (x src : list A) (i : nat),
    ~ In i indices -> nth i (put x indices src) d = nth i x d.
Proof.
  induction indices as [|j indices IH]; intros x src i Hin; [reflexivity |].
  destruct src as [|a src]; [reflexivity |].
  rewrite put_cons, IH by (intros H; apply Hin; now right).
  apply ProbeFacts.nth_set_nth_ne. intros ->. apply Hin. now left.
Qed.

(** Reading back what was written to distinct rows returns it. *)
Lemma take_put {A} (d : A) (indices : list nat) :
  forall (x src : list A),
    NoDup indices -> Forall (fun i => (i < length x)%nat) indices ->
    length src = length indices ->
    take d (put x indices src) indices = src.
Proof.
  induction indices as [|i indices IH]; intros x [|a src] Hnd Hr Hl;
    simpl in Hl; try discriminate; [reflexivity |].
  inversion Hnd as [|? ? Hi Hnd']; subst.
  inversion Hr as [|? ? Hi' Hr']; subst.
  rewrite put_cons. unfold take. cbn [map]. f_equal.
  - rewrite nth_put_other by assumption.
    now apply ProbeFacts.nth_set_nth_eq.
  - apply IH; [assumption | | congruence].
    eapply Forall_impl; [| exact Hr'].
    intros k Hk. now rewrite ProbeFacts.length_set_nth.
Qed.

Lemma length_take {A} (d : A) (x : list A) (indices : list nat) :
  length (take d x indices) = length indices.
Proof. apply length_map. Qed.

Lemma with_arrays_self (self : PositionOptions) :
  with_arrays self (initial_scan self) (confidence self) (_momentum self)
  = self.
Proof. now destruct self. Qed.

(** On aligned options the momentum is there whenever it is used. *)
Lemma momentum_if_used_aligned (self : PositionOptions) :
  aligned self -> momentum_if_used self = Returns (_momentum self).
Proof.
  unfold aligned, momentum_if_used. intros [_ H].
  destruct (_momentum self) as [m|]; [destruct H as [-> _] | rewrite H];
    reflexivity.
Qed.

Lemma aligned_init scan flag vd md reg pw pv t :
  aligned (PositionOptions_init scan flag vd md reg pw pv t None).
Proof.
  unfold aligned, PositionOptions_init; simpl. rewrite length_map.
  split; [reflexivity |]. destruct flag; [| reflexivity].
  now rewrite length_map.
Qed.

(** X7.  The arrays stay aligned along the position axis: the constructor
    (with its default confidence) and [empty] produce aligned options, and
    on aligned options [append] returns aligned options with
    [N + len(new_scan)] positions, [split] at indices below [N] returns
    aligned options with [len(indices)] positions, and [insert] at indices
    below [N], of options with one row per index, returns aligned options
    with [N] positions.  (At an index that is not below [N], or with another
    number of rows, the array library raises.) *)
Theorem methods_keep_alignment
  (self other : PositionOptions) (indices : list nat) (new_scan : list Point)
  (scan : list Point) :
  aligned self -> aligned other ->
  use_adaptive_moment other = use_adaptive_moment self ->
  aligned (PositionOptions_init scan (use_adaptive_moment self) (vdecay self)
             (mdecay self) (use_position_regularization self)
             (penalty_weight self) (penalty_variance self) (transform self)
             None)
  /\ aligned (empty self)
  /\ (exists r, append self new_scan = Returns r /\ aligned r
        /\ length (initial_scan r)
           = (length (initial_scan self) + length new_scan)%nat)
  /\ (Forall (fun i => (i < length (initial_scan self))%nat) indices ->
      exists r, split self indices = Returns r /\ aligned r
        /\ length (initial_scan r) = length indices)
  /\ (Forall (fun i => (i < length (initial_scan self))%nat) indices ->
      length (initial_scan other) = length indices ->
      exists r, insert self other indices = Returns r /\ aligned r
        /\ length (initial_scan r) = length (initial_scan self)).
Proof.
  intros Hs Ho Hflag.
  pose proof (momentum_if_used_aligned Hs) as Hm.
  destruct Hs as [Hc Hmom]. destruct Ho as [Hc' Hmom'].
  split; [apply aligned_init |].
  split.
  { unfold empty. destruct (use_adaptive_moment self) eqn:E.
    - split; [reflexivity | split; reflexivity].
    - rewrite <- E at 1. unfold PositionOptions_init, aligned. simpl.
      rewrite E. split; reflexivity. }
  split.
  { unfold append. rewrite Hm. simpl. eexists. split; [reflexivity |].
    unfold aligned; simpl. rewrite !length_app, !length_map.
    split; [split; [now rewrite Hc |] | reflexivity].
    destruct (_momentum self) as [m|]; [| exact Hmom].
    destruct Hmom as [Hf Hl]. split; [exact Hf |].
    rewrite length_app, length_map. f_equal. exact Hl. }
  split.
  { intros _. unfold split. rewrite Hm. simpl.
    destruct (_momentum self) as [m|]; eexists; (split; [reflexivity |]);
      unfold aligned; simpl; rewrite !length_take.
    - destruct Hmom as [Hf _]. auto.
    - rewrite Hmom. auto. }
  intros _ _. unfold insert. rewrite Hm. simpl.
  destruct (_momentum self) as [m|].
  - destruct Hmom as [Hf Hl].
    destruct (_momentum other) as [m'|]; [| congruence].
    eexists. split; [reflexivity |]. unfold aligned; simpl.
    rewrite !length_put. auto.
  - eexists. split; [reflexivity |]. unfold aligned; simpl.
    rewrite !length_put. auto.
Qed.

Lemma sample_options_aligned :
  aligned OptionSamples.options3 /\ aligned OptionSamples.options2.
Proof. repeat split. Qed.

Lemma methods_keep_alignment_witness :
  aligned (empty OptionSamples.options3)
  /\ (exists r,
        split OptionSamples.options3 [0; 2]%nat = Returns r
        /\ aligned r /\ length (initial_scan r) = 2%nat)
  /\ exists r,
       insert OptionSamples.options3 OptionSamples.options2 [0; 2]%nat
       = Returns r
       /\ aligned r /\ length (initial_scan r) = 3%nat.
Proof.
  destruct (@methods_keep_alignment OptionSamples.options3
              OptionSamples.options2 [0; 2]%nat [(5, 5)] [(6, 6)]
              (proj1 sample_options_aligned) (proj2 sample_options_aligned)
              eq_refl) as (_ & He & _ & Hsp & Hi).
  split; [exact He |].
  split.
  - apply Hsp. repeat constructor.
  - apply Hi; [repeat constructor | reflexivity].
Defined.

(** X8.  Splitting off some positions and inserting them back at the same
    indices gives the options back unchanged. *)
Theorem insert_split_roundtrip (self : PositionOptions) (indices : list nat) :
  aligned self ->
  Forall (fun i => (i < length (initial_scan self))%nat) indices ->
  exists part,
    split self indices = Returns part
    /\ insert self part indices = Returns self.
Proof.
  intros [_ Hs] _.
  destruct self as [sc fl vd md rg pw pv tr cf [m|]];
    unfold split, insert, momentum_if_used; simpl in *.
  - destruct Hs as [-> _]. simpl. eexists. split; [reflexivity |].
    simpl. unfold with_arrays; simpl. now rewrite !put_take.
  - rewrite Hs. simpl. eexists. split; [reflexivity |].
    simpl. unfold with_arrays; simpl. now rewrite !put_take.
Qed.

Lemma insert_split_roundtrip_witness :
  exists part,
    split OptionSamples.options3 [0; 2]%nat = Returns part
    /\ insert OptionSamples.options3 part [0; 2]%nat
       = Returns OptionSamples.options3.
Proof.
  apply (@insert_split_roundtrip OptionSamples.options3 [0; 2]%nat).
  - exact (proj1 sample_options_aligned).
  - repeat constructor.
Defined.

(** X9.  Inserting the arrays of [other] at distinct indices and splitting
    the same indices off again returns the arrays of [other], and the
    positions outside the indices keep what they had. *)
Theorem split_insert_roundtrip
  (self other : PositionOptions) (indices : list nat) :
  aligned self -> aligned other ->
  use_adaptive_moment other = use_adaptive_moment self ->
  NoDup indices ->
  Forall (fun i => (i < length (initial_scan self))%nat) indices ->
  length (initial_scan other) = length indices ->
  exists r part,
    insert self other indices = Returns r
    /\ split r indices = Returns part
    /\ initial_scan part = initial_scan other
    /\ confidence part = confidence other
    /\ _momentum part = _momentum other
    /\ forall i, ~ In i indices ->
         nth i (initial_scan r) (0, 0) = nth i (initial_scan self) (0, 0)
         /\ nth i (confidence r) 0 = nth i (confidence self) 0.
Proof.
  intros Hs Ho Hflag Hnd Hr Hl.
  pose proof (momentum_if_used_aligned Hs) as Hm.
  destruct Hs as [Hc Hmom]. destruct Ho as [Hc' Hmom'].
  assert (Hrc : Forall (fun i => (i < length (confidence self))%nat) indices)
    by now rewrite Hc.
  unfold insert. rewrite Hm. simpl.
  destruct (_momentum self) as [m|].
  - destruct Hmom as [Hf Hlm].
    destruct (_momentum other) as [m'|] eqn:E'; [| congruence].
    destruct Hmom' as [_ Hlm'].
    assert (Hrm : Forall (fun i => (i < length m)%nat) indices)
      by now rewrite Hlm.
    eexists; eexists. split; [reflexivity |].
    unfold split, momentum_if_used; simpl. rewrite Hf. simpl.
    split; [reflexivity |]. simpl.
    rewrite !take_put; try assumption; try congruence.
    repeat split; try reflexivity; now apply nth_put_other.
  - destruct (_momentum other) as [m'|] eqn:E'; [destruct Hmom'; congruence |].
    eexists; eexists. split; [reflexivity |].
    unfold split, momentum_if_used; simpl. rewrite Hmom. simpl.
    split; [reflexivity |]. simpl.
    rewrite !take_put; try assumption; try congruence.
    repeat split; try reflexivity; now apply nth_put_other.
Qed.

Lemma split_insert_roundtrip_witness :
  exists r part,
    insert OptionSamples.options3 OptionSamples.options2 [2; 0]%nat
    = Returns r
    /\ split r [2; 0]%nat = Returns part
    /\ initial_scan part = [(7, 7); (8, 8)]
    /\ confidence part = [1 # 2; 1 # 4]
    /\ nth 1 (initial_scan r) (0, 0) = (2, 2).
Proof.
  destruct (@split_insert_roundtrip OptionSamples.options3
              OptionSamples.options2 [2; 0]%nat
              (proj1 sample_options_aligned) (proj2 sample_options_aligned)
              eq_refl)
    as (r & part & Hi & Hs & Hsc & Hcf & _ & Hrest).
  - repeat constructor; simpl; intuition lia.
  - repeat constructor.
  - reflexivity.
  - exists r, part. repeat split; try assumption.
    apply (Hrest 1%nat). simpl. intuition lia.
Defined.

End Options.

Section OptionsMore.

Context {uninitialized : Uninitialized}.

Lemma list_max_bound (indices : list nat) :
  Forall (fun i => (i < list_max indices + 1)%nat) indices.
Proof.
  assert (H : Forall (fun k => (k <= list_max indices)%nat) indices)
    by (apply list_max_le; lia).
  eapply Forall_impl; [| exact H]. intros k Hk. simpl in Hk. lia.
Qed.

Lemma length_grow {A} (fresh : nat -> A) (old : list A) (n : nat) :
  (length old <= n)%nat -> length (grow fresh old n) = n.
Proof.
  intros H. unfold grow. rewrite length_app, length_map, length_seq. lia.
Qed.

Lemma nth_grow_old {A} (fresh : nat -> A) (old : list A) (n i : nat) (d : A) :
  (i < length old)%nat -> nth i (grow fresh old n) d = nth i old d.
Proof. intros H. unfold grow. now apply app_nth1. Qed.

Lemma nth_grow_new {A} (fresh : nat -> A) (old : list A) (n i : nat) (d : A) :
  (length old <= i < n)%nat -> nth i (grow fresh old n) d = fresh i.
Proof.
  intros H. unfold grow. rewrite app_nth2 by lia.
  rewrite nth_indep with (d' := fresh 0%nat)
    by (rewrite length_map, length_seq; lia).
  rewrite map_nth, seq_nth by lia. f_equal. lia.
Qed.

Lemma Forall_lt_le (indices : list nat) (n k : nat) :
  (n <= k)%nat -> Forall (fun i => (i < n)%nat) indices ->
  Forall (fun i => (i < k)%nat) indices.
Proof.
  intros Hnk H. eapply Forall_impl; [| exact H]. intros i Hi. simpl in Hi. lia.
Qed.

(** X10.  [join] of an empty index array raises [ValueError].  Otherwise,
    for distinct indices, it returns aligned options with
    [max(indices.max() + 1, N)] positions; splitting the indices off again
    returns the arrays of [other]; the old positions outside the indices
    keep what they had; and a position that is neither old nor among the
    indices holds whatever [np.empty] left there. *)
Theorem join_places_other
  (self other : PositionOptions) (indices : list nat) :
  aligned self -> aligned other ->
  use_adaptive_moment other = use_adaptive_moment self ->
  NoDup indices -> indices <> [] ->
  length (initial_scan other) = length indices ->
  join self other [] = Throws (Builtin ValueError)
  /\ exists r part,
       join self other indices = Returns r
       /\ aligned r
       /\ length (initial_scan r)
          = Nat.max (list_max indices + 1) (length (initial_scan self))
       /\ split r indices = Returns part
       /\ initial_scan part = initial_scan other
       /\ confidence part = confidence other
       /\ _momentum part = _momentum other
       /\ (forall i, (i < length (initial_scan self))%nat -> ~ In i indices ->
             nth i (initial_scan r) (0, 0) = nth i (initial_scan self) (0, 0)
             /\ nth i (confidence r) 0 = nth i (confidence self) 0)
       /\ (forall i, (length (initial_scan self) <= i
                      < Nat.max (list_max indices + 1)
                          (length (initial_scan self)))%nat ->
             ~ In i indices ->
             nth i (initial_scan r) (0, 0) = empty_point i
             /\ nth i (confidence r) 0 = empty_number i).
Proof.
  intros Hs Ho Hflag Hnd Hne Hl.
  split; [reflexivity |].
  pose proof (momentum_if_used_aligned Hs) as Hm.
  destruct Hs as [Hc Hmom]. destruct Ho as [Hc' Hmom'].
  unfold join.
  destruct indices as [|i0 rest] eqn:Ei; [congruence |]. rewrite <- Ei in *.
  clear Ei i0 rest. rewrite Hm. cbn [and_then].
  set (n := Nat.max (list_max indices + 1) (length (initial_scan self))).
  assert (Hn : (length (initial_scan self) <= n)%nat) by (subst n; lia).
  assert (Hr : Forall (fun i => (i < n)%nat) indices).
  { apply Forall_lt_le with (n := (list_max indices + 1)%nat);
      [subst n; lia | apply list_max_bound]. }
  assert (Hgs : length (grow empty_point (initial_scan self) n) = n)
    by now apply length_grow.
  assert (Hgc : length (grow empty_number (confidence self) n) = n)
    by (apply length_grow; now rewrite Hc).
  assert (Hrs : Forall (fun i => (i < length (grow empty_point
                                     (initial_scan self) n))%nat) indices)
    by now rewrite Hgs.
  assert (Hrc : Forall (fun i => (i < length (grow empty_number
                                     (confidence self) n))%nat) indices)
    by now rewrite Hgc.
  assert (Hframe :
    (forall i, (i < length (initial_scan self))%nat -> ~ In i indices ->
       nth i (put (grow empty_point (initial_scan self) n) indices
                (initial_scan other)) (0, 0)
       = nth i (initial_scan self) (0, 0)
       /\ nth i (put (grow empty_number (confidence self) n) indices
                   (confidence other)) 0
          = nth i (confidence self) 0)
    /\ (forall i, (length (initial_scan self) <= i < n)%nat ->
          ~ In i indices ->
          nth i (put (grow empty_point (initial_scan self) n) indices
                   (initial_scan other)) (0, 0) = empty_point i
          /\ nth i (put (grow empty_number (confidence self) n) indices
                      (confidence other)) 0 = empty_number i)).
  { split; intros i Hi Hin; rewrite !nth_put_other by assumption.
    - split; apply nth_grow_old; [| rewrite Hc]; exact Hi.
    - split; apply nth_grow_new; [| rewrite Hc]; exact Hi. }
  destruct Hframe as [Hold Hnew].
  destruct (_momentum self) as [m|].
  - destruct Hmom as [Hf Hlm].
    destruct (_momentum other) as [m'|] eqn:E'; [| congruence].
    destruct Hmom' as [_ Hlm'].
    assert (Hgm : length (grow empty_row4 m n) = n)
      by (apply length_grow; unfold Row4; now rewrite Hlm).
    assert (Hrm : Forall (fun i => (i < length (grow empty_row4 m n))%nat)
                    indices) by now rewrite Hgm.
    eexists; eexists. split; [reflexivity |].
    split.
    { unfold aligned; simpl. unfold Row4 in *.
      rewrite !length_put, Hgs, Hgc, Hgm. auto. }
    split; [simpl; now rewrite length_put |].
    unfold split, momentum_if_used; simpl. rewrite Hf. simpl.
    split; [reflexivity |]. simpl.
    rewrite !take_put; try assumption; try congruence.
    repeat split; try reflexivity; try apply Hold; try apply Hnew;
      assumption.
  - destruct (_momentum other) as [m'|] eqn:E'; [destruct Hmom'; congruence |].
    eexists; eexists. split; [reflexivity |].
    split.
    { unfold aligned; simpl. rewrite !length_put, Hgs, Hgc. auto. }
    split; [simpl; now rewrite length_put |].
    unfold split, momentum_if_used; simpl. rewrite Hmom. simpl.
    split; [reflexivity |]. simpl.
    rewrite !take_put; try assumption; try congruence.
    repeat split; try reflexivity; try apply Hold; try apply Hnew;
      assumption.
Qed.

End OptionsMore.

Lemma join_places_other_witness :
  exists r,
    join (uninitialized := OptionSamples.uninitialized)
      OptionSamples.options3 OptionSamples.options2 [4; 1]%nat = Returns r
    /\ length (initial_scan r) = 5%nat
    /\ nth 0 (initial_scan r) (0, 0) = (1, 1)
    /\ nth 3 (initial_scan r) (0, 0) = (inject_Z 3 + 100, inject_Z 3 + 100).
Proof.
  destruct (@join_places_other OptionSamples.uninitialized
              OptionSamples.options3 OptionSamples.options2 [4; 1]%nat
              (proj1 sample_options_aligned) (proj2 sample_options_aligned)
              eq_refl)
    as (_ & r & part & Hj & _ & Hlen & _ & _ & _ & _ & Hold & Hnew).
  - repeat constructor; simpl; intuition lia.
  - discriminate.
  - reflexivity.
  - exists r. repeat split; try assumption.
    + apply (Hold 0%nat); simpl; intuition lia.
    + apply (Hnew 3%nat); simpl; intuition lia.
Defined.

Section OptionsViews.

Lemma take_seq_middle {A} (d : A) (a b : list A) :
  forall pre : list A,
    take d (pre ++ a ++ b) (seq (length pre) (length a)) = a.
Proof.
  induction a as [|x a IH]; intros pre; [reflexivity |].
  unfold take. cbn [length seq map app]. f_equal.
  - apply nth_middle.
  - specialize (IH (pre ++ [x])).
    rewrite <- app_assoc, length_app in IH. cbn [length app] in IH.
    replace (length pre + 1)%nat with (S (length pre)) in IH by lia.
    exact IH.
Qed.

Lemma take_seq_front {A} (d : A) (a b : list A) :
  take d (a ++ b) (seq 0 (length a)) = a.
Proof. apply (take_seq_middle d a b []). Qed.

Lemma take_seq_back {A} (d : A) (a b : list A) :
  take d (a ++ b) (seq (length a) (length b)) = b.
Proof.
  pose proof (take_seq_middle d b [] a) as H.
  now rewrite app_nil_r in H.
Qed.

(** X11.  After [append], splitting off the first [N] positions gives the
    arrays the options had before, and splitting off the others gives the
    new positions with confidence one and, when momentum is used, zero
    momentum. *)
Theorem append_then_split (self : PositionOptions) (new_scan : list Point) :
  aligned self ->
  exists r old new,
    append self new_scan = Returns r
    /\ split r (seq 0 (length (initial_scan self))) = Returns old
    /\ split r (seq (length (initial_scan self)) (length new_scan))
       = Returns new
    /\ initial_scan old = initial_scan self
    /\ confidence old = confidence self
    /\ _momentum old = _momentum self
    /\ initial_scan new = new_scan
    /\ confidence new = map (fun _ => 1) new_scan
    /\ _momentum new
       = if use_adaptive_moment self
         then Some (map (fun _ => (0, 0, 0, 0)) new_scan)
         else None.
Proof.
  intros [Hc Hmom].
  destruct self as [sc fl vd md rg pw pv tr cf [m|]];
    unfold append, split, momentum_if_used; simpl in *.
  - destruct Hmom as [-> Hl]. simpl.
    eexists; eexists; eexists.
    repeat (split; [reflexivity |]). simpl.
    rewrite !take_seq_front.
    rewrite <- Hc at 1. rewrite take_seq_front.
    rewrite <- Hl at 1. rewrite take_seq_front.
    repeat (split; [reflexivity |]).
    rewrite take_seq_back.
    pose proof (take_seq_back 0 cf (map (fun _ : Point => 1) new_scan)) as H1.
    rewrite length_map, Hc in H1.
    pose proof (take_seq_back (0, 0, 0, 0) m
                  (map (fun _ : Point => (0, 0, 0, 0)) new_scan)) as H2.
    rewrite length_map in H2. unfold Row4 in *. rewrite Hl in H2.
    rewrite H1, H2. auto.
  - rewrite Hmom. simpl.
    eexists; eexists; eexists.
    repeat (split; [reflexivity |]). simpl.
    rewrite !take_seq_front.
    rewrite <- Hc at 1. rewrite take_seq_front.
    repeat (split; [reflexivity |]).
    rewrite take_seq_back.
    pose proof (take_seq_back 0 cf (map (fun _ : Point => 1) new_scan)) as H1.
    rewrite length_map, Hc in H1.
    rewrite H1. auto.
Qed.

Lemma append_then_split_witness :
  exists r new,
    append OptionSamples.options3 [(9, 9)] = Returns r
    /\ split r [3]%nat = Returns new
    /\ initial_scan new = [(9, 9)]
    /\ confidence new = [1]
    /\ _momentum new = Some [(0, 0, 0, 0)].
Proof.
  destruct (@append_then_split OptionSamples.options3 [(9, 9)]
              (proj1 sample_options_aligned))
    as (r & old & new & Ha & _ & Hs & _ & _ & _ & Hsc & Hcf & Hm).
  exists r, new. repeat split; assumption.
Defined.

Lemma map2_set_v (mom : list Row4) :
  forall x : list Point,
    length x = length mom ->
    map (fun r : Row4 => (fst (fst (fst r)), snd (fst (fst r))))
        (map2 (fun (r : Row4) (p : Point) => (fst p, snd p, snd (fst r), snd r))
              mom x) = x
    /\ map (fun r : Row4 => (snd (fst r), snd r))
         (map2 (fun (r : Row4) (p : Point) =>
                  (fst p, snd p, snd (fst r), snd r)) mom x)
       = map (fun r : Row4 => (snd (fst r), snd r)) mom.
Proof.
  induction mom as [|r mom IH]; intros [|[p q] x] Hl; simpl in Hl;
    try discriminate; [split; reflexivity |].
  destruct (IH x) as [H1 H2]; [congruence |].
  cbn [map2 map fst snd]. now rewrite H1, H2.
Qed.

Lemma map2_set_m (mom : list Row4) :
  forall x : list Point,
    length x = length mom ->
    map (fun r : Row4 => (snd (fst r), snd r))
        (map2 (fun (r : Row4) (p : Point) =>
                 (fst (fst (fst r)), snd (fst (fst r)), fst p, snd p))
              mom x) = x
    /\ map (fun r : Row4 => (fst (fst (fst r)), snd (fst (fst r))))
         (map2 (fun (r : Row4) (p : Point) =>
                  (fst (fst (fst r)), snd (fst (fst r)), fst p, snd p)) mom x)
       = map (fun r : Row4 => (fst (fst (fst r)), snd (fst (fst r)))) mom.
Proof.
  induction mom as [|r mom IH]; intros [|[p q] x] Hl; simpl in Hl;
    try discriminate; [split; reflexivity |].
  destruct (IH x) as [H1 H2]; [congruence |].
  cbn [map2 map fst snd]. now rewrite H1, H2.
Qed.

(** X12.  The properties [v] and [m] are two disjoint views of the
    momentum.  With momentum in use, what is assigned to [v] is what [v]
    then returns while [m] is unchanged, and the same with the two
    exchanged; without it, reading or assigning either raises
    [AttributeError]. *)
Theorem momentum_views (self : PositionOptions) (x : list Point) :
  aligned self ->
  length x = length (initial_scan self) ->
  if use_adaptive_moment self then
    exists v0 m0 r1 r2,
      get_v self = Returns v0 /\ get_m self = Returns m0
      /\ set_v self x = Returns r1
      /\ get_v r1 = Returns x /\ get_m r1 = Returns m0 /\ aligned r1
      /\ set_m self x = Returns r2
      /\ get_m r2 = Returns x /\ get_v r2 = Returns v0 /\ aligned r2
  else
    get_v self = Throws AttributeError /\ get_m self = Throws AttributeError
    /\ set_v self x = Throws AttributeError
    /\ set_m self x = Throws AttributeError.
Proof.
  intros [Hc Hmom] Hx.
  destruct self as [sc fl vd md rg pw pv tr cf [m|]];
    unfold get_v, get_m, set_v, set_m, aligned; simpl in *.
  - destruct Hmom as [-> Hl].
    assert (Hxm : length x = length m) by congruence.
    destruct (map2_set_v m x Hxm) as [V1 V2].
    destruct (map2_set_m m x Hxm) as [M1 M2].
    unfold Row4, Point in *.
    do 4 eexists.
    do 3 (split; [reflexivity |]).
    unfold with_arrays; cbn [_momentum initial_scan confidence
                               use_adaptive_moment].
    rewrite V1, V2, length_map2 by congruence.
    do 2 (split; [reflexivity |]).
    split; [repeat split; assumption |].
    split; [reflexivity |].
    cbn [_momentum initial_scan confidence use_adaptive_moment].
    rewrite M1, M2, length_map2 by congruence.
    repeat split; assumption.
  - rewrite Hmom. repeat split; reflexivity.
Qed.

Lemma momentum_views_witness :
  exists r1,
    set_v OptionSamples.options3 [(1, 2); (3, 4); (5, 6)] = Returns r1
    /\ get_v r1 = Returns [(1, 2); (3, 4); (5, 6)]
    /\ get_m r1 = Returns [(0, 0); (0, 0); (0, 0)].
Proof.
  pose proof (@momentum_views OptionSamples.options3
                [(1, 2); (3, 4); (5, 6)]
                (proj1 sample_options_aligned) eq_refl) as H.
  cbv beta iota delta [use_adaptive_moment OptionSamples.options3
                         PositionOptions_init] in H.
  destruct H as (v0 & m0 & r1 & r2 & _ & Hm0 & Hs & Hv & Hm & _).
  exists r1. repeat split; try assumption.
  rewrite Hm, <- Hm0. reflexivity.
Defined.

End OptionsViews.

End PositionMoreFacts.

(** * Facts about solvers/options.py *)

Module SolverOptionsFacts.

Import Position PositionMore SolverOptions.

Section PostInit.

(** X13.  [PtychoParameters.__post_init__] accepts exactly the parameters
    with at least one scan position, at least one probe, a square probe
    grid of side at least one, and every position accepted by
    [check_allowed_positions]; the test that the object is larger than the
    probe adds nothing to these.  Accepted parameters have an object at
    least two pixels larger than the probe along both axes. *)
Theorem post_init_accepts_iff (probe : Probe) (psi : Psi) (scan : list Point) :
  let ps := probe_shape probe in
  (PtychoParameters_post_init probe psi scan = Ok tt
   <-> (1 <= length scan)%nat /\ (1 <= fst ps)%nat
       /\ (1 <= fst (snd ps))%Z /\ fst (snd ps) = snd (snd ps)
       /\ Forall (allowed psi ps) scan)
  /\ (PtychoParameters_post_init probe psi scan = Ok tt ->
      (fst (snd ps) + 2 <= fst (shape2 psi))%Z
      /\ (snd (snd ps) + 2 <= snd (shape2 psi))%Z).
Proof.
  intros ps.
  assert (Hbig : (1 <= length scan)%nat -> Forall (allowed psi ps) scan ->
                 (fst (snd ps) + 2 <= fst (shape2 psi))%Z
                 /\ (snd (snd ps) + 2 <= snd (shape2 psi))%Z).
  { intros Hn Hall. destruct scan as [|p scan]; [simpl in Hn; lia |].
    inversion Hall as [|? ? (H1 & H2 & H3 & H4) _]; subst.
    assert (A1 : 1 < inject_Z (fst (shape2 psi) - fst (snd ps))) by lra.
    assert (A2 : 1 < inject_Z (snd (shape2 psi) - snd (snd ps))) by lra.
    change 1 with (inject_Z 1) in A1, A2.
    rewrite <- Zlt_Qlt in A1, A2. lia. }
  assert (Hiff : PtychoParameters_post_init probe psi scan = Ok tt
                 <-> (1 <= length scan)%nat /\ (1 <= fst ps)%nat
                     /\ (1 <= fst (snd ps))%Z /\ fst (snd ps) = snd (snd ps)
                     /\ Forall (allowed psi ps) scan).
  { unfold PtychoParameters_post_init, scan_shape_incorrect,
      probe_shape_incorrect, psi_shape_incorrect. fold ps. cbv zeta.
    destruct (Z.ltb_spec (Z.of_nat (length scan)) 1);
      [split; [discriminate | intros (? & _); lia] |].
    destruct (Z.ltb_spec (Z.of_nat (fst ps)) 1);
      [split; [discriminate | intros (_ & ? & _); lia] |].
    destruct (Z.ltb_spec (fst (snd ps)) 1);
      [split; [discriminate | intros (_ & _ & ? & _); lia] |].
    destruct (Z.ltb_spec (snd (snd ps)) 1);
      [split; [discriminate | intros (_ & _ & ? & ? & _); lia] |].
    destruct (Z.eqb_spec (fst (snd ps)) (snd (snd ps)));
      [| split; [discriminate | intros (_ & _ & _ & ? & _); lia]].
    cbn [orb negb].
    rewrite <- (PositionFacts.check_allowed_positions_ok scan psi ps).
    destruct (Z.leb_spec (fst (shape2 psi)) (fst (snd ps))) as [L1 | L1];
      [| destruct (Z.leb_spec (snd (shape2 psi)) (snd (snd ps))) as [L2 | L2]];
      cbn [orb].
    - split; [discriminate | intros (? & _ & _ & _ & Hall)].
      apply PositionFacts.check_allowed_positions_ok in Hall.
      destruct Hbig; [lia | assumption | lia].
    - split; [discriminate | intros (? & _ & _ & _ & Hall)].
      apply PositionFacts.check_allowed_positions_ok in Hall.
      destruct Hbig; [lia | assumption | lia].
    - split; [intros Hc; repeat split; try lia; assumption | tauto]. }
  split; [exact Hiff |].
  intros Hok. apply Hiff in Hok. destruct Hok as (Hn & _ & _ & _ & Hall).
  now apply Hbig.
Qed.

End PostInit.

Section Fourier.

Context {A : Type}.

Lemma assign_block_cons (x : list (list A)) r rows columns s src :
  assign_block x (r :: rows) columns (s :: src)
  = assign_block (Probe.set_nth r (put (nth r x []) columns s) x)
      rows columns src.
Proof. reflexivity. Qed.

Lemma length_assign_block (rows columns : list nat) :
  forall (x src : list (list A)),
    length (assign_block x rows columns src) = length x.
Proof.
  induction rows as [|r rows IH]; intros x [|s src]; try reflexivity.
  rewrite assign_block_cons, IH. apply ProbeFacts.length_set_nth.
Qed.

(** Rows that are not assigned keep their content. *)
Lemma nth_assign_block_other (rows columns : list nat) :
  forall (x src : list (list A)) (i : nat),
    ~ In i rows -> nth i (assign_block x rows columns src) [] = nth i x [].
Proof.
  induction rows as [|r rows IH]; intros x [|s src] i Hin; try reflexivity.
  rewrite assign_block_cons, IH by (intros H; apply Hin; now right).
  apply ProbeFacts.nth_set_nth_ne. intros ->. apply Hin. now left.
Qed.

(** Row [rows[a]] receives row [a] of the source in its columns. *)
Lemma nth_assign_block_at (columns : list nat) :
  forall (rows : list nat) (x src : list (list A)) (a : nat),
    NoDup rows -> (a < length rows)%nat -> length src = length rows ->
    (nth a rows 0 < length x)%nat ->
    nth (nth a rows 0%nat) (assign_block x rows columns src) []
    = put (nth (nth a rows 0%nat) x []) columns (nth a src []).
Proof.
  induction rows as [|r rows IH]; intros x [|s src] a Hnd Ha Hl Hr;
    simpl in Ha, Hl; try lia.
  inversion Hnd as [|? ? Hnotin Hnd']; subst.
  rewrite assign_block_cons. destruct a as [|a]; cbn [nth] in *.
  - rewrite nth_assign_block_other by assumption.
    now apply ProbeFacts.nth_set_nth_eq.
  - assert (Hne : nth a rows 0%nat <> r).
    { intros E. apply Hnotin. rewrite <- E. apply nth_In. lia. }
    rewrite IH; try assumption; try lia.
    + now rewrite ProbeFacts.nth_set_nth_ne by congruence.
    + now rewrite ProbeFacts.length_set_nth.
Qed.

Lemma Forall_set_nth (P : list A -> Prop) (v : list A) :
  forall (x : list (list A)) (i : nat),
    Forall P x -> ((i < length x)%nat -> P v) ->
    Forall P (Probe.set_nth i v x).
Proof.
  intros x i H. revert i.
  induction H as [|h t Hh Ht IH]; intros [|i] Hv; simpl in *;
    constructor; auto.
  - apply Hv. lia.
  - apply IH. intros Hi. apply Hv. lia.
Qed.

(** Assigning a block keeps the length of every row. *)
Lemma assign_block_row_lengths (w : nat) (rows columns : list nat) :
  forall (x src : list (list A)),
    Forall (fun row => length row = w) x ->
    Forall (fun row => length row = w) (assign_block x rows columns src).
Proof.
  induction rows as [|r rows IH]; intros x [|s src] H; try exact H.
  rewrite assign_block_cons. apply IH. apply Forall_set_nth; [exact H |].
  intros Hr. rewrite PositionMoreFacts.length_put.
  rewrite Forall_forall in H. apply H. now apply nth_In.
Qed.

Lemma NoDup_corner_indices (w half0 half1 : nat) :
  (half0 + half1 <= w)%nat -> NoDup (corner_indices w half0 half1).
Proof.
  intros H. unfold corner_indices.
  apply NoDup_app; try apply seq_NoDup.
  intros i H0 H1. apply in_seq in H0, H1. lia.
Qed.

Lemma corner_indices_in_range (w half0 half1 : nat) :
  (half0 + half1 <= w)%nat ->
  Forall (fun i => (i < w)%nat) (corner_indices w half0 half1).
Proof.
  intros H. unfold corner_indices. apply Forall_app.
  split; apply Forall_forall; intros i Hi; apply in_seq in Hi; lia.
Qed.

Lemma length_corner_indices (w half0 half1 : nat) :
  length (corner_indices w half0 half1) = (half0 + half1)%nat.
Proof. unfold corner_indices. now rewrite length_app, !length_seq. Qed.

Lemma nth_corner_indices (w half0 half1 a : nat) :
  (a < half0 + half1)%nat ->
  nth a (corner_indices w half0 half1) 0%nat
  = if (a <? half0)%nat then a else (w - half1 + (a - half0))%nat.
Proof.
  intros H. unfold corner_indices.
  destruct (Nat.ltb_spec a half0).
  - rewrite app_nth1 by (rewrite length_seq; lia). now rewrite seq_nth.
  - rewrite app_nth2 by (rewrite length_seq; lia).
    rewrite length_seq, seq_nth by lia. reflexivity.
Qed.

(** Selecting the corner rows and columns of an array whose corner rows
    hold, in their corner columns, the rows of [x] gives [x]. *)
Lemma crop_of_corner_rows (d : A) (x P : list (list A)) (idx : list nat) :
  length x = length idx ->
  Forall (fun i => (i < length P)%nat) idx ->
  (forall a, (a < length idx)%nat ->
     take d (nth (nth a idx 0%nat) P []) idx = nth a x []) ->
  take [] (map (fun row => take d row idx) P) idx = x.
Proof.
  intros Hl Hr H.
  apply nth_ext with (d := []) (d' := []);
    [now rewrite PositionMoreFacts.length_take |].
  intros a Ha. rewrite PositionMoreFacts.length_take in Ha.
  unfold take at 1.
  rewrite (@ProbeFacts.nth_map_lt _ _ _ idx a 0%nat) by exact Ha.
  rewrite Forall_forall in Hr.
  assert (Hin : (nth a idx 0 < length P)%nat) by (apply Hr, nth_In, Ha).
  rewrite (@ProbeFacts.nth_map_lt _ _ _ P _ []) by exact Hin.
  now apply H.
Qed.

End Fourier.

Section FourierRoundTrip.

Context {A : Type}.

(** X14.  Round trip: padding a square [n] by [n] array to width
    [w >= n >= 1] gives a [w] by [w] array, and cropping that to width [n]
    gives the array back. *)
Theorem crop_pad_roundtrip (zero d : A) (x : list (list A)) (w : nat) :
  (1 <= length x <= w)%nat ->
  Forall (fun row => length row = length x) x ->
  exists padded,
    pad_fourier_space zero x w = Ok padded
    /\ length padded = w
    /\ Forall (fun row => length row = w) padded
    /\ crop_fourier_space d padded (length x) = Ok x.
Proof.
  intros Hn Hsq.
  set (n := length x) in *.
  assert (Hhd : length (hd [] x) = n).
  { destruct x as [|h t]; [simpl in n; lia |].
    inversion Hsq; subst. assumption. }
  assert (Hsquare : is_square x = true).
  { unfold is_square, shape2. simpl. rewrite Hhd. apply Z.eqb_refl. }
  unfold pad_fourier_space. rewrite Hsquare, Hhd. cbn [negb]. cbv zeta.
  fold n. set (half1 := (n / 2)%nat). set (half0 := (n - half1)%nat).
  assert (Hhalf : (half1 <= n)%nat /\ (half0 + half1 = n)%nat).
  { subst half0 half1.
    assert (n / 2 <= n)%nat by (apply Nat.Div0.div_le_upper_bound; lia).
    lia. }
  assert (H1 : (1 <= half0)%nat).
  { subst half0 half1.
    assert (n / 2 < n)%nat by (apply Nat.div_lt; lia). lia. }
  set (idx := corner_indices w half0 half1).
  set (Z0 := repeat (repeat zero w) w).
  set (P1 := assign_block Z0 (seq 0 half0) idx (firstn half0 x)).
  assert (HZ0 : Forall (fun row => length row = w) Z0).
  { subst Z0. apply Forall_forall. intros r Hr.
    apply repeat_spec in Hr. subst r. apply repeat_length. }
  assert (HlZ0 : length Z0 = w) by apply repeat_length.
  assert (HP1 : Forall (fun row => length row = w) P1)
    by now apply assign_block_row_lengths.
  assert (HlP1 : length P1 = w)
    by (subst P1; now rewrite length_assign_block).
  assert (Hnd : NoDup idx) by (apply NoDup_corner_indices; lia).
  assert (Hir : Forall (fun i => (i < w)%nat) idx)
    by (apply corner_indices_in_range; lia).
  assert (Hli : length idx = n)
    by (subst idx; rewrite length_corner_indices; lia).
  assert (Hrow : forall a, (a < n)%nat -> length (nth a x []) = n).
  { intros a Ha. rewrite Forall_forall in Hsq. apply Hsq. now apply nth_In. }
  assert (Hrows : forall (P : list (list A)) i,
             Forall (fun row => length row = w) P -> (i < length P)%nat ->
             length (nth i P []) = w).
  { intros P i HP Hi. rewrite Forall_forall in HP. apply HP.
    now apply nth_In. }
  eexists. split; [reflexivity |].
  set (P := if (half1 =? 0)%nat then _ else _).
  assert (HP : Forall (fun row => length row = w) P).
  { subst P. destruct (half1 =? 0)%nat;
      now apply assign_block_row_lengths. }
  assert (HlP : length P = w).
  { subst P. destruct (half1 =? 0)%nat;
      now rewrite length_assign_block. }
  split; [exact HlP |]. split; [exact HP |].
  assert (HhdP : length (hd [] P) = w).
  { clear - HP HlP Hn. destruct P as [|h t]; [simpl in HlP; lia |].
    inversion HP as [|? ? Hh Ht]. exact Hh. }
  unfold crop_fourier_space.
  assert (HsqP : is_square P = true).
  { unfold is_square, shape2. simpl. rewrite HhdP, HlP. apply Z.eqb_refl. }
  rewrite HsqP, HhdP, HlP. cbn [negb]. cbv zeta.
  fold half1. fold half0. fold idx. f_equal.
  apply crop_of_corner_rows; [now rewrite Hli | now rewrite HlP |].
  intros a Ha. rewrite Hli in Ha.
  assert (Hc : (nth a idx 0 < w)%nat).
  { rewrite Forall_forall in Hir. apply Hir, nth_In. lia. }
  (* the row of the padded array that holds row [a] of [x] *)
  assert (Hput : exists base,
             length base = w
             /\ nth (nth a idx 0%nat) P [] = put base idx (nth a x [])).
  { subst P. destruct (Nat.eqb_spec half1 0) as [E0 | E0].
    - (* a 1 by 1 array *)
      assert (Hn1 : (n < 2)%nat)
        by (apply Nat.div_small_iff; [lia | exact E0]).
      assert (a = 0)%nat by lia. subst a.
      assert (Ei : nth 0 idx 0%nat = 0%nat).
      { subst idx. rewrite nth_corner_indices by lia.
        destruct (Nat.ltb_spec 0 half0); [reflexivity | lia]. }
      rewrite Ei.
      exists (nth 0 P1 []). split; [apply Hrows; [exact HP1 | lia] |].
      pose proof (@nth_assign_block_at A idx (seq 0 w) P1
                    (repeat (hd [] x) w) 0%nat) as Hat.
      rewrite seq_nth in Hat by lia. cbn [Nat.add] in Hat.
      rewrite Hat.
      + f_equal. destruct w as [|w']; [lia |].
        destruct x as [|h t]; reflexivity.
      + apply seq_NoDup.
      + rewrite length_seq. lia.
      + now rewrite repeat_length, length_seq.
      + lia.
    - destruct (Nat.ltb_spec a half0) as [Hlo | Hhi].
      + (* a row of the upper corners *)
        assert (Ei : nth a idx 0%nat = a).
        { subst idx. rewrite nth_corner_indices by lia.
          destruct (Nat.ltb_spec a half0); [reflexivity | lia]. }
        rewrite Ei.
        rewrite nth_assign_block_other
          by (intros Hin; apply in_seq in Hin; lia).
        exists (nth a Z0 []). split; [apply Hrows; [exact HZ0 | lia] |].
        pose proof (@nth_assign_block_at A idx (seq 0 half0) Z0
                      (firstn half0 x) a) as Hat.
        rewrite seq_nth in Hat by lia. cbn [Nat.add] in Hat.
        unfold P1. rewrite Hat.
        * f_equal. rewrite <- (firstn_skipn half0 x) at 2.
          rewrite app_nth1; [reflexivity |].
          rewrite length_firstn. fold n. lia.
        * apply seq_NoDup.
        * rewrite length_seq. lia.
        * rewrite length_firstn, length_seq. fold n. lia.
        * lia.
      + (* a row of the lower corners *)
        assert (Ei : nth a idx 0%nat = (w - half1 + (a - half0))%nat).
        { subst idx. rewrite nth_corner_indices by lia.
          destruct (Nat.ltb_spec a half0); [lia | reflexivity]. }
        rewrite Ei.
        exists (nth (w - half1 + (a - half0)) P1 []).
        split; [apply Hrows; [exact HP1 | lia] |].
        pose proof (@nth_assign_block_at A idx (seq (w - half1) half1) P1
                      (skipn half0 x) (a - half0)%nat) as Hat.
        rewrite seq_nth in Hat by lia.
        rewrite Hat.
        * f_equal. rewrite <- (firstn_skipn half0 x) at 2.
          rewrite app_nth2; rewrite length_firstn; fold n;
            [| lia].
          f_equal. lia.
        * apply seq_NoDup.
        * rewrite length_seq. lia.
        * rewrite length_skipn, length_seq. fold n. lia.
        * lia. }
  destruct Hput as (base & Hlb & ->).
  apply PositionMoreFacts.take_put; [exact Hnd | now rewrite Hlb |].
  rewrite Hrow by lia. now rewrite Hli.
Qed.

End FourierRoundTrip.

Lemma crop_pad_roundtrip_witness :
  exists padded,
    pad_fourier_space 0%Z [[1; 2; 3]; [4; 5; 6]; [7; 8; 9]]%Z 5 = Ok padded
    /\ length padded = 5%nat
    /\ Forall (fun row => length row = 5%nat) padded
    /\ crop_fourier_space 0%Z padded 3
       = Ok [[1; 2; 3]; [4; 5; 6]; [7; 8; 9]]%Z.
Proof.
  apply (@crop_pad_roundtrip Z 0%Z 0%Z
           [[1; 2; 3]; [4; 5; 6]; [7; 8; 9]]%Z 5%nat).
  - simpl. lia.
  - repeat constructor.
Defined.

Section SinglePixel.

Context {A : Type}.

(** Assigning below the first row leaves the first row alone. *)
Lemma assign_block_shift (columns : list nat) :
  forall (rows : list nat) (h : list A) (t src : list (list A)),
    assign_block (h :: t) (map S rows) columns src
    = h :: assign_block t rows columns src.
Proof.
  induction rows as [|r rows IH]; intros h t [|s src]; try reflexivity.
  cbn [map]. rewrite !assign_block_cons. cbn [Probe.set_nth nth].
  apply IH.
Qed.

(** Assigning the same row to all the rows. *)
Lemma assign_block_all_rows (columns : list nat) (s : list A) :
  forall x : list (list A),
    assign_block x (seq 0 (length x)) columns (repeat s (length x))
    = map (fun row => put row columns s) x.
Proof.
  induction x as [|h t IH]; [reflexivity |].
  cbn [length seq repeat map]. rewrite assign_block_cons.
  cbn [Probe.set_nth nth]. rewrite <- seq_shift, assign_block_shift.
  now rewrite IH.
Qed.

(** X15.  Padding a 1 by 1 array [[a]] to width [w >= 1] writes [a] into
    the first column of every row, not only into the corner: with
    [half1 = 0] the slice [-half1:w] is the whole row axis. *)
Theorem pad_single_pixel_fills_column (zero a : A) (w : nat) :
  (1 <= w)%nat ->
  pad_fourier_space zero [[a]] w
  = Ok (repeat (a :: repeat zero (w - 1)) w).
Proof.
  intros Hw. destruct w as [|w]; [lia |].
  unfold pad_fourier_space.
  change (negb (is_square [[a]])) with false. cbv iota zeta.
  change (length (hd [] [[a]])) with 1%nat.
  change (1 / 2)%nat with 0%nat.
  change (1 - 0)%nat with 1%nat. change (0 =? 0)%nat with true. cbv iota.
  change (corner_indices (S w) 1 0) with [0%nat].
  change (hd [] [[a]]) with [a]. change (firstn 1 [[a]]) with [[a]].
  change (S w - 1)%nat with (w - 0)%nat. rewrite Nat.sub_0_r.
  f_equal.
  set (P1 := assign_block _ (seq 0 1) [0%nat] [[a]]).
  assert (HP1 : P1 = (a :: repeat zero w) :: repeat (repeat zero (S w)) w)
    by reflexivity.
  assert (Hl : length P1 = S w)
    by (rewrite HP1; simpl; now rewrite repeat_length).
  rewrite <- Hl at 1 2. rewrite assign_block_all_rows, HP1.
  cbn [map repeat]. f_equal. rewrite map_repeat. reflexivity.
Qed.

End SinglePixel.

Lemma pad_single_pixel_fills_column_witness :
  pad_fourier_space 0%Z [[7%Z]] 3 = Ok [[7; 0; 0]; [7; 0; 0]; [7; 0; 0]]%Z.
Proof.
  apply (@pad_single_pixel_fills_column Z 0%Z 7%Z 3%nat). lia.
Defined.

End SolverOptionsFacts.

(** * Further facts about probe.py *)

Module ProbeMoreFacts.

Import Probe ProbeMore.

Section VaryingFormula.

Lemma length_add_prefix (u d : list Field) :
  (length d <= length u)%nat -> length (add_prefix u d) = length u.
Proof.
  intros H. unfold add_prefix.
  rewrite length_app, length_map2, length_firstn, length_skipn;
    [lia | rewrite length_firstn; lia].
Qed.

Lemma nth_add_prefix (u d : list Field) (s : nat) :
  (length d <= length u)%nat ->
  nth s (add_prefix u d) []
  = if (s <? length d)%nat then fadd (nth s u []) (nth s d []) else nth s u [].
Proof.
  intros H. unfold add_prefix.
  assert (Hl : length (map2 fadd (firstn (length d) u) d) = length d).
  { rewrite length_map2; rewrite length_firstn; lia. }
  destruct (Nat.ltb_spec s (length d)) as [Hs | Hs].
  - rewrite app_nth1 by lia.
    rewrite (@ProbeFacts.nth_map2 _ _ _ fadd _ _ [] [] [])
      by (try rewrite length_firstn; lia).
    f_equal. rewrite <- (firstn_skipn (length d) u) at 2.
    rewrite app_nth1; [reflexivity | rewrite length_firstn; lia].
  - rewrite app_nth2 by lia. rewrite Hl.
    rewrite <- (firstn_skipn (length d) u) at 2.
    rewrite app_nth2; rewrite length_firstn; [| lia].
    f_equal. lia.
Qed.

Lemma nth_firstn_lt {A} (m s : nat) (l : list A) (d : A) :
  (s < m)%nat -> nth s (firstn m l) d = nth s l d.
Proof.
  revert s l. induction m as [|m IH]; intros s l H; [lia |].
  destruct l as [|a l]; [now destruct s |].
  destruct s as [|s]; [reflexivity |]. simpl. apply IH. lia.
Qed.

(** X16.  With eigen probes, [get_varying_probe] computes the formula of
    the module docstring: at position [n] the probe [s] is
    [weights[n, 0, s] * shared_probe[s]] plus, for the probes that have
    eigen probes, [weights[n, c + 1, s] * eigen_probe[c, s]] for every [c];
    the probes at or beyond [eigen_probe.shape[-3]] get the first term
    only. *)
Theorem get_varying_probe_formula
  (shared_probe : list Field) (eigen_probe : list (list Field))
  (weights : WeightArray) (n s : nat) :
  varying_shapes shared_probe eigen_probe weights ->
  (n < length weights)%nat -> (s < length shared_probe)%nat ->
  length (get_varying_probe shared_probe (Some eigen_probe) (Some weights))
  = length weights
  /\ nth s (nth n (get_varying_probe shared_probe (Some eigen_probe)
                     (Some weights)) []) []
     = varying_formula shared_probe eigen_probe weights n s.
Proof.
  intros (Hm & He & Hw) Hn Hs.
  unfold get_varying_probe, varying_formula.
  set (m := length (hd [] eigen_probe)) in *.
  set (S0 := length shared_probe) in *.
  set (step := fun (unique_probe : list (list Field)) (c : nat) =>
                 map2 (fun un wn =>
                         add_prefix un
                           (map2 fscale (firstn m (nth (c + 1) wn []))
                              (firstn m (nth c eigen_probe []))))
                      unique_probe weights).
  set (term := fun (acc : Field) (c : nat) =>
                 if (s <? m)%nat
                 then fadd acc (fscale (entry weights n (c + 1) s)
                                  (nth s (nth c eigen_probe []) []))
                 else acc).
  assert (Hrow : forall k c, (k < length weights)%nat ->
                   (c < length eigen_probe + 1)%nat ->
                   length (nth c (nth k weights []) []) = S0).
  { intros k c Hk Hc. rewrite Forall_forall in Hw.
    destruct (Hw (nth k weights [])) as [Hl Hr]; [now apply nth_In |].
    rewrite Forall_forall in Hr. apply Hr. apply nth_In. lia. }
  assert (Heig : forall c, (c < length eigen_probe)%nat ->
                   length (nth c eigen_probe []) = m).
  { intros c Hc. rewrite Forall_forall in He. apply He. now apply nth_In. }
  assert (Hd : forall k c, (k < length weights)%nat ->
                 (c < length eigen_probe)%nat ->
                 length (map2 fscale (firstn m (nth (c + 1) (nth k weights []) []))
                           (firstn m (nth c eigen_probe []))) = m).
  { intros k c Hk Hc.
    rewrite length_map2; rewrite !length_firstn, ?Hrow, ?Heig; lia. }
  assert (Hloop : forall cs up,
             Forall (fun c => (c < length eigen_probe)%nat) cs ->
             length up = length weights ->
             (forall k, (k < length weights)%nat ->
                        length (nth k up []) = S0) ->
             length (fold_left step cs up) = length weights
             /\ nth s (nth n (fold_left step cs up) []) []
                = fold_left term cs (nth s (nth n up []) [])).
  { induction cs as [|c cs IH]; intros up Hcs Hlu Hlk;
      [split; [exact Hlu | reflexivity] |].
    inversion Hcs as [|? ? Hc Hcs']; subst. cbn [fold_left].
    assert (Hls : length (step up c) = length weights)
      by (unfold step; now rewrite length_map2).
    assert (Hnk : forall k, (k < length weights)%nat ->
                    nth k (step up c) []
                    = add_prefix (nth k up [])
                        (map2 fscale
                           (firstn m (nth (c + 1) (nth k weights []) []))
                           (firstn m (nth c eigen_probe [])))).
    { intros k Hk. unfold step.
      rewrite ProbeFacts.nth_map2 with (dA := []) (dB := []) by lia.
      reflexivity. }
    destruct (IH (step up c)) as [IH1 IH2]; [exact Hcs' | exact Hls | |].
    { intros k Hk. rewrite Hnk by exact Hk.
      rewrite length_add_prefix; [now apply Hlk |].
      rewrite Hd, Hlk by assumption. exact Hm. }
    split; [exact IH1 |]. rewrite IH2. f_equal.
    rewrite Hnk by exact Hn.
    rewrite nth_add_prefix by (rewrite Hd, Hlk by assumption; exact Hm).
    rewrite Hd by assumption. unfold term.
    destruct (Nat.ltb_spec s m) as [Hsm | Hsm]; [| reflexivity].
    f_equal.
    rewrite (@ProbeFacts.nth_map2 _ _ _ fscale _ _ 0 [] [])
      by (rewrite length_firstn, ?Hrow, ?Heig; lia).
    rewrite !nth_firstn_lt by exact Hsm. reflexivity. }
  set (up0 := map (fun wn => map2 fscale (nth 0 wn []) shared_probe) weights).
  assert (Hu0 : forall k, (k < length weights)%nat ->
                  nth k up0 []
                  = map2 fscale (nth 0 (nth k weights []) []) shared_probe).
  { intros k Hk. unfold up0.
    rewrite ProbeFacts.nth_map_lt with (dA := []) by exact Hk.
    reflexivity. }
  destruct (Hloop (seq 0 (length eigen_probe)) up0) as [H1 H2].
  - apply Forall_forall. intros c Hc. apply in_seq in Hc. lia.
  - unfold up0. apply length_map.
  - intros k Hk. rewrite Hu0 by exact Hk.
    rewrite length_map2; rewrite Hrow; lia.
  - split; [exact H1 |]. rewrite H2. f_equal.
    rewrite Hu0 by exact Hn.
    rewrite (@ProbeFacts.nth_map2 _ _ _ fscale _ _ 0 [] []);
      [reflexivity | rewrite Hrow; lia | exact Hs].
Qed.

End VaryingFormula.

Lemma get_varying_probe_formula_witness :
  length (get_varying_probe ProbeSamples.shared2
            (Some ProbeSamples.eigen12) (Some ProbeSamples.weights22))
  = 2%nat
  /\ nth 0 (nth 1 (get_varying_probe ProbeSamples.shared2
                     (Some ProbeSamples.eigen12)
                     (Some ProbeSamples.weights22)) []) []
     = varying_formula ProbeSamples.shared2 ProbeSamples.eigen12
         ProbeSamples.weights22 1 0.
Proof.
  apply (@get_varying_probe_formula ProbeSamples.shared2
           ProbeSamples.eigen12 ProbeSamples.weights22 1%nat 0%nat).
  - repeat split; repeat constructor.
  - simpl. lia.
  - simpl. lia.
Defined.

Section InitVarying.

Context {random : Random} {linalg : Linalg}.

Lemma weight_shape_map (N E S : nat) (f : list (list Q) -> list (list Q))
  (w : WeightArray) :
  (forall wn, position_shape E S wn -> position_shape E S (f wn)) ->
  weight_shape N E S w -> weight_shape N E S (map f w).
Proof.
  intros Hf [Hl Hw]. split; [now rewrite length_map |].
  rewrite Forall_map. eapply Forall_impl; [| exact Hw].
  intros wn H. now apply Hf.
Qed.

Lemma position_shape_nth (E S c : nat) (wn : list (list Q)) :
  position_shape E S wn -> (c < E)%nat -> length (nth c wn []) = S.
Proof.
  intros [Hl Hr] Hc. rewrite Forall_forall in Hr. apply Hr, nth_In. lia.
Qed.

Lemma weight_shape_nth (N E S n : nat) (w : WeightArray) :
  weight_shape N E S w -> (n < N)%nat -> position_shape E S (nth n w []).
Proof.
  intros [Hl Hw] Hn. rewrite Forall_forall in Hw. apply Hw, nth_In. lia.
Qed.

Lemma position_shape_scale (E S : nat) (k : Q) (wn : list (list Q)) :
  position_shape E S wn -> position_shape E S (map (map (Qmult k)) wn).
Proof.
  intros [Hl Hr]. split; [now rewrite length_map |].
  rewrite Forall_map. eapply Forall_impl; [| exact Hr].
  intros row H. simpl. now rewrite length_map.
Qed.

Lemma position_shape_set_first_row_one (E S : nat) (wn : list (list Q)) :
  position_shape E S wn -> position_shape E S (set_first_row_one wn).
Proof.
  intros [Hl Hr]. unfold set_first_row_one.
  split; [now rewrite ProbeFacts.length_set_nth |].
  destruct wn as [|r0 rest]; [constructor |].
  inversion Hr as [|? ? H0 Hrest]; subst.
  simpl. constructor; [now rewrite length_map | exact Hrest].
Qed.

Lemma position_shape_clear_unused (E S p : nat) (wn : list (list Q)) :
  position_shape E S wn -> position_shape E S (clear_unused p wn).
Proof.
  intros [Hl Hr]. unfold clear_unused.
  destruct wn as [|r0 rest]; [split; [exact Hl | constructor] |].
  inversion Hr as [|? ? H0 Hrest]; subst.
  cbn [firstn skipn app]. split; [simpl; now rewrite length_map |].
  constructor; [reflexivity |].
  rewrite Forall_map. eapply Forall_impl; [| exact Hrest].
  intros row H. cbv beta in *.
  rewrite length_app, length_map, length_firstn, length_skipn. lia.
Qed.

Lemma weight_shape_subtract (N E S : nat) (w : WeightArray) :
  weight_shape N E S w -> weight_shape N E S (subtract_position_mean w).
Proof.
  intros H. unfold subtract_position_mean.
  apply weight_shape_map; [| exact H].
  intros wn [Hl Hr]. split.
  - rewrite length_map2; [exact Hl | now rewrite length_seq].
  - apply ProbeFacts.Forall_map2 with (P := fun row => length row = S);
      [| exact Hr].
    intros row c Hrow. rewrite length_map2; [exact Hrow |].
    now rewrite length_seq.
Qed.

(** The entries after [weights[..., 0, :] = 1.0]. *)
Lemma nth_set_first_row_one (E S c s : nat) (wn : list (list Q)) :
  position_shape E S wn -> (c < E)%nat -> (s < S)%nat ->
  nth s (nth c (set_first_row_one wn) []) 0
  = if (c =? 0)%nat then 1 else nth s (nth c wn []) 0.
Proof.
  intros Hsh Hc Hs. unfold set_first_row_one.
  pose proof (position_shape_nth Hsh Hc) as Hrow. destruct Hsh as [Hl Hr].
  destruct c as [|c]; cbn [Nat.eqb].
  - rewrite ProbeFacts.nth_set_nth_eq by lia.
    rewrite (@ProbeFacts.nth_map_lt _ _ _ _ s 0) by lia. reflexivity.
  - now rewrite ProbeFacts.nth_set_nth_ne by lia.
Qed.

Lemma nth_zeroed_tail (p s : nat) (row : list Q) :
  nth s (firstn p row ++ map (fun _ => 0) (skipn p row)) 0
  = if (s <? p)%nat then nth s row 0 else 0.
Proof.
  destruct (Nat.ltb_spec s p) as [Hsp | Hsp].
  - destruct (Nat.lt_ge_cases s (length row)) as [Hs | Hs].
    + rewrite app_nth1 by (rewrite length_firstn; lia).
      now apply nth_firstn_lt.
    + rewrite (nth_overflow row) by exact Hs.
      rewrite firstn_all2 by lia. rewrite skipn_all2 by lia.
      cbn [map]. rewrite app_nil_r. now apply nth_overflow.
  - destruct (Nat.lt_ge_cases s (length row)) as [Hs | Hs].
    + rewrite app_nth2 by (rewrite length_firstn; lia).
      rewrite (@ProbeFacts.nth_map_lt _ _ _ _ _ 0);
        [reflexivity | rewrite length_firstn, length_skipn; lia].
    + apply nth_overflow.
      rewrite length_app, length_map, length_firstn, length_skipn. lia.
Qed.

(** The entries after [weights[..., 1:, probes_with_modes:] = 0]. *)
Lemma nth_clear_unused (E S p c s : nat) (wn : list (list Q)) :
  position_shape E S wn -> (c < E)%nat ->
  nth s (nth c (clear_unused p wn) []) 0
  = if (c =? 0)%nat then nth s (nth 0 wn []) 0
    else if (s <? p)%nat then nth s (nth c wn []) 0 else 0.
Proof.
  intros [Hl Hr] Hc. unfold clear_unused.
  destruct wn as [|r0 rest]; [simpl in Hl; lia |].
  cbn [firstn skipn app]. destruct c as [|c]; [reflexivity |].
  cbn [nth Nat.eqb].
  rewrite (@ProbeFacts.nth_map_lt _ _ _ _ _ []) by (simpl in Hl; lia).
  apply nth_zeroed_tail.
Qed.

(** The entries after the mean along the position axis is subtracted. *)
Lemma nth_subtract_position_mean (N E S n c s : nat) (w : WeightArray) :
  weight_shape N E S w -> (n < N)%nat -> (c < E)%nat -> (s < S)%nat ->
  nth s (nth c (nth n (subtract_position_mean w) []) []) 0
  = entry w n c s - Qmean (column w c s).
Proof.
  intros Hw Hn Hc Hs. pose proof (weight_shape_nth Hw Hn) as Hsh.
  pose proof (position_shape_nth Hsh Hc) as Hrow.
  destruct Hw as [Hl _]. destruct Hsh as [HlE _].
  unfold subtract_position_mean, entry.
  rewrite (@ProbeFacts.nth_map_lt _ _ _ _ _ []) by lia.
  rewrite (@ProbeFacts.nth_map2 _ _ _ _ _ _ [] 0%nat [])
    by (rewrite ?length_seq; lia).
  rewrite seq_nth by lia. cbn [Nat.add].
  rewrite (@ProbeFacts.nth_map2 _ _ _ _ _ _ 0 0%nat 0)
    by (rewrite ?length_seq; lia).
  rewrite seq_nth by lia. reflexivity.
Qed.

Lemma Qsum_centred (l : list Q) :
  Qsum (map (fun v => v - Qmean l) l) == 0.
Proof.
  destruct l as [|a l]; [reflexivity |].
  assert (Hpos : 0 < Qlen (a :: l)) by (apply Qlen_pos; discriminate).
  set (L := a :: l) in *.
  change (Qsum (map (fun v => v + - Qmean L) L) == 0).
  rewrite Qsum_map_add. unfold Qmean.
  set (n := Qlen L) in *. set (t := Qsum L). field. lra.
Qed.

(** X17.  [init_varying_probe] raises [ValueError] exactly when
    [max(probes_with_modes, 0)] exceeds the number of shared probes, also
    when no eigen probe is asked for; otherwise it returns (None, None) for
    [num_eigen_probes < 1], and else weights of shape
    (POSI, num_eigen_probes, SHARED) in which row 0 is one everywhere, the
    rows from 1 on are zero for the probes at or beyond
    [probes_with_modes], and have zero sum along the position axis for the
    other probes.  The eigen probes are None exactly when
    [num_eigen_probes] is 1. *)
Theorem init_varying_probe_weights
  (scan : list Point) (shared_probe : list Field)
  (num_eigen_probes probes_with_modes : Z) :
  let S := length shared_probe in
  let N := length scan in
  let E := Z.to_nat num_eigen_probes in
  let p := Z.to_nat (Z.max probes_with_modes 0) in
  weight_shape N E S (rand N E S) ->
  (init_varying_probe scan shared_probe num_eigen_probes probes_with_modes
   = Raise ValueError <-> (S < p)%nat)
  /\ ((p <= S)%nat -> (num_eigen_probes < 1)%Z ->
      init_varying_probe scan shared_probe num_eigen_probes probes_with_modes
      = Ok (None, None))
  /\ ((p <= S)%nat -> (1 <= num_eigen_probes)%Z ->
      exists eigen_probe weights,
        init_varying_probe scan shared_probe num_eigen_probes
          probes_with_modes = Ok (eigen_probe, Some weights)
        /\ (eigen_probe = None <-> num_eigen_probes = 1%Z)
        /\ weight_shape N E S weights
        /\ (forall n s, (n < N)%nat -> (s < S)%nat ->
              entry weights n 0 s = 1)
        /\ (forall n c s, (n < N)%nat -> (1 <= c < E)%nat ->
              (p <= s < S)%nat -> entry weights n c s = 0)
        /\ (forall c s, (1 <= c < E)%nat -> (s < p)%nat ->
              Qsum (column weights c s) == 0)).
Proof.
  intros S N E p rand_shape.
  unfold init_varying_probe. fold S. fold N.
  assert (Hgt : (Z.max probes_with_modes 0 >? Z.of_nat S)%Z = (S <? p)%nat).
  { subst p. rewrite Z.gtb_ltb.
    destruct (Z.ltb_spec (Z.of_nat S) (Z.max probes_with_modes 0));
      destruct (Nat.ltb_spec S (Z.to_nat (Z.max probes_with_modes 0)));
      try reflexivity; lia. }
  rewrite Hgt.
  destruct (Nat.ltb_spec S p) as [Hp | Hp].
  { split; [split; [intros _; exact Hp | reflexivity] |].
    split; intros; lia. }
  split; [split; [| intros; lia] |].
  { destruct (num_eigen_probes <? 1)%Z; [discriminate |].
    destruct (num_eigen_probes =? 1)%Z; discriminate. }
  split.
  { intros _ HE. apply Z.ltb_lt in HE. now rewrite HE. }
  intros _ HE.
  destruct (Z.ltb_spec num_eigen_probes 1) as [? | _]; [lia |].
  fold E. fold p.
  set (w1 := map (map (map (Qmult (1 # 1000000)))) (rand N E S)).
  set (w2 := subtract_position_mean w1).
  set (w3 := map set_first_row_one w2).
  set (w4 := map (clear_unused p) w3).
  assert (HE1 : (1 <= E)%nat) by (subst E; lia).
  assert (H1 : weight_shape N E S w1).
  { apply weight_shape_map; [| apply rand_shape].
    intros wn. apply position_shape_scale. }
  assert (H2 : weight_shape N E S w2) by now apply weight_shape_subtract.
  assert (H3 : weight_shape N E S w3).
  { apply weight_shape_map; [| exact H2].
    intros wn. apply position_shape_set_first_row_one. }
  assert (H4 : weight_shape N E S w4).
  { apply weight_shape_map; [| exact H3].
    intros wn. apply position_shape_clear_unused. }
  assert (Hentry : forall n c s, (n < N)%nat -> (c < E)%nat -> (s < S)%nat ->
            entry w4 n c s
            = if (c =? 0)%nat then 1
              else if (s <? p)%nat
                   then nth s (nth c (nth n w2 []) []) 0 else 0).
  { intros n c s Hn Hc Hs. unfold entry, w4.
    rewrite (@ProbeFacts.nth_map_lt _ _ _ _ _ [])
      by (destruct H3 as [-> _]; exact Hn).
    rewrite (nth_clear_unused p s (weight_shape_nth H3 Hn)) by exact Hc.
    unfold w3.
    rewrite (@ProbeFacts.nth_map_lt _ _ _ _ _ [])
      by (destruct H2 as [-> _]; exact Hn).
    rewrite !(nth_set_first_row_one (weight_shape_nth H2 Hn)) by lia.
    destruct c; reflexivity. }
  assert (Hres : exists eigen_probe,
            (if (num_eigen_probes =? 1)%Z
             then Ok (None, Some w4)
             else Ok (Some
                        (map (map (fun f => fdivr f (mnorm f)))
                           (numpy_complex (Z.to_nat (num_eigen_probes - 1)) p
                              (length (hd [] shared_probe))
                              (length (hd [] (hd [] shared_probe))))),
                      Some w4))
            = Ok (eigen_probe, Some w4)
            /\ (eigen_probe = None <-> num_eigen_probes = 1%Z)).
  { destruct (Z.eqb_spec num_eigen_probes 1) as [E1 | E1].
    - exists None. split; [reflexivity | tauto].
    - eexists. split; [reflexivity |].
      split; [discriminate | intros; contradiction]. }
  destruct Hres as (eigen_probe & Hres & Hnone).
  exists eigen_probe, w4. split; [exact Hres |].
  split; [exact Hnone |]. split; [exact H4 |].
  split; [| split].
  - intros n s Hn Hs. rewrite Hentry by lia. reflexivity.
  - intros n c s Hn Hc Hs. rewrite Hentry by lia.
    destruct c as [|c]; [lia |]. cbn [Nat.eqb].
    destruct (Nat.ltb_spec s p); [lia | reflexivity].
  - intros c s Hc Hs.
    assert (Hcol : column w4 c s
                   = map (fun v => v - Qmean (column w1 c s))
                       (column w1 c s)).
    { unfold column. rewrite map_map.
      apply nth_ext with (d := 0) (d' := 0);
        [now rewrite !length_map; destruct H4 as [-> _]; destruct H1 as [-> _]
        |].
      intros n Hn. rewrite length_map in Hn.
      destruct H4 as [Hl4 _]. rewrite Hl4 in Hn.
      rewrite (@ProbeFacts.nth_map_lt _ _ _ w4 n []) by lia.
      rewrite (@ProbeFacts.nth_map_lt _ _ _ w1 n [])
        by (destruct H1 as [-> _]; exact Hn).
      change (nth s (nth c (nth n w4 []) []) 0) with (entry w4 n c s).
      rewrite Hentry by lia.
      destruct c as [|c]; [lia |]. cbn [Nat.eqb].
      destruct (Nat.ltb_spec s p); [| lia].
      unfold w2. rewrite (nth_subtract_position_mean H1) by lia.
      reflexivity. }
    rewrite Hcol. apply Qsum_centred.
Qed.

End InitVarying.

Lemma init_varying_probe_weights_witness :
  exists eigen_probe weights,
    init_varying_probe (random := ProbeSamples.random)
      (linalg := Samples.probe_linalg)
      Samples.scan ProbeSamples.shared2 2 1
    = Ok (eigen_probe, Some weights)
    /\ entry weights 0 0 0 = 1
    /\ entry weights 1 1 1 = 0
    /\ Qsum (column weights 1 0) == 0.
Proof.
  destruct (@init_varying_probe_weights ProbeSamples.random
              Samples.probe_linalg Samples.scan ProbeSamples.shared2
              2%Z 1%Z) as (_ & _ & H).
  - split; [reflexivity | repeat constructor].
  - destruct H as (e & w & Hok & _ & _ & H0 & Hz & Hs);
      [simpl; lia | lia |].
    exists e, w. split; [exact Hok |].
    split; [apply H0; simpl; lia |].
    split; [apply Hz; simpl; lia | apply Hs; simpl; lia].
Defined.

Section Power.

Context {numpy : Position.Numpy} {norms : Norms}.

Lemma Qsum_Cabs2_Cscale (k : Q) (l : list C) :
  Qsum (map Cabs2 (map (Cscale k) l)) == k * k * Qsum (map Cabs2 l).
Proof.
  induction l as [|z l IH]; simpl; [ring |].
  rewrite IH. unfold Cabs2, Cscale, Cre, Cim; simpl. ring.
Qed.

(** Scaling an image by [k] scales its photons by [k * k]. *)
Lemma photons_fscale (k : Q) (f : Field) :
  photons (fscale k f) == k * k * photons f.
Proof.
  unfold photons, fscale. rewrite <- (concat_map (Cscale k)).
  apply Qsum_Cabs2_Cscale.
Qed.

Lemma nth_scale_each (probe : list Field) (k : list Q) (m : nat) :
  (m < length probe)%nat -> (m < length k)%nat ->
  nth m (scale_each probe k) [] = fscale (nth m k 0) (nth m probe []).
Proof.
  intros H1 H2. unfold scale_each.
  apply (@ProbeFacts.nth_map2 Field Q Field (fun f k => fscale k f)
           probe k [] 0 [] m H1 H2).
Qed.

Lemma Qsum_scaled (T : Q) (l : list Q) :
  Qsum (map (fun ph => ph / T) l) == Qsum l / T.
Proof.
  induction l as [|a l IH]; simpl.
  - unfold Qdiv. ring.
  - rewrite IH. unfold Qdiv. ring.
Qed.

Lemma Qsum_Cabs2_nonneg (l : list C) : 0 <= Qsum (map Cabs2 l).
Proof.
  induction l as [|z l IH]; simpl; [lra |].
  unfold Cabs2 at 1. nra.
Qed.

Lemma photons_nonneg (f : Field) : 0 <= photons f.
Proof. apply Qsum_Cabs2_nonneg. Qed.

Lemma Qsum_pos (l : list Q) :
  l <> [] -> Forall (fun q => 0 < q) l -> 0 < Qsum l.
Proof.
  intros Hne H. induction H as [|a l Ha Hl IH]; [congruence |].
  simpl. destruct l as [|b l]; [simpl; lra |].
  assert (0 < Qsum (b :: l)) by (apply IH; discriminate). lra.
Qed.

Lemma rescale_each (N : Q) (probe : list Field) :
  forall fraction,
    Forall2 (rescalable N) probe fraction ->
    Forall2 (fun f fr => photons f == fr * N)
      (rescale_probe_using_fixed_intensity_photons probe N (Some fraction))
      fraction
    /\ Qsum (map photons
               (rescale_probe_using_fixed_intensity_photons probe N
                  (Some fraction)))
       == Qsum fraction * N.
Proof.
  unfold rescale_probe_using_fixed_intensity_photons, scale_each,
    power_fraction_or_default.
  intros fraction H.
  induction H as [|f fr probe fraction [Hf Hsq] _ [IH1 IH2]].
  - split; [constructor | simpl; ring].
  - cbn [map map2].
    assert (Hk : photons
                   (fscale (Position.sqrt (fr * N / photons f)) f)
                 == fr * N).
    { rewrite photons_fscale, Hsq. field. exact Hf. }
    split; [constructor; assumption |].
    cbn [map Qsum fold_right]. fold (Qsum (map photons
      (map2 (fun f0 k => fscale k f0) probe
         (map2 (fun fr0 ph => Position.sqrt (fr0 * N / ph)) fraction
            (map photons probe))))).
    fold (Qsum fraction). rewrite Hk, IH2. ring.
Qed.

(** X18.  [rescale_probe_using_fixed_intensity_photons] gives the probe
    [s] the intensity [probe_power_fraction[s] * Nphotons]; when the
    fractions add up to one, and when they are left to their default, the
    intensities of the rescaled probes add up to [Nphotons].  This needs
    every probe to have photons. *)
Theorem rescale_probe_photons
  (probe : list Field) (Nphotons : Q) (fraction : option (list Q)) :
  let used := power_fraction_or_default (map photons probe) fraction in
  let result :=
    rescale_probe_using_fixed_intensity_photons probe Nphotons fraction in
  Forall2 (rescalable Nphotons) probe used ->
  Forall2 (fun f fr => photons f == fr * Nphotons) result used
  /\ (Qsum used == 1 -> Qsum (map photons result) == Nphotons)
  /\ (fraction = None -> probe <> [] ->
      Qsum (map photons result) == Nphotons).
Proof.
  intros used result H.
  assert (Hres : result
                 = rescale_probe_using_fixed_intensity_photons probe Nphotons
                     (Some used)) by (destruct fraction; reflexivity).
  destruct (rescale_each H) as [H1 H2]. rewrite Hres.
  split; [exact H1 |]. split.
  - intros Hone. rewrite H2, Hone. ring.
  - intros -> Hne. rewrite H2.
    set (phs := map photons probe) in *.
    assert (Hpos : Forall (fun q => 0 < q) phs).
    { unfold phs. rewrite Forall_map.
      apply Forall_forall. intros f Hin.
      assert (Hnz : ~ photons f == 0).
      { clear - H Hin. induction H as [|f0 fr l l' [Hf _] _ IH];
          [contradiction |].
        destruct Hin as [-> | Hin]; [exact Hf | now apply IH]. }
      pose proof (photons_nonneg f). lra. }
    assert (HT : 0 < Qsum phs).
    { apply Qsum_pos; [| exact Hpos].
      unfold phs. destruct probe; [congruence | discriminate]. }
    unfold used, power_fraction_or_default. fold phs.
    rewrite Qsum_scaled. field. lra.
Qed.

(** X19.  After [adjust_probe_power] the intensity of the probe [m] is
    [power[m]**2] times the intensity that the first probe had; with the
    default power, the intensity that the first probe had divided by
    [(m + 1)**2].  This needs every probe to have a non-zero norm. *)
Theorem adjust_probe_power_intensity
  (probe : list Field) (power : list Q) (m : nat) :
  Forall (fun f => norm f * norm f == photons f /\ ~ norm f == 0) probe ->
  (m < length probe)%nat ->
  (length power = length probe ->
   photons (nth m (adjust_probe_power probe (Some power)) [])
   == nth m power 0 * nth m power 0 * photons (nth 0 probe []))
  /\ photons (nth m (adjust_probe_power probe None) [])
     == photons (nth 0 probe [])
        / (inject_Z (Z.of_nat (m + 1)) * inject_Z (Z.of_nat (m + 1))).
Proof.
  intros Hnorm Hm.
  assert (norm_sq : forall k, (k < length probe)%nat ->
            norm (nth k probe []) * norm (nth k probe [])
            == photons (nth k probe [])
            /\ ~ norm (nth k probe []) == 0).
  { intros k Hk. rewrite Forall_forall in Hnorm. apply Hnorm.
    now apply nth_In. }
  assert (Hgen : forall power, length power = length probe ->
            photons (nth m (adjust_probe_power probe (Some power)) [])
            == nth m power 0 * nth m power 0 * photons (nth 0 probe [])).
  { intros pw Hl. unfold adjust_probe_power.
    rewrite nth_scale_each;
      [| exact Hm | rewrite length_map2; rewrite ?length_map; lia].
    rewrite (@ProbeFacts.nth_map2 _ _ _ _ _ _ 0 0 0)
      by (rewrite ?length_map; lia).
    rewrite !(@ProbeFacts.nth_map_lt _ _ norm probe _ []) by lia.
    destruct (norm_sq m Hm) as [Hsq Hn].
    destruct (norm_sq 0%nat) as [Hsq0 _]; [lia |].
    rewrite photons_fscale, <- Hsq, <- Hsq0.
    field. exact Hn. }
  split; [exact (Hgen power) |].
  change (adjust_probe_power probe None)
    with (adjust_probe_power probe
            (Some (map (fun k => 1 / inject_Z (Z.of_nat k))
                     (seq 1 (length probe))))).
  rewrite Hgen by now rewrite length_map, length_seq.
  rewrite (@ProbeFacts.nth_map_lt _ _ _ _ _ 0%nat)
    by now rewrite length_seq.
  rewrite seq_nth by exact Hm.
  replace (1 + m)%nat with (m + 1)%nat by lia.
  assert (Hpos : 0 < inject_Z (Z.of_nat (m + 1))).
  { change 0 with (inject_Z 0). rewrite <- Zlt_Qlt. lia. }
  field. lra.
Qed.

End Power.

Lemma rescale_probe_photons_witness :
  Qsum (map photons
          (rescale_probe_using_fixed_intensity_photons
             (numpy := Samples.numpy) ProbeSamples.probe25 200 None))
  == 200.
Proof.
  destruct (@rescale_probe_photons Samples.numpy ProbeSamples.probe25
              200 None) as (_ & _ & H).
  - repeat constructor; vm_compute; congruence.
  - apply H; [reflexivity | discriminate].
Defined.

Lemma adjust_probe_power_intensity_witness :
  photons (nth 1 (adjust_probe_power (norms := ProbeSamples.norms)
                    ProbeSamples.probe25 None) [])
  == photons (nth 0 ProbeSamples.probe25 []) / (inject_Z 2 * inject_Z 2).
Proof.
  apply (@adjust_probe_power_intensity ProbeSamples.norms
           ProbeSamples.probe25 [1; 1] 1%nat).
  - repeat constructor; vm_compute; congruence.
  - simpl. lia.
Defined.

Section Gaussian.

Context {numpy : Position.Numpy}.

(** Every pixel value lies between zero and one. *)
Lemma gaussian_pixel_range (rmin rmax rs : Q) :
  0 <= gaussian_pixel rmin rmax rs <= 1.
Proof.
  unfold gaussian_pixel. cbv zeta.
  destruct (Qltb rmin rs) eqn:E1; destruct (Qltb rs rmax) eqn:E2;
    cbn [andb].
  - apply Qltb_lt in E1, E2.
    assert (Hd : 0 < rmax - rmin) by lra.
    split.
    + apply Qle_shift_div_l; [exact Hd | lra].
    + apply Qle_shift_div_r; [exact Hd | lra].
  - destruct (Qltb rmax rs); [lra |]. destruct (Qltb rs rmin); lra.
  - destruct (Qltb rmax rs); [lra |]. destruct (Qltb rs rmin); lra.
  - destruct (Qltb rmax rs); [lra |]. destruct (Qltb rs rmin); lra.
Qed.

(** X20.  [gaussian] raises [ValueError] for size zero; for a positive
    size it returns a size by size image whose values all lie between zero
    and one, whatever the radii are. *)
Theorem gaussian_range (size : nat) (rin rout : Q) :
  gaussian 0 rin rout = Raise ValueError
  /\ ((1 <= size)%nat ->
      exists img,
        gaussian size rin rout = Ok img
        /\ length img = size
        /\ Forall (fun row => length row = size
                              /\ Forall (fun v => 0 <= v <= 1) row) img).
Proof.
  split; [reflexivity |]. intros Hsize.
  unfold gaussian. cbv zeta.
  set (rs := map _ (seq 0 size)).
  assert (Hne : concat rs <> []).
  { destruct size as [|n]; [lia |]. subst rs. discriminate. }
  destruct (concat rs) as [|r0 rest] eqn:E; [congruence |].
  rewrite <- E. eexists. split; [reflexivity |].
  split; [subst rs; now rewrite !length_map, length_seq |].
  rewrite Forall_map. subst rs. rewrite Forall_map.
  apply Forall_forall. intros i _. cbv beta.
  split; [now rewrite !length_map, length_seq |].
  rewrite !Forall_map. apply Forall_forall. intros j _.
  apply gaussian_pixel_range.
Qed.

End Gaussian.

Section CenterPeak.

Context {ndimage : Ndimage}.

Lemma argmax_from_range (l : list Q) :
  forall best best_index index,
    argmax_from best best_index index l = best_index
    \/ (index <= argmax_from best best_index index l < index + length l)%nat.
Proof.
  induction l as [|x l IH]; intros best bi i; [now left |].
  cbn [argmax_from length]. destruct (Qltb best x).
  - destruct (IH x i (S i)) as [-> | H]; right; lia.
  - destruct (IH best bi (S i)) as [-> | H]; [now left | right; lia].
Qed.

(** [np.argmax] returns an index of the array. *)
Lemma argmax_lt (l : list Q) : l <> [] -> (argmax l < length l)%nat.
Proof.
  destruct l as [|x l]; [congruence | intros _].
  unfold argmax. cbn [length].
  destruct (argmax_from_range l x 0 1) as [-> | H]; lia.
Qed.

Lemma length_concat_rect {A} (W H : nat) (x : list (list A)) :
  length x = W -> Forall (fun row => length row = H) x ->
  length (concat x) = (W * H)%nat.
Proof.
  intros Hl Hr. subst W. induction Hr as [|r x Hrow _ IH]; [reflexivity |].
  cbn [concat length]. rewrite length_app, IH, Hrow. lia.
Qed.

Lemma length_roll {A} (shift : Z) (l : list A) :
  length (roll shift l) = length l.
Proof.
  unfold roll. destruct l as [|a l]; [reflexivity |].
  set (L := a :: l). rewrite length_app, length_skipn, length_firstn. lia.
Qed.

(** Rolling by [h - c] brings the entry at [c] to [h]. *)
Lemma nth_roll {A} (d : A) (l : list A) (h c : nat) :
  (h < length l)%nat -> (c < length l)%nat ->
  nth h (roll (Z.of_nat h - Z.of_nat c) l) d = nth c l d.
Proof.
  intros Hh Hc. unfold roll.
  destruct l as [|a l]; [simpl in Hh; lia |].
  set (L := a :: l) in *. set (n := length L) in *.
  cbv zeta.
  destruct (Nat.le_gt_cases c h) as [Hle | Hgt].
  - assert (Hk : Z.to_nat ((Z.of_nat h - Z.of_nat c) mod Z.of_nat n)
                 = (h - c)%nat).
    { rewrite Z.mod_small by lia. lia. }
    rewrite Hk.
    rewrite app_nth2; rewrite length_skipn; fold n; [| lia].
    replace (h - (n - (n - (h - c))))%nat with c by lia.
    apply nth_firstn_lt. lia.
  - assert (Hk : Z.to_nat ((Z.of_nat h - Z.of_nat c) mod Z.of_nat n)
                 = (n - (c - h))%nat).
    { replace (Z.of_nat h - Z.of_nat c)%Z
        with (Z.of_nat (n - (c - h)) + (-1) * Z.of_nat n)%Z by lia.
      rewrite Z.mod_add by lia. rewrite Z.mod_small by lia. lia. }
    rewrite Hk.
    rewrite app_nth1 by (rewrite length_skipn; fold n; lia).
    rewrite nth_skipn. f_equal. lia.
Qed.

Lemma Forall2_first {A B} (P : A -> B -> Prop) (l : list A) (l' : list B)
  (d : A) (d' : B) :
  Forall2 P l l' -> l' <> [] -> P (nth 0 l d) (nth 0 l' d').
Proof. intros [|a b l0 l0' H _] Hne; [congruence | exact H]. Qed.

(** X21.  [constrain_center_peak] keeps the shape of every image and moves
    the pixel where the smoothed total intensity is largest to the centre
    [(WIDE // 2, HIGH // 2)] of every image, when the filter returns an
    image of the shape of its input. *)
Theorem constrain_center_peak_moves_peak
  (probe : list Field) (W H : nat) (d : C) :
  (1 <= W)%nat -> (1 <= H)%nat -> probe <> [] ->
  Forall (fun f => length f = W /\ Forall (fun row => length row = H) f)
         probe ->
  (let smoothed :=
     gaussian_filter (total_intensity probe) ((W / 2)%nat, (H / 2)%nat) in
   length smoothed = W /\ Forall (fun row => length row = H) smoothed) ->
  (fst (peak_coords probe) < W)%nat
  /\ (snd (peak_coords probe) < H)%nat
  /\ Forall2
       (fun f' f =>
          length f' = W
          /\ Forall (fun row => length row = H) f'
          /\ nth (H / 2) (nth (W / 2) f' []) d
             = nth (snd (peak_coords probe))
                 (nth (fst (peak_coords probe)) f []) d)
       (constrain_center_peak probe) probe.
Proof.
  intros HW HH Hne Hshape Hfilter.
  assert (Hhd : length (hd [] probe) = W
                /\ length (hd [] (hd [] probe)) = H).
  { destruct probe as [|f probe]; [congruence |].
    inversion Hshape as [|? ? [Hf Hrows] _]. cbn [hd].
    split; [exact Hf |].
    destruct f as [|row f]; [simpl in Hf; lia |].
    inversion Hrows as [|? ? Hrow _]. exact Hrow. }
  destruct Hhd as [HdW HdH].
  assert (Hc : (fst (peak_coords probe) < W)%nat
               /\ (snd (peak_coords probe) < H)%nat).
  { unfold peak_coords. rewrite HdW, HdH. cbv zeta.
    cbn [fst snd unravel_index]. cbv zeta in Hfilter.
    destruct Hfilter as [Hl Hr].
    set (smoothed := gaussian_filter _ _) in *.
    assert (Hlen : length (concat smoothed) = (W * H)%nat)
      by now apply length_concat_rect.
    assert (Hlt : (argmax (concat smoothed) < W * H)%nat).
    { rewrite <- Hlen. apply argmax_lt. intros E. rewrite E in Hlen.
      simpl in Hlen. nia. }
    split.
    - apply Nat.Div0.div_lt_upper_bound. lia.
    - apply Nat.mod_upper_bound. lia. }
  destruct Hc as [Hc0 Hc1].
  split; [exact Hc0 |]. split; [exact Hc1 |].
  unfold constrain_center_peak. rewrite HdW, HdH. cbv zeta. cbn [fst snd].
  set (c0 := fst (peak_coords probe)) in *.
  set (c1 := snd (peak_coords probe)) in *.
  rewrite map_map. clearbody c0 c1. clear Hfilter Hne HdW HdH.
  induction Hshape as [|f probe [Hf Hrows] _ IH]; cbn [map]; constructor.
  - split; [now rewrite length_map, length_roll |].
    assert (Hrolled : Forall (fun row => length row = H)
                        (roll (Z.of_nat (W / 2) - Z.of_nat c0) f)).
    { unfold roll. destruct f as [|a f]; [constructor |].
      apply Forall_app. split.
      - rewrite <- (firstn_skipn (length (a :: f)
            - Z.to_nat ((Z.of_nat (W / 2) - Z.of_nat c0)
                        mod Z.of_nat (length (a :: f)))) (a :: f)) in Hrows.
        apply Forall_app in Hrows. tauto.
      - rewrite <- (firstn_skipn (length (a :: f)
            - Z.to_nat ((Z.of_nat (W / 2) - Z.of_nat c0)
                        mod Z.of_nat (length (a :: f)))) (a :: f)) in Hrows.
        apply Forall_app in Hrows. tauto. }
    split.
    + rewrite Forall_map. eapply Forall_impl; [| exact Hrolled].
      intros row Hrow. cbv beta in *. now rewrite length_roll.
    + assert (HW2 : (W / 2 < W)%nat) by (apply Nat.div_lt; lia).
      assert (HH2 : (H / 2 < H)%nat) by (apply Nat.div_lt; lia).
      rewrite (@ProbeFacts.nth_map_lt _ _ _ _ _ [])
        by (rewrite length_roll; lia).
      rewrite (@nth_roll _ [] f) by lia.
      apply nth_roll; [| rewrite Forall_forall in Hrows;
                         rewrite (Hrows (nth c0 f [])); [lia |];
                         apply nth_In; lia].
      rewrite Forall_forall in Hrows.
      rewrite (Hrows (nth c0 f [])); [lia |]. apply nth_In. lia.
  - exact IH.
Qed.

End CenterPeak.

Lemma constrain_center_peak_moves_peak_witness :
  nth 1 (nth 1 (nth 0 (constrain_center_peak (ndimage := ProbeSamples.ndimage)
                         ProbeSamples.corner_probe) []) []) (0, 0)
  = (3, 0).
Proof.
  destruct (@constrain_center_peak_moves_peak ProbeSamples.ndimage
              ProbeSamples.corner_probe 2%nat 2%nat (0, 0))
    as (_ & _ & H).
  - lia.
  - lia.
  - discriminate.
  - repeat constructor.
  - split; [reflexivity | repeat constructor].
  - apply (@Forall2_first _ _ _ _ _ [] [] H). discriminate.
Defined.

Section RandomPhase.

Context {phases : Phases}.

Lemma Cabs2_Cmul (a b : C) : Cabs2 (Cmul a b) == Cabs2 a * Cabs2 b.
Proof. unfold Cabs2, Cmul, Cre, Cim; simpl. ring. Qed.

(** A pixel of a phase-shifted image. *)
Lemma nth_phase_shifted (image : Field) (shift0 shift1 : list C)
  (i j : nat) (d : C) :
  (i < length image)%nat -> (i < length shift1)%nat ->
  (j < length (nth i image []))%nat -> (j < length shift0)%nat ->
  nth j (nth i (phase_shifted image shift0 shift1) []) d
  = Cmul (Cmul (nth j (nth i image []) d) (nth j shift0 d)) (nth i shift1 d).
Proof.
  intros Hi Hi' Hj Hj'. unfold phase_shifted.
  rewrite (@ProbeFacts.nth_map2 _ _ _
             (fun row s1 => map2 (fun z s0 => Cmul (Cmul z s0) s1) row shift0)
             image shift1 [] d []) by assumption.
  apply (@ProbeFacts.nth_map2 _ _ _
           (fun z s0 => Cmul (Cmul z s0) (nth i shift1 d))
           (nth i image []) shift0 d d d); assumption.
Qed.

(** X22.  [add_modes_random_phase] returns [nmodes] probes: the given
    probes come first, unchanged (and cut to [nmodes] when there are
    more), and every further probe has, pixel by pixel, the intensity of
    the first given probe, when the phase factors have modulus one. *)
Theorem add_modes_random_phase_modes
  (probe : list Field) (nmodes : nat) (d : C) :
  let pw := length (hd [] (hd [] probe)) in
  length (hd [] probe) = pw ->
  Forall (fun row => length row = pw) (hd [] probe) ->
  (forall k, (k < nmodes - length probe)%nat ->
     Forall (fun z => Cabs2 z == 1) (shift_row (fst (rand2 k)) pw)
     /\ Forall (fun z => Cabs2 z == 1) (shift_row (snd (rand2 k)) pw)) ->
  length (add_modes_random_phase probe nmodes) = nmodes
  /\ (forall m, (m < nmodes)%nat -> (m < length probe)%nat ->
        nth m (add_modes_random_phase probe nmodes) [] = nth m probe [])
  /\ (forall m i j, (length probe <= m < nmodes)%nat ->
        (i < pw)%nat -> (j < pw)%nat ->
        Cabs2 (nth j (nth i (nth m (add_modes_random_phase probe nmodes) [])
                        []) d)
        == Cabs2 (nth j (nth i (nth 0 probe []) []) d)).
Proof.
  intros pw Hsq Hrows Hunit.
  assert (Hnth : forall m, (m < nmodes)%nat ->
            nth m (add_modes_random_phase probe nmodes) []
            = if (m <? length probe)%nat then nth m probe []
              else phase_shifted (nth 0 probe [])
                     (shift_row (fst (rand2 (m - length probe))) pw)
                     (shift_row (snd (rand2 (m - length probe))) pw)).
  { intros m Hm. unfold add_modes_random_phase. fold pw.
    rewrite (@ProbeFacts.nth_map_lt _ _ _ _ _ 0%nat)
      by now rewrite length_seq.
    rewrite seq_nth by exact Hm. reflexivity. }
  split; [unfold add_modes_random_phase; now rewrite length_map, length_seq |].
  split.
  - intros m Hm HmM. rewrite Hnth by exact Hm.
    destruct (Nat.ltb_spec m (length probe)); [reflexivity | lia].
  - intros m i j [HmM Hm] Hi Hj. rewrite Hnth by exact Hm.
    destruct (Nat.ltb_spec m (length probe)); [lia |].
    assert (H0 : nth 0 probe [] = hd [] probe) by now destruct probe.
    rewrite H0 in *.
    destruct (Hunit (m - length probe)%nat) as [U0 U1]; [lia |].
    assert (Hls : forall r, length (shift_row r pw) = pw)
      by (intros r; unfold shift_row; now rewrite length_map, length_seq).
    assert (Hrow : length (nth i (hd [] probe) []) = pw).
    { rewrite Forall_forall in Hrows. apply Hrows, nth_In. lia. }
    rewrite nth_phase_shifted by (rewrite ?Hls, ?Hrow; lia).
    rewrite !Cabs2_Cmul.
    rewrite Forall_forall in U0, U1.
    rewrite (U0 (nth j (shift_row (fst (rand2 (m - length probe))) pw) d))
      by (apply nth_In; rewrite Hls; lia).
    rewrite (U1 (nth i (shift_row (snd (rand2 (m - length probe))) pw) d))
      by (apply nth_In; rewrite Hls; lia).
    ring.
Qed.

End RandomPhase.

Lemma add_modes_random_phase_modes_witness :
  length (add_modes_random_phase (phases := ProbeSamples.phases)
            ProbeSamples.shared2 3) = 3%nat
  /\ Cabs2 (nth 0 (nth 0 (nth 2 (add_modes_random_phase
                                   (phases := ProbeSamples.phases)
                                   ProbeSamples.shared2 3) []) []) (0, 0))
     == 1.
Proof.
  destruct (@add_modes_random_phase_modes ProbeSamples.phases
              ProbeSamples.shared2 3%nat (0, 0)) as (Hl & _ & H).
  - reflexivity.
  - repeat constructor.
  - intros k _. split; repeat constructor.
  - split; [exact Hl |].
    rewrite (H 2%nat 0%nat 0%nat); [reflexivity | | |]; simpl; lia.
Defined.

Section Hermite.

Context {numpy : Position.Numpy} {norms : Norms}.

Lemma length_loop_pairs (N M : nat) :
  length (loop_pairs N M) = (N * M)%nat.
Proof.
  unfold loop_pairs. generalize 0%nat at 2.
  induction N as [|N IH]; intros a; [reflexivity |].
  cbn [seq flat_map]. rewrite length_app, length_map, length_seq, IH. lia.
Qed.

(** The loops return as soon as [nmodes] probes are collected, and they
    get there when enough pairs are left. *)
Lemma hermite_loop_returns
  (probe : Field) (X Y : list (list Q)) (cenx ceny varx vary : Q)
  (nmodes : nat) (pairs : list (nat * nat)) :
  forall new_probes,
    (length new_probes < nmodes)%nat ->
    (nmodes <= length new_probes + length pairs)%nat ->
    exists modes,
      hermite_loop probe X Y cenx ceny varx vary nmodes pairs new_probes
      = PositionMore.Returns modes
      /\ length modes = nmodes.
Proof.
  induction pairs as [|[nii mii] pairs IH]; intros new_probes Hlt Hle;
    [simpl in Hle; lia |].
  cbn [hermite_loop]. cbv zeta.
  set (grown := new_probes ++ [_]).
  assert (Hg : length grown = Datatypes.S (length new_probes))
    by (unfold grown; rewrite length_app; simpl; lia).
  destruct (Nat.eqb_spec (length grown) nmodes) as [E | E].
  - eexists. split; [reflexivity |]. rewrite length_firstn. lia.
  - apply IH; [lia | simpl in Hle; lia].
Qed.

(** X23.  [add_modes_cartesian_hermite] raises [ValueError] for
    [nmodes < 1]; for [nmodes >= 1] it returns exactly [nmodes] probes,
    and the [RuntimeError] after its loops is never raised.  The square
    root of [nmodes] is taken to be positive. *)
Theorem add_modes_cartesian_hermite_returns (probe : Field) (nmodes : Z) :
  ((nmodes < 1)%Z ->
   add_modes_cartesian_hermite probe nmodes
   = PositionMore.Throws (PositionMore.Builtin ValueError))
  /\ ((1 <= nmodes)%Z -> 0 < Position.sqrt (inject_Z nmodes) ->
      exists modes,
        add_modes_cartesian_hermite probe nmodes = PositionMore.Returns modes
        /\ Z.of_nat (length modes) = nmodes).
Proof.
  unfold add_modes_cartesian_hermite. split.
  - intros H. apply Z.ltb_lt in H. now rewrite H.
  - intros Hn Hsqrt.
    destruct (Z.ltb_spec nmodes 1) as [? | _]; [lia |]. cbv zeta.
    set (M := Qceiling (Position.sqrt (inject_Z nmodes))).
    set (N := Qceiling (inject_Z nmodes / inject_Z M)).
    assert (HM : (1 <= M)%Z).
    { subst M. pose proof (Qle_ceiling (Position.sqrt (inject_Z nmodes))) as Hc.
      assert (H0 : 0 < inject_Z (Qceiling (Position.sqrt (inject_Z nmodes))))
        by lra.
      change 0 with (inject_Z 0) in H0. rewrite <- Zlt_Qlt in H0. lia. }
    assert (HMq : 0 < inject_Z M).
    { change 0 with (inject_Z 0). rewrite <- Zlt_Qlt. lia. }
    assert (HN : (nmodes <= N * M)%Z).
    { subst N. pose proof (Qle_ceiling (inject_Z nmodes / inject_Z M)) as Hc.
      set (N' := Qceiling (inject_Z nmodes / inject_Z M)) in *.
      assert (H1 : inject_Z nmodes <= inject_Z N' * inject_Z M).
      { assert (E : inject_Z nmodes
                    == inject_Z nmodes / inject_Z M * inject_Z M)
          by (field; lra).
        rewrite E at 1. apply Qmult_le_compat_r; [exact Hc | lra]. }
      rewrite <- inject_Z_mult in H1. now rewrite <- Zle_Qle in H1. }
    assert (HN0 : (0 <= N)%Z) by nia.
    match goal with
    | |- exists modes,
           hermite_loop ?p ?X ?Y ?a ?b ?c ?d ?n ?pairs ?acc = _ /\ _ =>
        destruct (@hermite_loop_returns p X Y a b c d n pairs acc)
          as (modes & Hret & Hlen)
    end.
    + simpl. lia.
    + rewrite length_loop_pairs. simpl. nia.
    + exists modes. split; [exact Hret | lia].
Qed.

End Hermite.

Lemma add_modes_cartesian_hermite_returns_witness :
  exists modes,
    add_modes_cartesian_hermite (numpy := Samples.numpy)
      (norms := ProbeSamples.norms) [[(3, 0); (0, 0)]; [(0, 0); (0, 4)]] 3
    = PositionMore.Returns modes
    /\ Z.of_nat (length modes) = 3%Z.
Proof.
  apply (@add_modes_cartesian_hermite_returns Samples.numpy
           ProbeSamples.norms [[(3, 0); (0, 0)]; [(0, 0); (0, 4)]] 3%Z).
  - lia.
  - reflexivity.
Defined.

Section OrthogonalizeEig.

Context {eigh_ : Eigh} {norms : Norms}.

Lemma length_rotated (x : list Field) : length (rotated x) = length x.
Proof. unfold rotated, rotate_modes. now rewrite length_map, length_seq. Qed.

Lemma length_rotated_power (x : list Field) :
  length (rotated_power x) = length x.
Proof. unfold rotated_power. now rewrite length_map, length_rotated. Qed.

Lemma descending_order_perm (x : list Field) :
  Permutation (descending_order x) (seq 0 (length x)).
Proof.
  unfold descending_order. rewrite <- Permutation_rev.
  rewrite <- (length_rotated_power x). apply ProbeFacts.argsort_perm.
Qed.

(** Reversing the stable ascending order: a later mode has less power, or
    the same power and a smaller original index. *)
Lemma descending_order_sorted (x : list Field) (k k' : nat) :
  (k < k' < length x)%nat ->
  let power := rotated_power x in
  let order := descending_order x in
  nth (nth k' order 0%nat) power 0 < nth (nth k order 0%nat) power 0
  \/ (nth (nth k' order 0%nat) power 0 == nth (nth k order 0%nat) power 0
      /\ (nth k' order 0 < nth k order 0)%nat).
Proof.
  intros Hk power order. subst order. unfold descending_order, argsort.
  fold power.
  set (sp := sort_keys (combine power (seq 0 (length power)))).
  assert (Hlen : length sp = length x).
  { unfold sp.
    rewrite (Permutation_length (ProbeFacts.sort_keys_perm _)).
    rewrite length_combine, length_seq, Nat.min_id.
    apply length_rotated_power. }
  assert (Hlm : length (map snd sp) = length x) by now rewrite length_map.
  rewrite !rev_nth by lia. rewrite Hlm.
  change 0%nat with (snd ((0, 0%nat) : Q * nat)). rewrite !map_nth.
  assert (Hidx : (length x - Datatypes.S k' < length x - Datatypes.S k
                  < length sp)%nat) by lia.
  pose proof (ProbeFacts.StronglySorted_nth (0, 0%nat)
                (ProbeFacts.sort_keys_sorted power 0) Hidx) as Hlex.
  fold sp in Hlex.
  assert (Hkey : Forall (fun p => fst p = nth (snd p) power 0) sp).
  { apply ProbeFacts.sort_keys_Forall.
    eapply Forall_impl; [| apply (ProbeFacts.combine_seq_index power 0)].
    intros [q j] [_ H]; simpl in *. now rewrite Nat.sub_0_r in H. }
  rewrite Forall_forall in Hkey.
  assert (Hk1 : (length x - Datatypes.S k' < length sp)%nat) by lia.
  assert (Hk2 : (length x - Datatypes.S k < length sp)%nat) by lia.
  assert (H1 := Hkey _ (nth_In sp (0, 0%nat) Hk1)).
  assert (H2 := Hkey _ (nth_In sp (0, 0%nat) Hk2)).
  destruct Hlex as [Hlt | [Heq Hlt]].
  - left. rewrite H1, H2 in Hlt. exact Hlt.
  - right. rewrite H1, H2 in Heq. split; [exact Heq | exact Hlt].
Qed.

Lemma nth_take {A} (d d' : A) (l : list A) (indices : list nat) (k : nat) :
  (k < length indices)%nat ->
  nth k (PositionMore.take d l indices) d' = nth (nth k indices 0%nat) l d.
Proof.
  intros H. unfold PositionMore.take.
  now rewrite (@ProbeFacts.nth_map_lt _ _ _ indices k 0%nat).
Qed.

(** X25.  [orthogonalize_eig] returns as many modes as it is given,
    together with their power: the power at [k] is the squared norm of
    the mode at [k], and the powers come in descending order.  Modes of
    equal power come in the reverse of their order after the rotation,
    the stable ascending order being reversed. *)
Theorem orthogonalize_eig_descending (x : list Field) :
  let result := fst (orthogonalize_eig x) in
  let power := snd (orthogonalize_eig x) in
  length result = length x
  /\ length power = length x
  /\ (forall k, (k < length x)%nat ->
        nth k power 0 = norm (nth k result []) * norm (nth k result []))
  /\ (forall k k', (k < k' < length x)%nat ->
        nth k' power 0 <= nth k power 0)
  /\ (forall k k', (k < k' < length x)%nat ->
        nth k' power 0 == nth k power 0 ->
        (nth k' (descending_order x) 0 < nth k (descending_order x) 0)%nat).
Proof.
  intros result power. subst result power. unfold orthogonalize_eig.
  cbn [fst snd].
  pose proof (descending_order_perm x) as Hperm.
  assert (Hlo : length (descending_order x) = length x)
    by now rewrite (Permutation_length Hperm), length_seq.
  assert (Hin : forall k, (k < length x)%nat ->
            (nth k (descending_order x) 0 < length x)%nat).
  { intros k Hk.
    assert (In (nth k (descending_order x) 0%nat) (seq 0 (length x))).
    { eapply Permutation_in; [exact Hperm |]. apply nth_In. lia. }
    apply in_seq in H. lia. }
  split; [now rewrite PositionMoreFacts.length_take |].
  split; [now rewrite PositionMoreFacts.length_take |].
  split; [| split].
  - intros k Hk. rewrite !(@nth_take _ _ _ _ _ k) by lia.
    unfold rotated_power.
    rewrite (@ProbeFacts.nth_map_lt _ _ _ (rotated x) _ [])
      by (rewrite length_rotated; now apply Hin).
    reflexivity.
  - intros k k' Hk. rewrite !(@nth_take _ 0 0) by lia.
    destruct (descending_order_sorted x Hk) as [H | [H _]]; lra.
  - intros k k' Hk. rewrite !(@nth_take _ 0 0) by lia. intros Heq.
    destruct (descending_order_sorted x Hk) as [H | [_ H]];
      [lra | exact H].
Qed.

End OrthogonalizeEig.

End ProbeMoreFacts.

(** * Facts about [PtychoParameters.resample] *)

Module ResampleFacts.

Import Position PositionMore SolverOptions Resample.

Section Resampled.

Variables AlgorithmOptions ObjectOptions ExitWaveOptions : Type.

Context {resize : Resize ObjectOptions ExitWaveOptions}.

Lemma bind_Ok {A B} (r : Result A) (k : A -> Result B) (b : B) :
  bind r k = Ok b -> exists a, r = Ok a /\ k a = Ok b.
Proof. destruct r as [a | e]; [intros H; now exists a | discriminate]. Qed.

(** X24.  Whenever [PtychoParameters.resample] returns, the new parameters
    have no position options, whatever the old ones had, because
    [PositionOptions.resample] returns None; the scan is the old scan
    times the factor; the weights and the algorithm options are the old
    ones; the probe options, if there were any, come back with
    [additional_probe_penalty] reset to zero and without moments; the exit
    wave options are filled in; and the new arrays have passed the
    validation of [__post_init__]. *)
Theorem resample_drops_position_options
  (self new : PtychoParameters AlgorithmOptions ObjectOptions ExitWaveOptions)
  (factor : Q) (interp : option (Probe.Field -> Q -> Result Probe.Field)) :
  PtychoParameters_resample self factor interp = Ok new ->
  position_options new = None
  /\ scan new = map (fun p => Pscale factor p) (scan self)
  /\ psi new = _resize_spline (psi self) factor
  /\ eigen_weights new = eigen_weights self
  /\ algorithm_options new = algorithm_options self
  /\ (forall po, probe_options self = Some po ->
        exists po',
          probe_options new = Some po'
          /\ additional_probe_penalty po' = 0
          /\ v po' = None /\ m po' = None
          /\ recover_probe po' = recover_probe po
          /\ force_sparsity po' = force_sparsity po)
  /\ exitwave_options new <> None
  /\ PtychoParameters_post_init (probe new) (psi new) (scan new) = Ok tt.
Proof.
  unfold PtychoParameters_resample. intros H.
  apply bind_Ok in H. destruct H as (new_probe & _ & H).
  apply bind_Ok in H. destruct H as (new_eigen & _ & H).
  unfold PtychoParameters_init in H.
  apply bind_Ok in H. destruct H as ([] & Hpost & H).
  injection H as <-. cbn.
  split.
  { destruct (position_options self); reflexivity. }
  do 4 (split; [reflexivity |]).
  split.
  { intros po ->. eexists. split; [reflexivity |]. repeat split. }
  split; [| exact Hpost].
  destruct (exitwave_options self); discriminate.
Qed.

End Resampled.

Lemma resample_drops_position_options_witness :
  exists new,
    PtychoParameters_resample (resize := ResampleSamples.resize)
      ResampleSamples.parameters 1 None = Ok new
    /\ position_options ResampleSamples.parameters <> None
    /\ position_options new = None.
Proof.
  destruct (PtychoParameters_resample (resize := ResampleSamples.resize)
              ResampleSamples.parameters 1 None)
    as [new | e] eqn:E; [| vm_compute in E; discriminate].
  exists new. split; [reflexivity |]. split; [discriminate |].
  exact (proj1 (@resample_drops_position_options unit unit
                  (list (list bool)) ResampleSamples.resize
                  ResampleSamples.parameters new 1 None E)).
Defined.

End ResampleFacts.

(** * Facts about communicators/stream.py *)

Module StreamFacts.

Import Stream.

Section Sums.

Variables Row Y : Type.
Variable add : Y -> Y -> Y.
Variable zero : Y.

Hypothesis add_comm : forall a b, add a b = add b a.
Hypothesis add_assoc : forall a b c, add a (add b c) = add (add a b) c.
Hypothesis add_zero_l : forall a, add zero a = a.

Lemma fold_left_add_last (l : list Y) (a y : Y) :
  fold_left add l (add a y) = add (fold_left add l a) y.
Proof.
  revert a. induction l as [|h t IH]; intros a; [reflexivity |].
  cbn [fold_left]. rewrite <- IH. f_equal.
  rewrite <- !add_assoc. f_equal. apply add_comm.
Qed.

(** Adding [y] to one entry adds [y] to the sum of the entries. *)
Lemma total_accumulate (j : nat) (y : Y) :
  forall (l : list Y) (a : Y),
    (j < length l)%nat ->
    fold_left add (accumulate add zero j l y) a = add (fold_left add l a) y.
Proof.
  unfold accumulate. induction j as [|j IH]; intros [|h t] a Hj;
    simpl in Hj; try lia; cbn [Probe.set_nth nth fold_left].
  - rewrite add_assoc. apply fold_left_add_last.
  - apply IH. lia.
Qed.

Lemma total_zeros (n : nat) : fold_left add (repeat zero n) zero = zero.
Proof.
  induction n as [|n IH]; [reflexivity |].
  cbn [repeat fold_left]. now rewrite add_zero_l.
Qed.

Lemma totals_accumulate (j ns : nat) :
  forall (sums : list (list Y)) (results : list Y),
    length results = length sums ->
    Forall (fun y_sum => length y_sum = ns) sums -> (j < ns)%nat ->
    map (fun y_sum => fold_left add y_sum zero)
        (map2 (accumulate add zero j) sums results)
    = map2 add (map (fun y_sum => fold_left add y_sum zero) sums) results
    /\ Forall (fun y_sum => length y_sum = ns)
         (map2 (accumulate add zero j) sums results).
Proof.
  induction sums as [|ys sums IH]; intros [|y results] Hl Hs Hj;
    simpl in Hl; try discriminate; [split; [reflexivity | constructor] |].
  inversion Hs as [|? ? Hys Hs']; subst.
  destruct (IH results) as [IH1 IH2]; [congruence | assumption | assumption |].
  cbn [map2 map]. split.
  - rewrite IH1. f_equal. now apply total_accumulate.
  - constructor; [| exact IH2]. unfold accumulate.
    apply ProbeFacts.length_set_nth.
Qed.

Lemma gather_in_range (x : list Row) (indices : list nat) :
  Forall (fun i => (i < length x)%nat) indices ->
  exists c, gather x indices = Some c /\ length c = length indices.
Proof.
  induction 1 as [|i indices Hi _ (c & Hc & Hl)]; [now exists [] |].
  cbn [gather]. rewrite Hc.
  destruct (nth_error x i) as [r|] eqn:E.
  - exists (r :: c). split; [reflexivity | simpl; congruence].
  - apply nth_error_None in E. lia.
Qed.

Lemma gather_all_in_range (args : list (list Row)) (indices : list nat) :
  Forall (fun x => Forall (fun i => (i < length x)%nat) indices) args ->
  exists chunks,
    gather_all args indices = Some chunks
    /\ length chunks = length args
    /\ Forall (fun c => length c = length indices) chunks.
Proof.
  induction 1 as [|x args Hx _ (cs & Hcs & Hl & Hf)];
    [exists []; repeat split; constructor |].
  destruct (@gather_in_range x indices Hx) as (c & Hc & Hlc).
  cbn [gather_all]. rewrite Hc, Hcs. exists (c :: cs).
  split; [reflexivity |]. split; [simpl; congruence |].
  now constructor.
Qed.

(** What is read from a buffer is what was just written there, whatever
    the buffer held. *)
Lemma read_write_slice (x_gpu chunk : list Row) (buflo : nat) :
  (buflo + length chunk <= length x_gpu)%nat ->
  read_slice (write_slice x_gpu buflo chunk) buflo (buflo + length chunk)
  = chunk
  /\ length (write_slice x_gpu buflo chunk) = length x_gpu.
Proof.
  intros H. unfold read_slice, write_slice.
  assert (Hf : length (firstn buflo x_gpu) = buflo)
    by (rewrite length_firstn; lia).
  split.
  - rewrite skipn_app, Hf, Nat.sub_diag. cbn [skipn].
    rewrite skipn_all2 by lia. cbn [app].
    replace (buflo + length chunk - buflo)%nat with (length chunk) by lia.
    rewrite firstn_app, Nat.sub_diag, firstn_all. cbn [firstn].
    apply app_nil_r.
  - rewrite !length_app, Hf, length_skipn. lia.
Qed.

Lemma read_write_all (buflo L n : nat) :
  forall (buffers chunks : list (list Row)),
    length buffers = length chunks ->
    Forall (fun b => length b = n) buffers ->
    Forall (fun c => length c = L) chunks ->
    (buflo + L <= n)%nat ->
    map (fun x_gpu => read_slice x_gpu buflo (buflo + L))
        (map2 (fun x_gpu c => write_slice x_gpu buflo c) buffers chunks)
    = chunks
    /\ Forall (fun b => length b = n)
         (map2 (fun x_gpu c => write_slice x_gpu buflo c) buffers chunks)
    /\ length (map2 (fun x_gpu c => write_slice x_gpu buflo c)
                 buffers chunks) = length chunks.
Proof.
  induction buffers as [|b buffers IH]; intros [|c chunks] Hl Hb Hc Hle;
    simpl in Hl; try discriminate;
    [repeat split; constructor |].
  inversion Hb as [|? ? Hb0 Hb']; subst.
  inversion Hc as [|? ? Hc0 Hc']; subst.
  destruct (IH chunks) as (IH1 & IH2 & IH3);
    [congruence | assumption | assumption | assumption |].
  destruct (@read_write_slice b c buflo) as [R1 R2]; [lia |].
  cbn [map2 map]. split; [| split].
  - now rewrite R1, IH1.
  - constructor; [exact R2 | exact IH2].
  - simpl. now rewrite IH3.
Qed.

Lemma In_firstn_skipn {A} (a c : nat) (l : list A) (i : A) :
  In i (firstn c (skipn a l)) -> In i l.
Proof.
  intros H. rewrite <- (firstn_skipn a l). apply in_or_app. right.
  rewrite <- (firstn_skipn c (skipn a l)). apply in_or_app. now left.
Qed.

(** X26.  [stream_and_reduce] raises [ZeroDivisionError] when there is
    nothing to process and when it is given no stream.  Otherwise, with
    indices inside the arrays and an [f] that returns [outputs] arrays, it
    returns [f] of the rows of each chunk of at most 64 indices, added up
    over the chunks: the result does not depend on the number of streams,
    and [f] never reads a row that [cp.empty_like] left in a buffer. *)
Theorem stream_and_reduce_sums
  (f : list (list Row) -> list Y) (args : list (list Row))
  (empty : nat -> Row) (outputs streams : nat) (indices : list nat) :
  stream_and_reduce add zero f args empty outputs streams (Some [])
  = Fails ZeroDivisionError
  /\ (indices <> [] ->
      stream_and_reduce add zero f args empty outputs 0 (Some indices)
      = Fails ZeroDivisionError)
  /\ (indices <> [] -> (1 <= streams)%nat ->
      Forall (fun x => Forall (fun i => (i < length x)%nat) indices) args ->
      (forall chunks, length (f chunks) = outputs) ->
      stream_and_reduce add zero f args empty outputs streams (Some indices)
      = Done (sum_of_chunks add zero f args indices outputs)).
Proof.
  split; [reflexivity |].
  assert (Hcs : indices <> [] ->
            (1 <= Nat.min 64 (length indices))%nat).
  { intros Hne. destruct indices; [congruence | simpl length; lia]. }
  split.
  { intros Hne. specialize (Hcs Hne). unfold stream_and_reduce.
    destruct (Nat.eqb_spec (Nat.min 64 (length indices)) 0); [lia |].
    reflexivity. }
  intros Hne Hstreams Hrange Hf. specialize (Hcs Hne).
  unfold stream_and_reduce, sum_of_chunks.
  set (N := length indices) in *. set (c := Nat.min 64 N) in *.
  cbv zeta.
  destruct (Nat.eqb_spec c 0) as [? | _]; [lia |].
  set (C := ceil_div N c).
  assert (HC : (1 <= C)%nat).
  { subst C. unfold ceil_div.
    assert (N <> 0)%nat by (subst N; destruct indices; simpl; congruence).
    apply Nat.div_le_lower_bound; lia. }
  set (ns := Nat.min streams C).
  assert (Hns : (1 <= ns)%nat) by (subst ns; lia).
  destruct (Nat.eqb_spec ns 0) as [? | _]; [lia |].
  set (b0 := mkBuffers _ _).
  assert (Hloop : forall k, (k <= C)%nat ->
            exists b,
              fold_left (stream_step add zero f args indices c ns)
                        (seq 0 k) (Done b0) = Done b
              /\ length (args_gpu b) = length args
              /\ Forall (fun x => length x = (ns * c)%nat) (args_gpu b)
              /\ length (y_sums b) = outputs
              /\ Forall (fun y_sum => length y_sum = ns) (y_sums b)
              /\ map (fun y_sum => fold_left add y_sum zero) (y_sums b)
                 = fold_left (map2 add)
                     (map (chunk_outputs f args indices c) (seq 0 k))
                     (repeat zero outputs)).
  { induction k as [|k IH]; intros Hk.
    - exists b0. split; [reflexivity |]. subst b0. cbn [args_gpu y_sums].
      split; [apply length_map |].
      split; [rewrite Forall_map; apply Forall_forall; intros x _;
              now rewrite length_map, length_seq |].
      split; [apply repeat_length |].
      split; [apply Forall_forall; intros y Hy; apply repeat_spec in Hy;
              subst y; apply repeat_length |].
      cbn [seq map fold_left]. rewrite map_repeat. f_equal.
      apply total_zeros.
    - destruct IH as (b & Hb & Hla & Hfa & Hly & Hfy & Hsum); [lia |].
      rewrite seq_S, fold_left_app, Hb. cbn [Nat.add fold_left stream_step].
      cbv zeta.
      set (chunk := firstn c (skipn (k * c) indices)).
      assert (Hchunk : Forall (fun x => Forall (fun i => (i < length x)%nat)
                                          chunk) args).
      { eapply Forall_impl; [| exact Hrange]. intros x Hx. cbv beta in *.
        rewrite Forall_forall in *. intros i Hi. apply Hx.
        unfold chunk in Hi. apply (In_firstn_skipn (k * c) c indices i Hi). }
      destruct (@gather_all_in_range args chunk Hchunk)
        as (chunks & Hg & Hlc & Hfc).
      rewrite Hg.
      assert (HL : (length chunk <= c)%nat)
        by (unfold chunk; rewrite length_firstn; lia).
      assert (Hj : (k mod ns < ns)%nat) by (apply Nat.mod_upper_bound; lia).
      destruct (@read_write_all (k mod ns * c) (length chunk) (ns * c)
                  (args_gpu b) chunks) as (R1 & R2 & R3);
        [congruence | assumption | assumption | nia |].
      rewrite R1.
      destruct (@totals_accumulate (k mod ns) ns (y_sums b) (f chunks))
        as [T1 T2]; [rewrite Hf; congruence | assumption | assumption |].
      eexists. split; [reflexivity |]. cbn [args_gpu y_sums].
      split; [congruence |]. split; [exact R2 |].
      split; [rewrite length_map2; [exact Hly | now rewrite Hf] |].
      split; [exact T2 |].
      rewrite T1, Hsum, map_app, fold_left_app. cbn [map fold_left].
      f_equal. unfold chunk_outputs. fold chunk. now rewrite Hg. }
  destruct (Hloop C) as (b & Hb & _ & _ & _ & _ & Hsum); [lia |].
  rewrite Hb. f_equal. exact Hsum.
Qed.

End Sums.

Lemma stream_and_reduce_sums_witness :
  stream_and_reduce Z.add 0%Z
    (fun chunks => [fold_right Z.add 0%Z (hd [] chunks)])
    [[1; 2; 3]%Z] (fun _ => 0%Z) 1 2 (Some [0; 1; 2]%nat)
  = Done [6%Z].
Proof.
  destruct (@stream_and_reduce_sums Z Z Z.add 0%Z Z.add_comm Z.add_assoc
              Z.add_0_l
              (fun chunks => [fold_right Z.add 0%Z (hd [] chunks)])
              [[1; 2; 3]%Z] (fun _ => 0%Z) 1%nat 2%nat [0; 1; 2]%nat)
    as (_ & _ & H).
  rewrite H; [reflexivity | discriminate | lia | repeat constructor |].
  intros chunks. reflexivity.
Defined.

End StreamFacts.

(** * Facts about operators/cupy/bucket.py *)

Module BucketFacts.

Import Bucket.

Section Rotation.

Context {numpy : Position.Numpy}.

(** X27.  With [cos**2 + sin**2 = 1] at both angles,
    [compute_transformation] returns an orthogonal array: its rows are
    orthonormal, and so are its columns.  In particular the normal
    [transformation @ (1, 0, 0)] has length one. *)
Theorem compute_transformation_orthogonal (tilt theta : Q) :
  Position.cos tilt * Position.cos tilt
  + Position.sin tilt * Position.sin tilt == 1 ->
  Position.cos theta * Position.cos theta
  + Position.sin theta * Position.sin theta == 1 ->
  let T := compute_transformation tilt theta in
  let Tt := transpose T in
  (dot (row0 T) (row0 T) == 1 /\ dot (row1 T) (row1 T) == 1
   /\ dot (row2 T) (row2 T) == 1 /\ dot (row0 T) (row1 T) == 0
   /\ dot (row0 T) (row2 T) == 0 /\ dot (row1 T) (row2 T) == 0)
  /\ (dot (row0 Tt) (row0 Tt) == 1 /\ dot (row1 Tt) (row1 Tt) == 1
      /\ dot (row2 Tt) (row2 Tt) == 1 /\ dot (row0 Tt) (row1 Tt) == 0
      /\ dot (row0 Tt) (row2 Tt) == 0 /\ dot (row1 Tt) (row2 Tt) == 0)
  /\ dot (matvec T (1, 0, 0)) (matvec T (1, 0, 0)) == 1.
Proof.
  intros Htilt Htheta T Tt. subst T Tt.
  unfold compute_transformation, transpose, matvec, dot, row0, row1, row2,
    x0, x1, x2. cbn [fst snd].
  set (ct := Position.cos tilt) in *. set (st := Position.sin tilt) in *.
  set (ch := Position.cos theta) in *. set (sh := Position.sin theta) in *.
  assert (E1 : st * st == 1 - ct * ct) by lra.
  assert (E2 : sh * sh == 1 - ch * ch) by lra.
  repeat split.
  - lra.
  - transitivity (ch * ch * (st * st) + ch * ch * (ct * ct) + sh * sh);
      [ring |]. rewrite E1, E2. ring.
  - transitivity (sh * sh * (st * st) + sh * sh * (ct * ct) + ch * ch);
      [ring |]. rewrite E1, E2. ring.
  - ring.
  - ring.
  - transitivity (ch * sh * (st * st) + ch * sh * (ct * ct) - sh * ch);
      [ring |]. rewrite E1. ring.
  - transitivity (ct * ct + (ch * ch + sh * sh) * (st * st)); [ring |].
    rewrite E2, E1. ring.
  - transitivity (st * st + (ch * ch + sh * sh) * (ct * ct)); [ring |].
    rewrite E2, E1. ring.
  - transitivity (sh * sh + ch * ch); [ring |]. rewrite E2. ring.
  - transitivity (ct * st * (1 - (ch * ch + sh * sh))); [ring |].
    rewrite E2. ring.
  - ring.
  - ring.
  - transitivity (ct * ct + (ch * ch + sh * sh) * (st * st)); [ring |].
    rewrite E2, E1. ring.
Qed.

(** X28.  For the normal [transformation @ (1, 0, 0)] of
    [compute_transformation], subtracting the part of the point along the
    normal changes nothing: [project_point_to_plane] returns the floor of
    the last two entries of [transformation.T @ point], and so it returns
    the same for all the points of a line along the normal. *)
Theorem project_point_to_plane_rotates (tilt theta t : Q) (point : Vec3) :
  Position.cos tilt * Position.cos tilt
  + Position.sin tilt * Position.sin tilt == 1 ->
  Position.cos theta * Position.cos theta
  + Position.sin theta * Position.sin theta == 1 ->
  let T := compute_transformation tilt theta in
  let normal := matvec T (1, 0, 0) in
  project_point_to_plane point normal T
  = (Qfloor (x1 (matvec (transpose T) point)),
     Qfloor (x2 (matvec (transpose T) point)))
  /\ project_point_to_plane
       (x0 point + t * x0 normal, x1 point + t * x1 normal,
        x2 point + t * x2 normal) normal T
     = project_point_to_plane point normal T.
Proof.
  intros Htilt Htheta T normal.
  assert (Hgen : forall p : Vec3,
            project_point_to_plane p normal T
            = (Qfloor (x1 (matvec (transpose T) p)),
               Qfloor (x2 (matvec (transpose T) p)))).
  { intros [[p0 p1] p2]. subst T normal.
    unfold project_point_to_plane, compute_transformation, transpose,
      matvec, dot, row0, row1, row2, x0, x1, x2. cbn [fst snd].
    set (ct := Position.cos tilt) in *. set (st := Position.sin tilt) in *.
    set (ch := Position.cos theta) in *. set (sh := Position.sin theta) in *.
    assert (E1 : st * st == 1 - ct * ct) by lra.
    f_equal; apply Qfloor_comp.
    - set (d := p0 * (ct * 1 + st * 0 + 0 * 0)
                + p1 * (- ch * st * 1 + ch * ct * 0 + - sh * 0)
                + p2 * (- sh * st * 1 + sh * ct * 0 + ch * 0)).
      transitivity (st * p0 + ch * ct * p1 + sh * ct * p2
                    - d * (ct * st * (1 - (ch * ch + sh * sh))));
        [ring |].
      assert (E2 : ch * ch + sh * sh == 1) by lra.
      rewrite E2. ring.
    - ring. }
  split; [apply Hgen |].
  rewrite !Hgen. destruct point as [[p0 p1] p2]. subst T normal.
  unfold compute_transformation, transpose, matvec, dot, row0, row1, row2,
    x0, x1, x2. cbn [fst snd].
  set (ct := Position.cos tilt) in *. set (st := Position.sin tilt) in *.
  set (ch := Position.cos theta) in *. set (sh := Position.sin theta) in *.
  assert (E2 : ch * ch + sh * sh == 1) by lra.
  f_equal; apply Qfloor_comp.
  - transitivity (st * p0 + ch * ct * p1 + sh * ct * p2
                  + t * (ct * st * (1 - (ch * ch + sh * sh))));
      [ring |].
    rewrite E2. ring.
  - ring.
Qed.

End Rotation.

Lemma compute_transformation_orthogonal_witness :
  let T := compute_transformation (numpy := Samples.numpy) 0 0 in
  dot (matvec T (1, 0, 0)) (matvec T (1, 0, 0)) == 1.
Proof.
  intros T.
  apply (@compute_transformation_orthogonal Samples.numpy 0 0);
    reflexivity.
Defined.

Lemma project_point_to_plane_rotates_witness :
  let T := compute_transformation (numpy := Samples.numpy) 0 0 in
  let normal := matvec T (1, 0, 0) in
  project_point_to_plane (3 + 5 * x0 normal, (7 # 2) + 5 * x1 normal,
                          - (1 # 2) + 5 * x2 normal) normal T
  = project_point_to_plane (3, 7 # 2, - (1 # 2)) normal T.
Proof.
  intros T normal.
  apply (@project_point_to_plane_rotates Samples.numpy 0 0 5
           (3, 7 # 2, - (1 # 2))); reflexivity.
Defined.

Section Coordinates.

Context {numpy : Position.Numpy}.

Lemma map_flat_map {A B D} (f : B -> D) (g : A -> list B) (l : list A) :
  map f (flat_map g l) = flat_map (fun x => map f (g x)) l.
Proof.
  induction l as [|a l IH]; [reflexivity |].
  cbn [flat_map]. now rewrite map_app, IH.
Qed.

Lemma map_add_seq (a n : nat) :
  map (fun k => (k + a)%nat) (seq 0 n) = seq a n.
Proof.
  revert a. induction n as [|n IH]; intros a; [reflexivity |].
  cbn [seq map]. f_equal. rewrite <- seq_shift, map_map.
  rewrite <- (IH (Datatypes.S a)). apply map_ext. intros k. lia.
Qed.

(** Consecutive blocks make one range. *)
Lemma flat_map_blocks (b m n : nat) :
  flat_map (fun j => seq (b + j * m) m) (seq 0 n) = seq b (n * m).
Proof.
  induction n as [|n IH]; [reflexivity |].
  rewrite seq_S, flat_map_app, IH. cbn [flat_map Nat.add].
  rewrite app_nil_r.
  replace (Datatypes.S n * m)%nat with (n * m + m)%nat by lia.
  now rewrite seq_app.
Qed.

(** The chunks of the triples, in the order of the loops, are
    [0, 1, ..., precision**3 - 1]. *)
Lemma chunks_in_order (p : nat) :
  map (chunk_of p) (product3 p) = seq 0 (p ^ 3).
Proof.
  unfold product3. rewrite map_flat_map.
  replace (p ^ 3)%nat with (p * (p * p))%nat by (simpl; lia).
  rewrite <- (flat_map_blocks 0 (p * p) p).
  apply flat_map_ext. intros i. rewrite map_flat_map.
  rewrite <- (flat_map_blocks (0 + i * (p * p)) p p).
  apply flat_map_ext. intros j. rewrite map_map.
  rewrite <- (map_add_seq (0 + i * (p * p) + j * p) p).
  apply map_ext. intros k. cbn [chunk_of]. lia.
Qed.

Lemma length_product3 (p : nat) : length (product3 p) = (p ^ 3)%nat.
Proof.
  rewrite <- (length_map (chunk_of p)), chunks_in_order. apply length_seq.
Qed.

Lemma set_nth_middle {A} (pre : list A) (u v : A) (post : list A) :
  Probe.set_nth (length pre) v (pre ++ u :: post) = pre ++ v :: post.
Proof. induction pre as [|a pre IH]; simpl; [reflexivity | now rewrite IH]. Qed.

Lemma set_nth_twice {A} (i : nat) (u v : A) (l : list A) :
  Probe.set_nth i v (Probe.set_nth i u l) = Probe.set_nth i v l.
Proof.
  revert i. induction l as [|a l IH]; intros [|i]; simpl; try reflexivity.
  now rewrite IH.
Qed.

(** The inner loop writes the entries of one row from left to right. *)
Lemma fill_row {A B} (chunk : A -> nat) (g : A -> B) (cell : nat) :
  forall (xs : list A) (pre mid post : list B) (pc : list (list B)),
    (cell < length pc)%nat ->
    nth cell pc [] = pre ++ mid ++ post ->
    length mid = length xs ->
    map chunk xs = seq (length pre) (length xs) ->
    fold_left
      (fun pc x =>
         Probe.set_nth cell (Probe.set_nth (chunk x) (g x) (nth cell pc []))
           pc)
      xs pc
    = Probe.set_nth cell (pre ++ map g xs ++ post) pc.
Proof.
  induction xs as [|x xs IH]; intros pre mid post pc Hc Hrow Hl Hch.
  - destruct mid; [| discriminate]. cbn [fold_left map app] in *.
    rewrite <- Hrow. symmetry. apply PositionMoreFacts.set_nth_same.
  - destruct mid as [|m0 mid]; [discriminate |].
    cbn [map seq length] in Hch. injection Hch as Hx Hch.
    cbn [fold_left]. rewrite Hx, Hrow. cbn [app].
    rewrite set_nth_middle.
    rewrite (IH (pre ++ [g x]) mid post).
    + rewrite set_nth_twice. cbn [map]. now rewrite <- app_assoc.
    + now rewrite ProbeFacts.length_set_nth.
    + rewrite ProbeFacts.nth_set_nth_eq by exact Hc.
      now rewrite <- app_assoc.
    + simpl in Hl. lia.
    + rewrite length_app. cbn [length].
      now replace (length pre + 1)%nat with (Datatypes.S (length pre)) by lia.
Qed.

(** The outer loop replaces the rows from the first to the last. *)
Lemma fill_rows {B} (h : nat -> list B) (step : list (list B) -> nat -> list (list B))
  (pc0 : list (list B)) :
  (forall k pc, (k < length pc0)%nat -> length pc = length pc0 ->
                nth k pc [] = nth k pc0 [] ->
                step pc k = Probe.set_nth k (h k) pc) ->
  forall k, (k <= length pc0)%nat ->
    fold_left step (seq 0 k) pc0 = map h (seq 0 k) ++ skipn k pc0.
Proof.
  intros Hstep. induction k as [|k IH]; intros Hk; [reflexivity |].
  rewrite seq_S, fold_left_app, IH by lia. cbn [Nat.add fold_left].
  assert (Hlen : length (map h (seq 0 k)) = k)
    by now rewrite length_map, length_seq.
  assert (Hsk : skipn k pc0 = nth k pc0 [] :: skipn (Datatypes.S k) pc0).
  { clear - Hk. revert k Hk.
    induction pc0 as [|r pc0 IH]; intros [|k] Hk; simpl in *; try lia;
      [reflexivity |].
    apply IH. lia. }
  rewrite Hstep.
  - rewrite Hsk. rewrite <- Hlen at 1. rewrite set_nth_middle.
    rewrite map_app. cbn [map]. now rewrite <- app_assoc.
  - lia.
  - rewrite length_app, Hlen, length_skipn. lia.
  - rewrite app_nth2 by lia. rewrite Hlen, Nat.sub_diag, Hsk. reflexivity.
Qed.

Lemma map_nth_seq {A B} (f : A -> B) (d : A) (l : list A) :
  map (fun i => f (nth i l d)) (seq 0 (length l)) = map f l.
Proof.
  induction l as [|a l IH]; [reflexivity |].
  cbn [length seq map nth]. f_equal.
  rewrite <- seq_shift, map_map. exact IH.
Qed.

(** X29.  [get_coordinates_and_weights] writes every entry of
    [plane_coords]: the row of a grid cell holds the projections of its
    [precision**3] sample points in the order of the loops over
    [(i, j, k)], and nothing of what [plane_coords] held before is
    left. *)
Theorem get_coordinates_and_weights_fills
  (grid : list Vec3) (tilt theta : Q) (precision : nat)
  (plane_coords : option (list (list (Z * Z)))) :
  match plane_coords with
  | Some given =>
      length given = length grid
      /\ Forall (fun row => length row = (precision ^ 3)%nat) given
  | None => True
  end ->
  get_coordinates_and_weights grid tilt theta precision plane_coords
  = map (fun cell =>
           map (fun ijk =>
                  project_point_to_plane (sample_point cell precision ijk)
                    (matvec (compute_transformation tilt theta) (1, 0, 0))
                    (compute_transformation tilt theta))
               (product3 precision))
        grid.
Proof.
  intros Hshape. unfold get_coordinates_and_weights. cbv zeta.
  set (pc0 := match plane_coords with
              | Some given => given
              | None => repeat (repeat (0%Z, 0%Z) (precision ^ 3))
                          (length grid)
              end).
  assert (Hpc : length pc0 = length grid
                /\ Forall (fun row => length row = (precision ^ 3)%nat) pc0).
  { subst pc0. destruct plane_coords as [given|]; [exact Hshape |].
    split; [apply repeat_length |].
    apply Forall_forall. intros row Hrow. apply repeat_spec in Hrow.
    subst row. apply repeat_length. }
  destruct Hpc as [Hl Hrows].
  set (T := compute_transformation tilt theta).
  set (normal := matvec T (1, 0, 0)).
  set (h := fun cell : nat =>
              map (fun ijk =>
                     project_point_to_plane
                       (sample_point (nth cell grid (0, 0, 0)) precision ijk)
                       normal T)
                  (product3 precision)).
  rewrite (@fill_rows _ h _ pc0) with (k := length grid); [| | lia].
  - rewrite skipn_all2 by lia. rewrite app_nil_r. unfold h.
    apply (map_nth_seq
             (fun cell =>
                map (fun ijk =>
                       project_point_to_plane
                         (sample_point cell precision ijk) normal T)
                    (product3 precision))).
  - intros k pc Hk Hlpc Hrow.
    rewrite (@fill_row _ _ (chunk_of precision)
               (fun ijk =>
                  project_point_to_plane
                    (sample_point (nth k grid (0, 0, 0)) precision ijk)
                    normal T)
               k (product3 precision) [] (nth k pc []) []).
    + cbn [app]. now rewrite app_nil_r.
    + lia.
    + cbn [app]. now rewrite app_nil_r.
    + rewrite Hrow, length_product3.
      rewrite Forall_forall in Hrows. apply Hrows, nth_In. lia.
    + cbn [length]. rewrite length_product3. apply chunks_in_order.
Qed.

End Coordinates.

Lemma get_coordinates_and_weights_fills_witness :
  get_coordinates_and_weights (numpy := Samples.numpy)
    [(0, 0, 0); (1, 2, 3)] 0 0 1 None
  = [[(0, 0)%Z]; [(2, 3)%Z]].
Proof.
  rewrite (@get_coordinates_and_weights_fills Samples.numpy
             [(0, 0, 0); (1, 2, 3)] 0 0 1%nat None I).
  reflexivity.
Defined.

Section Grid.

(** X30.  Along one axis [Bucket._make_grid] has [n] coordinates, from
    [-n // 2] on.  Their array indices [(grid + n // 2) % n] are
    [0, ..., n - 1] in this order for an even [n]; for an odd [n] the
    first coordinate wraps around to the index [n - 1] and the others
    follow as [0, ..., n - 2]. *)
Theorem grid_axis_indices (n : Z) :
  (1 <= n)%Z ->
  Z.of_nat (length (grid_axis n)) = n
  /\ map (grid_index n) (grid_axis n)
     = if Z.even n
       then map Z.of_nat (seq 0 (Z.to_nat n))
       else (n - 1)%Z :: map Z.of_nat (seq 0 (Z.to_nat (n - 1))).
Proof.
  intros Hn. unfold grid_axis, grid_index. cbv zeta.
  destruct (Z.even n) eqn:E.
  - apply Z.even_spec in E. destruct E as [m ->].
    replace (- (2 * m) / 2)%Z with (- m)%Z
      by (replace (- (2 * m))%Z with ((- m) * 2)%Z by lia;
          now rewrite Z.div_mul by lia).
    replace (2 * m / 2)%Z with m
      by (rewrite Z.mul_comm; now rewrite Z.div_mul by lia).
    replace (m - - m)%Z with (2 * m)%Z by lia.
    split; [rewrite length_map, length_seq; lia |].
    rewrite map_map. apply map_ext_in. intros k Hk. apply in_seq in Hk.
    replace (- m + Z.of_nat k + m)%Z with (Z.of_nat k) by lia.
    apply Z.mod_small. lia.
  - assert (Ho : Z.odd n = true) by (rewrite <- Z.negb_even, E; reflexivity).
    apply Z.odd_spec in Ho. destruct Ho as [m ->].
    replace (- (2 * m + 1) / 2)%Z with (- m - 1)%Z
      by (replace (- (2 * m + 1))%Z with (1 + (- m - 1) * 2)%Z by lia;
          rewrite Z.div_add by lia; reflexivity).
    replace ((2 * m + 1) / 2)%Z with m
      by (replace (2 * m + 1)%Z with (1 + m * 2)%Z by lia;
          rewrite Z.div_add by lia; reflexivity).
    replace (m - (- m - 1))%Z with (2 * m + 1)%Z by lia.
    split; [rewrite length_map, length_seq; lia |].
    replace (Z.to_nat (2 * m + 1)) with (Datatypes.S (Z.to_nat (2 * m)))
      by lia.
    replace (2 * m + 1 - 1)%Z with (2 * m)%Z by lia.
    cbn [seq map]. f_equal.
    + replace (- m - 1 + Z.of_nat 0 + m)%Z
        with (2 * m + (-1) * (2 * m + 1))%Z by lia.
      rewrite Z.mod_add by lia. apply Z.mod_small. lia.
    + rewrite <- seq_shift, !map_map. apply map_ext_in.
      intros k Hk. apply in_seq in Hk.
      replace (- m - 1 + Z.of_nat (Datatypes.S k) + m)%Z
        with (Z.of_nat k) by lia.
      apply Z.mod_small. lia.
Qed.

End Grid.

Lemma grid_axis_indices_witness :
  Z.of_nat (length (grid_axis 3)) = 3%Z
  /\ map (grid_index 3) (grid_axis 3) = [2; 0; 1]%Z.
Proof. apply (@grid_axis_indices 3%Z). lia. Defined.

End BucketFacts.
